(** * AIOS memory layer: embeddings (model loader, generator, cache, cached generator)

    A shallow embedding of the TypeScript sources under
    [packages/memory/src/embeddings/]:
      - [model-loader.ts]      (module [ModelLoader]),
      - [generator.ts]         (module [Generator]),
      - [cache.ts]             (module [Cache]),
      - [cached-generator.ts]  (module [CachedGenerator]),
    together with the JavaScript built-ins these files rely on (module [JS]).

    JavaScript numbers are IEEE-754 binary64 values, which is what Rocq's
    primitive [float] is; strings are sequences of UTF-16 code units; the module
    level variables of the TypeScript files and the SQLite table live in one
    [World] record that every operation threads explicitly. Asynchronous calls
    are run one after the other, each to its end. The digest ([crypto]) and the
    inference model ([@xenova/transformers]) are parameters.

    [ModelLoader], [Generator] and [CachedGenerator] take the callbacks for
    functions that return and the batch size for an integer. [Observers] and
    [Numbers] are the same functions for callbacks that may throw and a batch
    size that is any number; [Exact] gives the numbers their real values, for
    the norm of a normalized vector. *)

From Stdlib Require Import String Ascii.
From Stdlib Require Import ZArith NArith List Bool Arith Lia Floats.
From Stdlib Require Reals Lra Psatz.
Import ListNotations.

(* ================================================================= *)
(** ** JavaScript built-ins used by the sources *)

Module JS.

(** A JavaScript string: its UTF-16 code units. *)
Definition jsstring := list N.

(** String literals of the examples (code units below 256). *)
Definition lit (s : string) : jsstring :=
  map N_of_ascii (list_ascii_of_string s).

(** ECMAScript [WhiteSpace] and [LineTerminator] code units: what
    [String.prototype.trim] strips. *)
Definition isWhiteSpace (c : N) : bool :=
  ((c =? 9) || (c =? 10) || (c =? 11) || (c =? 12) || (c =? 13) || (c =? 32)
   || (c =? 160) || (c =? 5760) || ((8192 <=? c) && (c <=? 8202))
   || (c =? 8232) || (c =? 8233) || (c =? 8239) || (c =? 8287)
   || (c =? 12288) || (c =? 65279))%N.

Fixpoint trimStart (s : jsstring) : jsstring :=
  match s with
  | [] => []
  | c :: rest => if isWhiteSpace c then trimStart rest else s
  end.

Definition trimEnd (s : jsstring) : jsstring := rev (trimStart (rev s)).

Definition trim (s : jsstring) : jsstring := trimEnd (trimStart s).

(** A number is a binary64 float. *)
Definition number := float.

(** The number nearest to an integer (exact below 2^53). *)
Definition ofZ (z : Z) : number := SF2Prim (binary_normalize prec emax z 0 false).

Definition ofNat (n : nat) : number := ofZ (Z.of_nat n).

(** [Math.round]: the nearest integer, ties towards +infinity. *)
Definition Math_round (x : number) : number :=
  match Prim2SF x with
  | S754_finite s m e =>
      if (0 <=? e)%Z then x
      else
        let n := Z.shiftr (2 * cond_Zopp s (Zpos m) + 2 ^ (- e)) (1 - e) in
        if (n =? 0)%Z then (if s then neg_zero else zero) else ofZ n
  | _ => x
  end.

(** [Math.fround]: rounding to binary32, as a [Float32Array] store does. *)
Definition fround (x : number) : number :=
  match Prim2SF x with
  | S754_finite s m e => SF2Prim (binary_round 24 128 s m e)
  | _ => x
  end.

(** [x === 0] on numbers. *)
Definition isZero (x : number) : bool := PrimFloat.eqb x zero.

(** [Array.prototype.slice(start, end)] for integer arguments. *)
Definition sliceIndex (len k : Z) : Z :=
  if (k <? 0)%Z then Z.max (len + k) 0 else Z.min k len.

Definition slice {A} (l : list A) (s e : Z) : list A :=
  let len := Z.of_nat (length l) in
  let from := sliceIndex len s in
  let to := sliceIndex len e in
  firstn (Z.to_nat (to - from)) (skipn (Z.to_nat from) l).

(** A JavaScript array that may have holes: [None] is an absent slot. *)
Definition array (A : Type) := list (option A).

(** [arr[i] = v], extending the array with holes when [i] is past its end. *)
Fixpoint array_set {A} (arr : array A) (i : nat) (v : option A) : array A :=
  match i, arr with
  | O, [] => [v]
  | O, _ :: rest => v :: rest
  | S i', [] => None :: array_set [] i' v
  | S i', x :: rest => x :: array_set rest i' v
  end.

(** [arr[i]], [None] standing for [undefined]. *)
Definition array_get {A} (arr : array A) (i : nat) : option A :=
  match nth_error arr i with
  | Some slot => slot
  | None => None
  end.

(** [new Array(n).fill(0)]. *)
Definition zeros (n : nat) : list number := repeat zero n.

End JS.
Import JS.

(* ================================================================= *)
(** ** The state the four source files share, and the effect monad *)

Module Runtime.

(** A JavaScript [Error] object. *)
Record Error := mkError { message : string }.

(** A thrown value: an [Error], or anything else (kept as its [String(...)]). *)
Inductive Thrown :=
| ThrownError (e : Error)
| ThrownOther (text : string).

(** model-loader.ts: [type EmbeddingPipeline]; the inference model maps a text
    to the data of a [Float32Array]. *)
Definition EmbeddingPipeline := jsstring -> list number.

(** model-loader.ts: [interface ModelLoadProgress]; in a module of its own,
    so that its [total] and that of [BatchProgress] keep their names. *)
Inductive LoadStatus := downloading | loading | ready | error.

Module LoadProgress.
Record ModelLoadProgress := make {
  status : LoadStatus;
  progress : option number;
  file : option string;
  loaded : option number;
  total : option number
}.
End LoadProgress.
Abbreviation ModelLoadProgress := LoadProgress.ModelLoadProgress.

(** generator.ts: [interface BatchProgress]. *)
Record BatchProgress := mkBatchProgress {
  current : Z;
  total : Z;
  percentage : number
}.

(** cache.ts: a row of the table [aios_embedding_cache]; the BLOB is kept as
    the binary32 values it holds. *)
Record Row := mkRow {
  content_hash : string;
  embedding : list number;
  model_version : string;
  dimensions : nat;
  created_at : nat
}.

(** model-loader.ts: the singleton's module variables. *)
Record LoaderState := mkLoader {
  embeddingPipeline : option EmbeddingPipeline;
  isLoading : bool;
  loadError : option Error
}.

Record World := mkWorld {
  loader : LoaderState;
  cacheDirExists : bool;            (* fs: the model cache directory *)
  table : list Row;                 (* the database handle's table *)
  clock : nat;                      (* what datetime('now') reads *)
  cacheHits : nat;                  (* cache.ts: let cacheHits *)
  cacheMisses : nat;                (* cache.ts: let cacheMisses *)
  factoryCalls : nat;               (* calls of transformers' pipeline(...) *)
  inferenceCalls : nat;             (* calls of the loaded pipeline instance *)
  loadTrace : list ModelLoadProgress;   (* what onModelLoad observers received *)
  progressTrace : list BatchProgress    (* what onProgress observers received *)
}.

Definition set_loader (f : LoaderState -> LoaderState) (w : World) : World :=
  mkWorld (f (loader w)) (cacheDirExists w) (table w) (clock w) (cacheHits w)
          (cacheMisses w) (factoryCalls w) (inferenceCalls w) (loadTrace w)
          (progressTrace w).

Definition set_cacheDirExists (b : bool) (w : World) : World :=
  mkWorld (loader w) b (table w) (clock w) (cacheHits w)
          (cacheMisses w) (factoryCalls w) (inferenceCalls w) (loadTrace w)
          (progressTrace w).

Definition set_table (f : list Row -> list Row) (w : World) : World :=
  mkWorld (loader w) (cacheDirExists w) (f (table w)) (clock w) (cacheHits w)
          (cacheMisses w) (factoryCalls w) (inferenceCalls w) (loadTrace w)
          (progressTrace w).

Definition set_counters (hits misses : nat) (w : World) : World :=
  mkWorld (loader w) (cacheDirExists w) (table w) (clock w) hits
          misses (factoryCalls w) (inferenceCalls w) (loadTrace w)
          (progressTrace w).

Definition count_factoryCall (w : World) : World :=
  mkWorld (loader w) (cacheDirExists w) (table w) (clock w) (cacheHits w)
          (cacheMisses w) (S (factoryCalls w)) (inferenceCalls w) (loadTrace w)
          (progressTrace w).

Definition count_inferenceCall (w : World) : World :=
  mkWorld (loader w) (cacheDirExists w) (table w) (clock w) (cacheHits w)
          (cacheMisses w) (factoryCalls w) (S (inferenceCalls w)) (loadTrace w)
          (progressTrace w).

Definition observe_load (evs : list ModelLoadProgress) (w : World) : World :=
  mkWorld (loader w) (cacheDirExists w) (table w) (clock w) (cacheHits w)
          (cacheMisses w) (factoryCalls w) (inferenceCalls w) (loadTrace w ++ evs)
          (progressTrace w).

Definition observe_progress (evs : list BatchProgress) (w : World) : World :=
  mkWorld (loader w) (cacheDirExists w) (table w) (clock w) (cacheHits w)
          (cacheMisses w) (factoryCalls w) (inferenceCalls w) (loadTrace w)
          (progressTrace w ++ evs).

(** A caller-supplied callback, by what it hands to the caller's observer each
    time it is invoked; a callback that records its argument is [fun p => [p]]. *)
Definition ProgressCallback := ModelLoadProgress -> list ModelLoadProgress.
Definition BatchProgressCallback := BatchProgress -> list BatchProgress.

(** How a call ends. *)
Inductive Completion (A : Type) :=
| Returns (a : A)      (* returns; an async function's promise resolves *)
| Throws (e : Error)   (* throws; the promise rejects *)
| Pending              (* the promise waits for a load that is in flight *)
| OutOfFuel.           (* a loop has not ended within the fuel given *)
Arguments Returns {A} a.
Arguments Throws {A} e.
Arguments Pending {A}.
Arguments OutOfFuel {A}.

(** Effects: the world is threaded, and kept when a call throws. *)
Definition M (A : Type) := World -> Completion A * World.

Definition ret {A} (a : A) : M A := fun w => (Returns a, w).

Definition bind {A B} (m : M A) (k : A -> M B) : M B :=
  fun w =>
    match m w with
    | (Returns a, w') => k a w'
    | (Throws e, w') => (Throws e, w')
    | (Pending, w') => (Pending, w')
    | (OutOfFuel, w') => (OutOfFuel, w')
    end.

Definition modify (f : World -> World) : M unit := fun w => (Returns tt, f w).

End Runtime.
Import Runtime.

Declare Scope js_scope.
Delimit Scope js_scope with js.
Notation "x <- m ;; k" := (bind m (fun x => k))
  (at level 61, m at next level, right associativity) : js_scope.
Notation "m ;;; k" := (bind m (fun _ => k))
  (at level 61, right associativity) : js_scope.

(* ================================================================= *)
(** ** model-loader.ts *)

Module ModelLoader.

Definition MODEL_NAME : string := "Xenova/all-MiniLM-L6-v2"%string.
Definition MODEL_DIMENSIONS : nat := 384.

(** What one call of transformers' [pipeline('feature-extraction', ...)] does:
    it reports to its [progress_callback], then resolves with a pipeline
    instance or rejects. This is the environment's part of a load. *)
Record FactoryProgress := mkFactoryProgress {
  fp_status : string;
  fp_file : option string;
  fp_loaded : option number;
  fp_total : option number
}.

Record LoadAttempt := mkAttempt {
  notifications : list FactoryProgress;
  outcome : EmbeddingPipeline + Thrown
}.

(** Truthiness of an optional number: defined, not 0 and not NaN. *)
Definition truthy (x : option number) : bool :=
  match x with
  | Some v => negb (isZero v) && negb (is_nan v)
  | None => false
  end.

Definition orZero (x : option number) : number :=
  match x with
  | Some v => if truthy x then v else zero
  | None => zero
  end.

(** The [progress_callback] handed to the factory: forwards the [download]
    notifications. *)
Definition downloadProgress (p : FactoryProgress) : list ModelLoadProgress :=
  if String.eqb (fp_status p) "download" then
    [ LoadProgress.make downloading
        (match fp_total p with
         | Some t => if truthy (fp_total p)
                     then Some (orZero (fp_loaded p) / t)%float else None
         | None => None
         end)
        (fp_file p) (fp_loaded p) (fp_total p) ]
  else [].

(** [onProgress?.(ev)]. *)
Definition notify (onProgress : option ProgressCallback)
           (ev : ModelLoadProgress) : World -> World :=
  match onProgress with
  | Some callback => observe_load (callback ev)
  | None => fun w => w
  end.

Definition statusOnly (s : LoadStatus) : ModelLoadProgress :=
  LoadProgress.make s None None None None.

(** [error instanceof Error ? error : new Error(String(error))]. *)
Definition toError (t : Thrown) : Error :=
  match t with
  | ThrownError e => e
  | ThrownOther text => mkError text
  end.

Definition ensureModelCacheDir (w : World) : World :=
  if cacheDirExists w then w else set_cacheDirExists true w.

Definition set_isLoading (b : bool) : World -> World :=
  set_loader (fun l => mkLoader (embeddingPipeline l) b (loadError l)).

Definition set_embeddingPipeline (p : option EmbeddingPipeline) : World -> World :=
  set_loader (fun l => mkLoader p (isLoading l) (loadError l)).

Definition set_loadError (e : option Error) : World -> World :=
  set_loader (fun l => mkLoader (embeddingPipeline l) (isLoading l) e).

(** [getEmbeddingPipeline(onProgress)], each call run to its end before the
    next one starts; [attempt] is what the factory does if this call invokes
    it. A call that finds [isLoading] set gets the polling promise, which
    nothing in a sequential run settles. *)
Definition getEmbeddingPipeline (attempt : LoadAttempt)
           (onProgress : option ProgressCallback) : M EmbeddingPipeline :=
  fun w =>
    match embeddingPipeline (loader w) with
    | Some instance => (Returns instance, w)          (* cached instance *)
    | None =>
        match loadError (loader w) with
        | Some e => (Throws e, w)                     (* previous load failed *)
        | None =>
            if isLoading (loader w) then (Pending, w)
            else
              let w := set_isLoading true w in
              let w := ensureModelCacheDir w in
              (* try *)
              let w := notify onProgress (statusOnly loading) w in
              let w := count_factoryCall w in
              let w := fold_left
                         (fun w p =>
                            fold_left (fun w ev => notify onProgress ev w)
                                      (downloadProgress p) w)
                         (notifications attempt) w in
              match outcome attempt with
              | inl instance =>
                  let w := set_embeddingPipeline (Some instance) w in
                  let w := notify onProgress (statusOnly ready) w in
                  let w := set_isLoading false w in
                  (Returns instance, w)
              | inr thrown =>                         (* catch (error) *)
                  let w := set_loadError (Some (toError thrown)) w in
                  let w := set_isLoading false w in
                  let w := notify onProgress (statusOnly error) w in
                  (Throws (toError thrown), w)
              end
        end
    end.


Definition isModelLoaded (w : World) : bool :=
  match embeddingPipeline (loader w) with Some _ => true | None => false end.

Definition unloadModel (w : World) : World :=
  let w := set_embeddingPipeline None w in
  let w := set_loadError None w in
  set_isLoading false w.

(** A run of later [getEmbeddingPipeline] calls, one after the other. *)
Fixpoint acquireAll (calls : list (LoadAttempt * option ProgressCallback))
         (w : World) : list (Completion EmbeddingPipeline) * World :=
  match calls with
  | [] => ([], w)
  | (attempt, onProgress) :: rest =>
      let (r, w1) := getEmbeddingPipeline attempt onProgress w in
      let (rs, w2) := acquireAll rest w1 in
      (r :: rs, w2)
  end.

(** The module as first imported. *)
Definition initialLoader : LoaderState := mkLoader None false None.

End ModelLoader.
Import ModelLoader.

(* ================================================================= *)
(** ** generator.ts *)

Module Generator.

Local Open Scope js_scope.

(** [Math.sqrt(vector.reduce((sum, val) => sum + val * val, 0))]. *)
Definition magnitudeOf (vector : list number) : number :=
  PrimFloat.sqrt (fold_left (fun sum val => (sum + val * val)%float) vector zero).

Definition normalizeVector (vector : list number) : list number :=
  let magnitude := magnitudeOf vector in
  if isZero magnitude then vector
  else map (fun val => (val / magnitude)%float) vector.

(** [!text || text.trim().length === 0]. *)
Definition isBlank (text : jsstring) : bool :=
  match text with
  | [] => true
  | _ => length (trim text) =? 0
  end.

(** [options?.normalize !== false]. *)
Definition wantsNormalize (normalize : option bool) : bool :=
  match normalize with
  | Some false => false
  | _ => true
  end.

(** [await pipeline(text, { pooling: 'mean', normalize: false })] followed by
    [Array.from(result.data)]. *)
Definition infer (pipeline : EmbeddingPipeline) (text : jsstring) : M (list number) :=
  fun w => (Returns (pipeline text), count_inferenceCall w).

Record EmbedOptions := mkEmbedOptions {
  eo_normalize : option bool;
  eo_onModelLoad : option ProgressCallback
}.

Definition generateEmbedding (attempt : LoadAttempt) (text : jsstring)
           (options : EmbedOptions) : M (list number) :=
  if isBlank text then ret (zeros MODEL_DIMENSIONS)
  else
    pipeline <- getEmbeddingPipeline attempt (eo_onModelLoad options) ;;
    embedding <- infer pipeline text ;;
    if wantsNormalize (eo_normalize options)
    then ret (normalizeVector embedding)
    else ret embedding.

Record BatchOptions := mkBatchOptions {
  bo_batchSize : option Z;
  bo_normalize : option bool;
  bo_onProgress : option BatchProgressCallback;
  bo_onModelLoad : option ProgressCallback
}.

(** [options?.onProgress?.(ev)]. *)
Definition report (onProgress : option BatchProgressCallback)
           (ev : BatchProgress) : M unit :=
  match onProgress with
  | Some callback => modify (observe_progress (callback ev))
  | None => ret tt
  end.

(** [Math.round((current / total) * 100)]. *)
Definition percentageOf (current total : Z) : number :=
  Math_round ((ofZ current / ofZ total) * ofZ 100)%float.

Section BatchLoop.
Variable pipeline : EmbeddingPipeline.
Variable options : BatchOptions.
Variable texts : list jsstring.
Variable total : Z.                    (* const total = texts.length *)

(** The inner loop [for (let j = 0; j < batch.length; j++)], from [j] on. *)
Fixpoint processBatch (i : Z) (batch : list jsstring) (j : Z)
         (results : list (list number)) : M (list (list number)) :=
  match batch with
  | [] => ret results
  | text :: rest =>
      let globalIndex := (i + j)%Z in
      results <-
        (if isBlank text then ret (results ++ [zeros MODEL_DIMENSIONS])
         else
           embedding <- infer pipeline text ;;
           ret (results ++ [if wantsNormalize (bo_normalize options)
                            then normalizeVector embedding
                            else embedding])) ;;
      report (bo_onProgress options)
             (mkBatchProgress (globalIndex + 1) total
                              (percentageOf (globalIndex + 1) total)) ;;;
      processBatch i rest (j + 1) results
  end.

(** The outer loop [for (let i = 0; i < texts.length; i += batchSize)],
    from [i] on; one unit of fuel per iteration. *)
Fixpoint batchLoop (fuel : nat) (batchSize : Z) (i : Z)
         (results : list (list number)) : M (list (list number)) :=
  if (i <? Z.of_nat (length texts))%Z then
    match fuel with
    | O => fun w => (OutOfFuel, w)
    | S fuel' =>
        let batch := slice texts i (i + batchSize) in
        results <- processBatch i batch 0 results ;;
        batchLoop fuel' batchSize (i + batchSize)%Z results
    end
  else ret results.
End BatchLoop.

Definition generateEmbeddings (fuel : nat) (attempt : LoadAttempt)
           (texts : list jsstring) (options : BatchOptions)
  : M (list (list number)) :=
  match texts with
  | [] => ret []
  | _ =>
      let batchSize := match bo_batchSize options with
                       | Some b => b
                       | None => 32%Z
                       end in
      let total := Z.of_nat (length texts) in
      pipeline <- getEmbeddingPipeline attempt (bo_onModelLoad options) ;;
      batchLoop pipeline options texts total fuel batchSize 0 []
  end.

(** The thrown [Error('Embeddings must have same dimensions')]. *)
Definition dimensionMismatch : Error :=
  mkError "Embeddings must have same dimensions".

(** [a[i]] in arithmetic: [undefined] becomes NaN. *)
Definition at_ (a : list number) (i : nat) : number := nth i a nan.

Definition cosineSimilarity (a b : list number) : Error + number :=
  if negb (length a =? length b) then inl dimensionMismatch
  else
    let '(dotProduct, normA, normB) :=
      fold_left
        (fun '(dotProduct, normA, normB) i =>
           ((dotProduct + at_ a i * at_ b i)%float,
            (normA + at_ a i * at_ a i)%float,
            (normB + at_ b i * at_ b i)%float))
        (seq 0 (length a)) (zero, zero, zero) in
    let magnitude := (PrimFloat.sqrt normA * PrimFloat.sqrt normB)%float in
    if isZero magnitude then inr zero
    else inr (dotProduct / magnitude)%float.


End Generator.
Import Generator.

(* ================================================================= *)
(** ** cache.ts *)

Module Cache.

Local Open Scope js_scope.

Record CacheStats := mkCacheStats {
  hits : nat;
  misses : nat;
  hitRate : number;
  totalEntries : nat;
  modelVersion : string
}.

(** [createCacheSchema]: [content_hash TEXT PRIMARY KEY]. The table holds at
    most one row per [content_hash]; the statements below keep it so. *)
Definition primaryKey (rows : list Row) : Prop := NoDup (map content_hash rows).

(** [INSERT OR REPLACE]: the rows in conflict on the primary key go, the new
    row comes in. *)
Definition insertOrReplace (row : Row) (rows : list Row) : list Row :=
  filter (fun r => negb (String.eqb (content_hash r) (content_hash row))) rows
  ++ [row].

(** [WHERE content_hash = ? AND model_version = ?]. *)
Definition keyed (hash version : string) (r : Row) : bool :=
  String.eqb (content_hash r) hash && String.eqb (model_version r) version.

Definition ofVersion (version : string) (r : Row) : bool :=
  String.eqb (model_version r) version.

Definition ofHash (hash : string) (r : Row) : bool :=
  String.eqb (content_hash r) hash.

(** The [RangeError] of a [Float32Array] view longer than its buffer. *)
Definition invalidTypedArrayLength : Error :=
  mkError "Invalid typed array length".

(** [resetCacheStats()]. *)
Definition resetCacheStats : M unit := modify (set_counters 0 0).

(** [getCacheStats(db)]. *)
Definition getCacheStats : M CacheStats :=
  fun w =>
    let count := length (filter (ofVersion MODEL_NAME) (table w)) in
    let totalRequests := cacheHits w + cacheMisses w in
    let hitRate := if 0 <? totalRequests
                   then (ofNat (cacheHits w) / ofNat totalRequests)%float
                   else zero in
    (Returns (mkCacheStats (cacheHits w) (cacheMisses w) hitRate count MODEL_NAME), w).

(** [clearCache(db)]: [result.changes] is the number of rows deleted. *)
Definition clearCache : M nat :=
  fun w =>
    let changes := length (filter (ofVersion MODEL_NAME) (table w)) in
    let w := set_table (filter (fun r => negb (ofVersion MODEL_NAME r))) w in
    bind resetCacheStats (fun _ => ret changes) w.

(** [clearOldCache(db)]. *)
Definition clearOldCache : M nat :=
  fun w =>
    let changes := length (filter (fun r => negb (ofVersion MODEL_NAME r)) (table w)) in
    (Returns changes, set_table (filter (ofVersion MODEL_NAME)) w).

Section WithDigest.
(** [crypto.createHash('sha256').update(content).digest('hex')]. *)
Variable hashContent : jsstring -> string.

(** [getCachedEmbedding(db, content)]. *)
Definition getCachedEmbedding (content : jsstring) : M (option (list number)) :=
  fun w =>
    let hash := hashContent content in
    match find (keyed hash MODEL_NAME) (table w) with
    | Some row =>
        let w := set_counters (S (cacheHits w)) (cacheMisses w) w in
        (* new Float32Array(buffer, byteOffset, row.dimensions) *)
        if dimensions row <=? length (embedding row)
        then (Returns (Some (firstn (dimensions row) (embedding row))), w)
        else (Throws invalidTypedArrayLength, w)
    | None =>
        (Returns None, set_counters (cacheHits w) (S (cacheMisses w)) w)
    end.

(** [cacheEmbedding(db, content, embedding)]. *)
Definition cacheEmbedding (content : jsstring) (embedding : list number) : M unit :=
  fun w =>
    let hash := hashContent content in
    let floatArray := map fround embedding in
    let row := mkRow hash floatArray MODEL_NAME MODEL_DIMENSIONS (clock w) in
    (Returns tt, set_table (insertOrReplace row) w).

(** [invalidateCacheEntry(db, content)]. *)
Definition invalidateCacheEntry (content : jsstring) : M bool :=
  fun w =>
    let hash := hashContent content in
    let changes := length (filter (ofHash hash) (table w)) in
    (Returns (0 <? changes),
     set_table (filter (fun r => negb (ofHash hash r))) w).
End WithDigest.

End Cache.
Import Cache.

(* ================================================================= *)
(** ** cached-generator.ts *)

Module CachedGenerator.

Local Open Scope js_scope.

Record CachedGeneratorOptions := mkCachedOptions {
  useCache : option bool;
  normalize : option bool;
  onModelLoad : option ProgressCallback;
  batchSize : option Z;
  onProgress : option BatchProgressCallback
}.

(** [useCache = true] in the destructuring. *)
Definition usesCache (options : CachedGeneratorOptions) : bool :=
  match useCache options with
  | Some b => b
  | None => true
  end.

Section WithDigest.
Variable hashContent : jsstring -> string.

(** [if (useCache) { const cached = getCachedEmbedding(db, text); ... }]. *)
Definition tryCache (options : CachedGeneratorOptions) (text : jsstring)
  : M (option (list number)) :=
  if usesCache options then getCachedEmbedding hashContent text else ret None.

Definition generateEmbeddingCached (attempt : LoadAttempt) (text : jsstring)
           (options : CachedGeneratorOptions) : M (list number) :=
  cached <- tryCache options text ;;
  match cached with
  | Some vector => ret vector
  | None =>
      embedding <- generateEmbedding attempt text
                     (mkEmbedOptions (normalize options) (onModelLoad options)) ;;
      (if usesCache options
       then cacheEmbedding hashContent text embedding
       else ret tt) ;;;
      ret embedding
  end.

(** The first loop: check the cache for each text, from index [i] on. *)
Fixpoint checkCache (options : CachedGeneratorOptions) (texts : list jsstring)
         (i : nat) (results : array (list number))
         (textsToGenerate : list (nat * jsstring))
  : M (array (list number) * list (nat * jsstring)) :=
  match texts with
  | [] => ret (results, textsToGenerate)
  | text :: rest =>
      cached <- tryCache options text ;;
      match cached with
      | Some vector =>
          checkCache options rest (S i) (array_set results i (Some vector))
                     textsToGenerate
      | None =>
          checkCache options rest (S i) results (textsToGenerate ++ [(i, text)])
      end
  end.

(** The wrapper handed to [generateEmbeddings] as its [onProgress]. *)
Definition adjustProgress (onProgress : BatchProgressCallback)
           (textsLength toGenerateLength : nat) : BatchProgressCallback :=
  fun progress =>
    let adjustedTotal := Z.of_nat textsLength in
    let cachedCount := (Z.of_nat textsLength - Z.of_nat toGenerateLength)%Z in
    let adjustedCurrent := (cachedCount + current progress)%Z in
    onProgress (mkBatchProgress adjustedCurrent adjustedTotal
                                (percentageOf adjustedCurrent adjustedTotal)).

(** [new Float32Array(embedding)] sees no elements in [undefined]. *)
Definition orEmpty (embedding : option (list number)) : list number :=
  match embedding with
  | Some v => v
  | None => []
  end.

(** The second loop: store results and cache, from position [i] on. *)
Fixpoint storeResults (options : CachedGeneratorOptions)
         (textsToGenerate : list (nat * jsstring))
         (generated : list (list number)) (i : nat)
         (results : array (list number)) : M (array (list number)) :=
  match textsToGenerate with
  | [] => ret results
  | (index, text) :: rest =>
      let embedding := nth_error generated i in
      let results := array_set results index embedding in
      (if usesCache options
       then cacheEmbedding hashContent text (orEmpty embedding)
       else ret tt) ;;;
      storeResults options rest generated (S i) results
  end.

Definition generateEmbeddingsCached (fuel : nat) (attempt : LoadAttempt)
           (texts : list jsstring) (options : CachedGeneratorOptions)
  : M (array (list number)) :=
  match texts with
  | [] => ret []
  | _ =>
      checked <- checkCache options texts 0 [] [] ;;
      let '(results, textsToGenerate) := checked in
      match textsToGenerate with
      | [] => ret results
      | _ =>
          let uncachedTexts := map snd textsToGenerate in
          generated <-
            generateEmbeddings fuel attempt uncachedTexts
              (mkBatchOptions (batchSize options) (normalize options)
                 (option_map
                    (fun callback =>
                       adjustProgress callback (length texts)
                                      (length textsToGenerate))
                    (onProgress options))
                 (onModelLoad options)) ;;
          storeResults options textsToGenerate generated 0 results
      end
  end.

End WithDigest.

End CachedGenerator.
Import CachedGenerator.

(* ================================================================= *)
(** ** Vocabulary of the statements *)

Module Expected.

(** The model can be had: it is loaded, or nothing was tried yet and the
    factory would succeed. *)
Definition available (attempt : LoadAttempt) (w : World)
           (pipeline : EmbeddingPipeline) : Prop :=
  embeddingPipeline (loader w) = Some pipeline \/
  (loader w = initialLoader /\ outcome attempt = inl pipeline).

(** The world a [getEmbeddingPipeline] call leaves. *)
Definition acquired (attempt : LoadAttempt) (onModelLoad : option ProgressCallback)
           (w : World) : World :=
  snd (getEmbeddingPipeline attempt onModelLoad w).

(** No instance and a stored error: the state a failed load leaves. *)
Definition failedWith (e : Error) (w : World) : Prop :=
  embeddingPipeline (loader w) = None /\ loadError (loader w) = Some e.

(** A text made of white space only (the empty text included). *)
Definition whitespaceOnly (text : jsstring) : Prop :=
  Forall (fun c => isWhiteSpace c = true) text.

(** What one text embeds to once the pipeline is at hand. *)
Definition embedItem (pipeline : EmbeddingPipeline) (normalize : option bool)
           (text : jsstring) : list number :=
  if isBlank text then zeros MODEL_DIMENSIONS
  else if wantsNormalize normalize then normalizeVector (pipeline text)
       else pipeline text.

(** The texts that reach the model. *)
Definition inferred (texts : list jsstring) : list jsstring :=
  filter (fun text => negb (isBlank text)) texts.

(** The progress event of the item that completes as number [k]. *)
Definition progressAt (total k : Z) : BatchProgress :=
  mkBatchProgress k total (percentageOf k total).

(** The events of [n] items completing after [done] earlier ones. *)
Definition progressRun (total : Z) (done n : nat) : list BatchProgress :=
  map (fun k => progressAt total (Z.of_nat k)) (seq (S done) n).

(** What the observer receives when a callback is handed these events. *)
Definition deliver (callback : option BatchProgressCallback)
           (events : list BatchProgress) : list BatchProgress :=
  match callback with
  | Some f => flat_map f events
  | None => []
  end.

(** The callback of the test-suite: it records its argument. *)
Definition record : BatchProgressCallback := fun progress => [progress].

(** The world after [calls] more inferences and [delivered] more observations. *)
Definition advance (calls : nat) (delivered : list BatchProgress) (w : World) : World :=
  mkWorld (loader w) (cacheDirExists w) (table w) (clock w) (cacheHits w)
          (cacheMisses w) (factoryCalls w) (calls + inferenceCalls w) (loadTrace w)
          (progressTrace w ++ delivered).

(** The world after [h] more cache hits and [m] more cache misses. *)
Definition counted (h m : nat) (w : World) : World :=
  set_counters (h + cacheHits w) (m + cacheMisses w) w.

(** Two worlds that differ at most in the loader, the cache directory, the
    factory count and the load trace: what a model load may touch. *)
Definition sameCacheSide (w w' : World) : Prop :=
  table w' = table w /\ clock w' = clock w /\ cacheHits w' = cacheHits w
  /\ cacheMisses w' = cacheMisses w /\ inferenceCalls w' = inferenceCalls w
  /\ progressTrace w' = progressTrace w.

(** [options?.batchSize ?? 32]. *)
Definition batchSizeOf (batchSize : option Z) : Z :=
  match batchSize with
  | Some b => b
  | None => 32%Z
  end.

(** [batchSize] undefined, or an integer from 1 on. *)
Definition validBatchSize (batchSize : option Z) : Prop :=
  (1 <= batchSizeOf batchSize)%Z.

(** Iterations of the batch loop over [n] texts. *)
Definition iterations (n : nat) (batchSize : Z) : nat :=
  Z.to_nat ((Z.of_nat n + batchSize - 1) / batchSize).

(** A fuelled run that ends for no amount of fuel. *)
Definition neverReturns {A} (run : nat -> Completion A * World) : Prop :=
  forall fuel, fst (run fuel) = OutOfFuel.

(** A finite number as a multiple of 2^-1074, the spacing of the smallest
    binary64 numbers; [None] for an infinity or NaN. *)
Definition inUlps (x : number) : option Z :=
  match Prim2SF x with
  | S754_zero _ => Some 0%Z
  | S754_finite s m e => Some (cond_Zopp s (Zpos m) * 2 ^ (e + 1074))%Z
  | _ => None
  end.

(** The exact sum of the squares of the components, in units of 2^-2148. *)
Fixpoint squaredNormInUlps (vector : list number) : option Z :=
  match vector with
  | [] => Some 0%Z
  | x :: rest =>
      match inUlps x, squaredNormInUlps rest with
      | Some k, Some s => Some (k * k + s)%Z
      | _, _ => None
      end
  end.

(** Whether the Euclidean norm of the vector is exactly 1. *)
Definition hasUnitNorm (vector : list number) : bool :=
  match squaredNormInUlps vector with
  | Some s => (s =? 2 ^ 2148)%Z
  | None => false
  end.

(** Every stored BLOB is as long as its [dimensions] column says. *)
Definition readable (rows : list Row) : Prop :=
  Forall (fun r => dimensions r <= length (embedding r)) rows.

(** [Array.from(new Float32Array(buffer, byteOffset, row.dimensions))]. *)
Definition cachedVector (row : Row) : list number :=
  firstn (dimensions row) (embedding row).

Section WithDigest.
Variable hashContent : jsstring -> string.

(** What a cache check of [text] finds in [rows]. *)
Definition probe (options : CachedGeneratorOptions) (rows : list Row)
           (text : jsstring) : option (list number) :=
  if usesCache options
  then option_map cachedVector (find (keyed (hashContent text) MODEL_NAME) rows)
  else None.

Definition isHit (options : CachedGeneratorOptions) (rows : list Row)
           (text : jsstring) : bool :=
  match probe options rows text with
  | Some _ => true
  | None => false
  end.

Definition hitsOf options rows (texts : list jsstring) : list jsstring :=
  filter (isHit options rows) texts.

Definition missesOf options rows (texts : list jsstring) : list jsstring :=
  filter (fun text => negb (isHit options rows text)) texts.

(** The vector [generateEmbeddingsCached] owes for [text]. *)
Definition expected (pipeline : EmbeddingPipeline)
           (options : CachedGeneratorOptions) (rows : list Row)
           (text : jsstring) : list number :=
  match probe options rows text with
  | Some vector => vector
  | None => embedItem pipeline (normalize options) text
  end.

(** The slots the first loop fills, the texts starting at index [i]. *)
Fixpoint hitSlots options rows (texts : list jsstring) (i : nat)
         (results : array (list number)) : array (list number) :=
  match texts with
  | [] => results
  | text :: rest =>
      match probe options rows text with
      | Some vector => hitSlots options rows rest (S i)
                                (array_set results i (Some vector))
      | None => hitSlots options rows rest (S i) results
      end
  end.

(** The [{ index, text }] pairs the first loop collects. *)
Fixpoint missList options rows (texts : list jsstring) (i : nat)
  : list (nat * jsstring) :=
  match texts with
  | [] => []
  | text :: rest =>
      match probe options rows text with
      | Some _ => missList options rows rest (S i)
      | None => (i, text) :: missList options rows rest (S i)
      end
  end.

(** The row [cacheEmbedding] writes. *)
Definition rowFor (now : nat) (text : jsstring) (embedding : list number) : Row :=
  mkRow (hashContent text) (map fround embedding) MODEL_NAME MODEL_DIMENSIONS now.

(** The table after the second loop has cached [f text] for each pair. *)
Definition storedRows (f : jsstring -> list number) (now : nat)
           (pairs : list (nat * jsstring)) (rows : list Row) : list Row :=
  fold_left (fun rows pair => insertOrReplace (rowFor now (snd pair) (f (snd pair))) rows)
            pairs rows.

(** The slots the second loop fills. *)
Definition scatter (f : jsstring -> list number) (pairs : list (nat * jsstring))
           (results : array (list number)) : array (list number) :=
  fold_left (fun results pair => array_set results (fst pair) (Some (f (snd pair))))
            pairs results.

(** The world [generateEmbeddingsCached] leaves when all goes well. *)
Definition afterBatch (attempt : LoadAttempt) (pipeline : EmbeddingPipeline)
           (options : CachedGeneratorOptions) (texts : list jsstring)
           (w : World) : World :=
  let pairs := missList options (table w) texts 0 in
  let w1 := if usesCache options
            then counted (length (hitsOf options (table w) texts))
                         (length (missesOf options (table w) texts)) w
            else w in
  match pairs with
  | [] => w1
  | _ =>
      let w2 := acquired attempt (onModelLoad options) w1 in
      let w3 := advance (length (inferred (map snd pairs)))
                        (deliver (onProgress options)
                                 (progressRun (Z.of_nat (length texts))
                                              (length texts - length pairs)
                                              (length pairs)))
                        w2 in
      if usesCache options
      then set_table (storedRows (embedItem pipeline (normalize options))
                                 (clock w3) pairs) w3
      else w3
  end.
End WithDigest.

End Expected.
Import Expected.

(* ================================================================= *)
(** ** Concrete data for the worked examples *)

Module Examples.

(** The module state at first import, over an empty table. *)
Definition freshWorld : World :=
  mkWorld initialLoader false [] 0 0 0 0 0 [] [].

(** A stand-in for the digest in the examples: the text itself (characters
    below 256). The statements hold for every digest function. *)
Definition plainDigest (content : jsstring) : string :=
  string_of_list_ascii (map ascii_of_N content).

(** The pipeline of the test-suite's mock:
    [data[i] = (text.charCodeAt(i % Math.max(text.length, 1)) || i) / 1000]
    in a [Float32Array(384)]. *)
Definition mockPipeline : EmbeddingPipeline :=
  fun text =>
    map (fun i =>
           let code := nth (i mod Nat.max (length text) 1) text 0%N in
           let value := if (code =? 0)%N then Z.of_nat i else Z.of_N code in
           fround (ofZ value / ofZ 1000)%float)
        (seq 0 384).

Definition loadsFine : LoadAttempt := mkAttempt [] (inl mockPipeline).

Definition loadFails : LoadAttempt :=
  mkAttempt [] (inr (ThrownError (mkError "model unavailable"))).

Definition defaults : CachedGeneratorOptions :=
  mkCachedOptions None None None None None.

Definition recording : CachedGeneratorOptions :=
  mkCachedOptions None None None None (Some record).

(** A row left by an earlier model version. *)
Definition oldRow : Row :=
  mkRow (plainDigest (lit "A")) [one] "old-model-v1" 1 0.

(** A table that holds only that row. *)
Definition staleWorld : World :=
  mkWorld initialLoader false [oldRow] 7 0 0 0 0 [] [].

(** The world after [generateEmbeddingCached] of two texts: the model is
    loaded and both embeddings are cached. *)
Definition cachedRow (text : jsstring) : Row :=
  rowFor plainDigest 0 text (embedItem mockPipeline None text).

Definition warmWorld : World :=
  mkWorld (mkLoader (Some mockPipeline) false None) true
          [cachedRow (lit "pre-cached A"); cachedRow (lit "pre-cached B")]
          0 0 2 1 2 [] [].

Definition mixedTexts : list jsstring :=
  [lit "pre-cached A"; lit "new 1"; lit "pre-cached B"; lit "new 2"].

End Examples.
Import Examples.

(* ================================================================= *)
(** ** Vocabulary of the further properties *)

Module Observed.

(** Whether a call of [getEmbeddingPipeline] gets past its three early exits
    and starts a load. *)
Definition startsLoad (w : World) : bool :=
  match embeddingPipeline (loader w), loadError (loader w) with
  | None, None => negb (isLoading (loader w))
  | _, _ => false
  end.

(** The part of the world that cache.ts owns. *)
Definition cacheState (w : World) : list Row * nat * nat :=
  (table w, cacheHits w, cacheMisses w).



End Observed.
Import Observed.

(* ================================================================= *)
(** ** model-loader.ts, the observer being any function *)

(** [onProgress] is the caller's function: it may throw. The three calls of
    it in the [try] block then end in the [catch], the one in the [catch]
    block ends the call. [ModelLoader.getEmbeddingPipeline] is this for
    observers that do not throw. *)
Module Observers.

(** What one call of an observer does: the events it records, and the value
    it throws, if it throws. *)
Record Reaction (E : Type) := mkReaction {
  received : list E;
  thrown : option Thrown
}.
Arguments mkReaction {E} received thrown.
Arguments received {E} r.
Arguments thrown {E} r.

Definition ProgressCallback := ModelLoadProgress -> Reaction ModelLoadProgress.

(** How the promise of [getEmbeddingPipeline] settles. *)
Inductive Settlement (A : Type) :=
| Resolved (a : A)
| Rejected (reason : Thrown)
| Waiting                  (* the polling promise, which nothing settles here *)
| Unfinished.              (* a loop that was given too little fuel *)
Arguments Resolved {A} a.
Arguments Rejected {A} reason.
Arguments Waiting {A}.
Arguments Unfinished {A}.

(** [onProgress?.(ev)]: the world after the call, and what it threw. *)
Definition notify (onProgress : option ProgressCallback)
           (ev : ModelLoadProgress) (w : World) : option Thrown * World :=
  match onProgress with
  | Some callback =>
      (thrown (callback ev), observe_load (received (callback ev)) w)
  | None => (None, w)
  end.

(** The [progress_callback] handed to the factory, called with one
    notification: it forwards the [download] ones. *)
Fixpoint notifyEach (onProgress : option ProgressCallback)
         (evs : list ModelLoadProgress) (w : World) : option Thrown * World :=
  match evs with
  | [] => (None, w)
  | ev :: rest =>
      match notify onProgress ev w with
      | (Some t, w) => (Some t, w)
      | (None, w) => notifyEach onProgress rest w
      end
  end.

(** The factory calling its [progress_callback] for each notification; an
    exception of the callback is not caught by the factory and ends it. *)
Fixpoint forward (onProgress : option ProgressCallback)
         (ps : list FactoryProgress) (w : World) : option Thrown * World :=
  match ps with
  | [] => (None, w)
  | p :: rest =>
      match notifyEach onProgress (downloadProgress p) w with
      | (Some t, w) => (Some t, w)
      | (None, w) => forward onProgress rest w
      end
  end.

(** The [try] block: the instance it returns, or what its [catch] receives. *)
Definition attemptLoad (attempt : LoadAttempt)
           (onProgress : option ProgressCallback) (w : World)
  : (EmbeddingPipeline + Thrown) * World :=
  match notify onProgress (statusOnly loading) w with
  | (Some t, w) => (inr t, w)
  | (None, w) =>
      let w := count_factoryCall w in
      match forward onProgress (notifications attempt) w with
      | (Some t, w) => (inr t, w)
      | (None, w) =>
          match outcome attempt with
          | inr t => (inr t, w)
          | inl instance =>
              let w := set_embeddingPipeline (Some instance) w in
              match notify onProgress (statusOnly ready) w with
              | (Some t, w) => (inr t, w)
              | (None, w) => (inl instance, set_isLoading false w)
              end
          end
      end
  end.

Definition getEmbeddingPipeline (attempt : LoadAttempt)
           (onProgress : option ProgressCallback) (w : World)
  : Settlement EmbeddingPipeline * World :=
  match embeddingPipeline (loader w) with
  | Some instance => (Resolved instance, w)
  | None =>
      match loadError (loader w) with
      | Some e => (Rejected (ThrownError e), w)
      | None =>
          if isLoading (loader w) then (Waiting, w)
          else
            let w := set_isLoading true w in
            let w := ensureModelCacheDir w in
            match attemptLoad attempt onProgress w with
            | (inl instance, w) => (Resolved instance, w)
            | (inr t, w) =>                             (* catch (error) *)
                let w := set_loadError (Some (toError t)) w in
                let w := set_isLoading false w in
                match notify onProgress (statusOnly error) w with
                | (Some t', w) => (Rejected t', w)
                | (None, w) => (Rejected (ThrownError (toError t)), w)
                end
            end
      end
  end.

(** A run of [getEmbeddingPipeline] calls, one after the other. *)
Fixpoint acquireAll (calls : list (LoadAttempt * option ProgressCallback))
         (w : World) : list (Settlement EmbeddingPipeline) * World :=
  match calls with
  | [] => ([], w)
  | (attempt, onProgress) :: rest =>
      let (r, w1) := getEmbeddingPipeline attempt onProgress w in
      let (rs, w2) := acquireAll rest w1 in
      (r :: rs, w2)
  end.

(** An observer that never throws. *)
Definition quiet (callback : ProgressCallback) : Prop :=
  forall ev, thrown (callback ev) = None.

(** The observer as [ModelLoader] has it: what it hands on. *)
Definition heard (callback : ProgressCallback) : Runtime.ProgressCallback :=
  fun ev => received (callback ev).

(** A completion of [ModelLoader.getEmbeddingPipeline] as a settlement. *)
Definition settled {A} (r : Completion A * World) : Settlement A * World :=
  match r with
  | (Returns a, w) => (Resolved a, w)
  | (Throws e, w) => (Rejected (ThrownError e), w)
  | (Pending, w) => (Waiting, w)
  | (OutOfFuel, w) => (Unfinished, w)
  end.

(** An optional observer that does not throw when told status [s]. *)
Definition silentOn (s : LoadStatus) (onProgress : option ProgressCallback) : Prop :=
  forall callback, onProgress = Some callback ->
                   thrown (callback (statusOnly s)) = None.

(** The answer of a call that finds a load started or finished. *)
Definition earlyExit (w : World) : Settlement EmbeddingPipeline :=
  match embeddingPipeline (loader w), loadError (loader w) with
  | Some instance, _ => Resolved instance
  | None, Some e => Rejected (ThrownError e)
  | None, None => Waiting
  end.

(** The event a [download] notification of the factory is forwarded as:
    [progress] is [loaded / total], an absent, zero or NaN [loaded] counting
    as 0, and is left out when [total] is absent, zero or NaN. *)
Definition downloadingEvent (p : FactoryProgress) : ModelLoadProgress :=
  LoadProgress.make downloading
    (match fp_total p with
     | Some t =>
         if isZero t || is_nan t then None
         else Some (match fp_loaded p with
                    | Some l => if isZero l || is_nan l then zero else l
                    | None => zero
                    end / t)%float
     | None => None
     end)
    (fp_file p) (fp_loaded p) (fp_total p).

(** What one load hands to [onProgress], in order: [loading], one event for
    each [download] notification of the factory, then [ready] or [error]. *)
Definition loadEvents (attempt : LoadAttempt) : list ModelLoadProgress :=
  LoadProgress.make loading None None None None
  :: map downloadingEvent
         (filter (fun p => String.eqb (fp_status p) "download") (notifications attempt))
  ++ [LoadProgress.make (match outcome attempt with
                         | inl _ => ready
                         | inr _ => error
                         end) None None None None].

(** An observer that records what it is handed and never throws. *)
Definition recorder : ProgressCallback := fun ev => mkReaction [ev] None.

(** An observer that records what it is handed and throws on one status. *)
Definition throwsOn (s : LoadStatus) (t : Thrown) : ProgressCallback :=
  fun ev =>
    mkReaction [ev]
      (match LoadProgress.status ev, s with
       | downloading, downloading | loading, loading | ready, ready | error, error =>
           Some t
       | _, _ => None
       end).

(** A factory that reports three downloads and a step of its own before it
    resolves. *)
Definition downloads : LoadAttempt :=
  mkAttempt
    [ mkFactoryProgress "initiate"%string (Some "model.onnx"%string) None None;
      mkFactoryProgress "download"%string (Some "model.onnx"%string) (Some (ofZ 50)) (Some (ofZ 200));
      mkFactoryProgress "download"%string (Some "model.onnx"%string) None (Some (ofZ 200));
      mkFactoryProgress "download"%string (Some "vocab.txt"%string) (Some (ofZ 7)) (Some zero);
      mkFactoryProgress "done"%string (Some "model.onnx"%string) None None ]
    (inl Examples.mockPipeline).

End Observers.

(* ================================================================= *)
(** ** generator.ts and cached-generator.ts, [batchSize] being any number *)

(** [batchSize] is not validated: it is whatever number the caller passes,
    and the loop index, the [slice] bounds and [current] are computed from it
    in binary64. The definitions of [Generator] are these at integer sizes. *)
Module Numbers.

(** generator.ts: [interface BatchProgress], its fields the numbers they are. *)
Record BatchProgress := mkBatchProgress {
  current : number;
  total : number;
  percentage : number
}.

(** [type BatchProgressCallback]: the caller's function; it may throw. *)
Definition BatchProgressCallback := BatchProgress -> Observers.Reaction BatchProgress.

Record BatchOptions := mkBatchOptions {
  bo_batchSize : option number;
  bo_normalize : option bool;
  bo_onProgress : option BatchProgressCallback;
  bo_onModelLoad : option Observers.ProgressCallback
}.

(** [ToIntegerOrInfinity] of an argument of [slice], then the clamping of the
    relative index into [0, len]. *)
Definition relativeIndex (len : Z) (x : number) : Z :=
  match Prim2SF x with
  | S754_nan => sliceIndex len 0
  | S754_zero _ => sliceIndex len 0
  | S754_infinity negative => if negative then 0%Z else len
  | S754_finite negative m e =>
      sliceIndex len (cond_Zopp negative (Z.shiftl (Zpos m) e))
  end.

(** [Array.prototype.slice(start, end)]. *)
Definition slice {A} (l : list A) (s e : number) : list A :=
  let len := Z.of_nat (length l) in
  let from := relativeIndex len s in
  let to := relativeIndex len e in
  firstn (Z.to_nat (to - from)) (skipn (Z.to_nat from) l).

(** A run: the world, and beside it what the [onProgress] observers have
    received so far. *)
Definition Stage : Type := World * list BatchProgress.
Definition Run (A : Type) : Type := Stage -> Observers.Settlement A * Stage.

Definition ret {A} (a : A) : Run A := fun s => (Observers.Resolved a, s).

Definition bind {A B} (m : Run A) (k : A -> Run B) : Run B :=
  fun s =>
    match m s with
    | (Observers.Resolved a, s') => k a s'
    | (Observers.Rejected t, s') => (Observers.Rejected t, s')
    | (Observers.Waiting, s') => (Observers.Waiting, s')
    | (Observers.Unfinished, s') => (Observers.Unfinished, s')
    end.

(** A step that only concerns the world. *)
Definition lift {A} (m : World -> Observers.Settlement A * World) : Run A :=
  fun s => let (r, w) := m (fst s) in (r, (w, snd s)).

(** A step of [Generator], [Cache] or [CachedGenerator]. *)
Definition step {A} (m : M A) : Run A :=
  lift (fun w => Observers.settled (m w)).

(** [options?.onProgress?.(ev)]: an exception of the callback is the
    caller's. *)
Definition report (onProgress : option BatchProgressCallback)
           (ev : BatchProgress) : Run unit :=
  fun s =>
    match onProgress with
    | Some callback =>
        (match Observers.thrown (callback ev) with
         | Some t => Observers.Rejected t
         | None => Observers.Resolved tt
         end,
         (fst s, snd s ++ Observers.received (callback ev)))
    | None => (Observers.Resolved tt, s)
    end.

(** [Math.round((current / total) * 100)]. *)
Definition percentageOf (current total : number) : number :=
  Math_round ((current / total) * ofZ 100)%float.

Section BatchLoop.
Variable pipeline : EmbeddingPipeline.
Variable options : BatchOptions.
Variable texts : list jsstring.
Variable total : number.               (* const total = texts.length *)

(** The inner loop, from [j] on. *)
Fixpoint processBatch (i : number) (batch : list jsstring) (j : nat)
         (results : list (list number)) : Run (list (list number)) :=
  match batch with
  | [] => ret results
  | text :: rest =>
      let globalIndex := (i + ofNat j)%float in
      bind (if isBlank text then ret (results ++ [zeros MODEL_DIMENSIONS])
            else
              bind (step (infer pipeline text)) (fun embedding =>
              ret (results ++ [if wantsNormalize (bo_normalize options)
                               then normalizeVector embedding
                               else embedding])))
           (fun results =>
      bind (report (bo_onProgress options)
                   (mkBatchProgress (globalIndex + ofZ 1)%float total
                                    (percentageOf (globalIndex + ofZ 1)%float total)))
           (fun _ => processBatch i rest (S j) results))
  end.

(** The outer loop [for (let i = 0; i < texts.length; i += batchSize)], from
    [i] on; one unit of fuel per iteration. *)
Fixpoint batchLoop (fuel : nat) (batchSize : number) (i : number)
         (results : list (list number)) : Run (list (list number)) :=
  if (i <? ofNat (length texts))%float then
    match fuel with
    | O => fun s => (Observers.Unfinished, s)
    | S fuel' =>
        let batch := slice texts i (i + batchSize)%float in
        bind (processBatch i batch 0 results) (fun results =>
        batchLoop fuel' batchSize (i + batchSize)%float results)
    end
  else ret results.
End BatchLoop.

(** [options?.batchSize ?? 32]. *)
Definition batchSizeOf (batchSize : option number) : number :=
  match batchSize with
  | Some b => b
  | None => ofZ 32
  end.

Definition generateEmbeddings (fuel : nat) (attempt : LoadAttempt)
           (texts : list jsstring) (options : BatchOptions)
  : Run (list (list number)) :=
  match texts with
  | [] => ret []
  | _ =>
      let batchSize := batchSizeOf (bo_batchSize options) in
      let total := ofNat (length texts) in
      bind (lift (Observers.getEmbeddingPipeline attempt (bo_onModelLoad options)))
           (fun pipeline =>
      batchLoop pipeline options texts total fuel batchSize zero [])
  end.

(** generator.ts: [generateEmbedding(text, options)]. *)
Record EmbedOptions := mkEmbedOptions {
  eo_normalize : option bool;
  eo_onModelLoad : option Observers.ProgressCallback
}.

Definition generateEmbedding (attempt : LoadAttempt) (text : jsstring)
           (options : EmbedOptions) : Run (list number) :=
  if isBlank text then ret (zeros MODEL_DIMENSIONS)
  else
    bind (lift (Observers.getEmbeddingPipeline attempt (eo_onModelLoad options)))
         (fun pipeline =>
    bind (step (infer pipeline text)) (fun embedding =>
    if wantsNormalize (eo_normalize options)
    then ret (normalizeVector embedding)
    else ret embedding)).

(** cached-generator.ts: [CachedGeneratorOptions] with the batch options. *)
Record CachedGeneratorOptions := mkCachedOptions {
  useCache : option bool;
  normalize : option bool;
  onModelLoad : option Observers.ProgressCallback;
  batchSize : option number;
  onProgress : option BatchProgressCallback
}.

(** The options as the two cache loops read them. *)
Definition cacheOptions (options : CachedGeneratorOptions)
  : CachedGenerator.CachedGeneratorOptions :=
  CachedGenerator.mkCachedOptions (useCache options) (normalize options)
                                  (option_map Observers.heard (onModelLoad options))
                                  None None.

(** The wrapper handed to [generateEmbeddings] as its [onProgress]. *)
Definition adjustProgress (onProgress : BatchProgressCallback)
           (textsLength toGenerateLength : nat) : BatchProgressCallback :=
  fun progress =>
    let adjustedTotal := ofNat textsLength in
    let cachedCount := ofZ (Z.of_nat textsLength - Z.of_nat toGenerateLength) in
    let adjustedCurrent := (cachedCount + current progress)%float in
    onProgress (mkBatchProgress adjustedCurrent adjustedTotal
                                (percentageOf adjustedCurrent adjustedTotal)).

Section WithDigest.
Variable hashContent : jsstring -> string.

Definition generateEmbeddingsCached (fuel : nat) (attempt : LoadAttempt)
           (texts : list jsstring) (options : CachedGeneratorOptions)
  : Run (array (list number)) :=
  match texts with
  | [] => ret []
  | _ =>
      bind (step (checkCache hashContent (cacheOptions options) texts 0 [] []))
           (fun checked =>
      let '(results, textsToGenerate) := checked in
      match textsToGenerate with
      | [] => ret results
      | _ =>
          let uncachedTexts := map snd textsToGenerate in
          bind (generateEmbeddings fuel attempt uncachedTexts
                  (mkBatchOptions (batchSize options) (normalize options)
                     (option_map
                        (fun callback =>
                           adjustProgress callback (length texts)
                                          (length textsToGenerate))
                        (onProgress options))
                     (onModelLoad options)))
               (fun generated =>
          step (storeResults hashContent (cacheOptions options) textsToGenerate
                             generated 0 results))
      end)
  end.
End WithDigest.

(** The callback of the test-suite: it records its argument. *)
Definition record : BatchProgressCallback :=
  fun progress => Observers.mkReaction [progress] None.

(** A callback that records its argument and throws from the event with
    [current] = [k] on. *)
Definition throwsFrom (k : number) (t : Thrown) : BatchProgressCallback :=
  fun progress =>
    Observers.mkReaction [progress]
                         (if (current progress <? k)%float then None else Some t).

(** What the observer records when a callback is handed these events and
    throws at none of them. *)
Definition deliver (callback : option BatchProgressCallback)
           (events : list BatchProgress) : list BatchProgress :=
  match callback with
  | Some f => flat_map (fun ev => Observers.received (f ev)) events
  | None => []
  end.

(** An [onProgress] that does not throw. *)
Definition quietProgress (onProgress : option BatchProgressCallback) : Prop :=
  forall callback ev,
    onProgress = Some callback -> Observers.thrown (callback ev) = None.

(** An [onModelLoad] that does not throw. *)
Definition quietLoad (onModelLoad : option Observers.ProgressCallback) : Prop :=
  forall callback, onModelLoad = Some callback -> Observers.quiet callback.

(** The event of the item that completes as number [k] of [n]. *)
Definition progressAt (n k : nat) : BatchProgress :=
  mkBatchProgress (ofNat k) (ofNat n)
                  (Math_round ((ofNat k / ofNat n) * ofZ 100)%float).

(** The events of [count] items completing after [done] earlier ones. *)
Definition progressRun (n done count : nat) : list BatchProgress :=
  map (progressAt n) (seq (S done) count).

(** [batchSize] undefined, or an integer from 1 to 2^52. *)
Definition wholeBatchSize (batchSize : option number) : Prop :=
  exists z : Z, batchSizeOf batchSize = ofZ z /\ (1 <= z <= 2 ^ 52)%Z.

(** The length of a JavaScript array: below 2^32. *)
Definition arrayLength (n : nat) : Prop := (Z.of_nat n < 2 ^ 32)%Z.

(** The loop of [generateEmbeddings] with no batches: the texts one by
    one, [done] being the number of those before. *)
Section ItemByItem.
Variable pipeline : EmbeddingPipeline.
Variable normalize : option bool.
Variable onProgress : option BatchProgressCallback.
Variable n : nat.

Fixpoint itemByItem (done : nat) (texts : list jsstring)
         (results : list (list number)) : Run (list (list number)) :=
  match texts with
  | [] => ret results
  | text :: rest =>
      bind (if isBlank text then ret (results ++ [zeros MODEL_DIMENSIONS])
            else
              bind (step (infer pipeline text)) (fun embedding =>
              ret (results ++ [if wantsNormalize normalize
                               then normalizeVector embedding
                               else embedding])))
           (fun results =>
      bind (report onProgress (progressAt n (S done)))
           (fun _ => itemByItem (S done) rest results))
  end.
End ItemByItem.

(** A fuelled run that ends for no amount of fuel. *)
Definition neverReturns {A} (run : nat -> Observers.Settlement A * Stage) : Prop :=
  forall fuel, fst (run fuel) = Observers.Unfinished.

(** Eight texts of which two are cached in [Examples.warmWorld]. *)
Definition eightTexts : list jsstring :=
  [lit "pre-cached A"; lit "new 1"; lit "new 2"; lit "new 3";
   lit "pre-cached B"; lit "new 4"; lit "new 5"; lit "new 6"].

End Numbers.

(* ================================================================= *)
(** ** What the properties say of binary64 numbers *)

Module Binary64.
Local Open Scope Z_scope.

(** A non-negative integer below 2^53 as the binary64 number it is: the
    mantissa filled up to 53 digits. *)
Definition canon (z : Z) : spec_float :=
  match z with
  | Zpos p => S754_finite false (Z.to_pos (z * 2 ^ (53 - Zpos (Pos.size p))))
                          (Zpos (Pos.size p) - 53)
  | _ => S754_zero false
  end.

(** A number in the range of the finite binary32 numbers: zero, or of a
    magnitude from 2^-149 up to, but not reaching, 2^128. *)
Definition float32Range (x : number) : bool :=
  match Prim2SF x with
  | S754_zero _ => true
  | S754_finite _ m e =>
      ((-148 <=? Zpos (digits2_pos m) + e) && (Zpos (digits2_pos m) + e <=? 128))%Z
  | _ => false
  end.

(** Whether the Euclidean norm of the vector is 1 give or take 1/[k]: the
    exact sum of the squares, in units of 2^-2148, lies between the squares of
    1 - 1/[k] and 1 + 1/[k]. *)
Definition hasUnitNormWithin (k : Z) (vector : list number) : bool :=
  match squaredNormInUlps vector with
  | Some s => (((k - 1) * (k - 1) * 2 ^ 2148 <=? k * k * s)
               && (k * k * s <=? (k + 1) * (k + 1) * 2 ^ 2148))%Z
  | None => false
  end.

End Binary64.
Import Binary64.

(* ================================================================= *)
(** ** The real numbers that binary64 numbers stand for *)

Module Exact.
Import Stdlib.Reals.Reals.
Local Open Scope R_scope.

(** 2^e. *)
Definition bpow (e : Z) : R := powerRZ 2 e.

Definition valueSF (x : spec_float) : R :=
  match x with
  | S754_finite s m e => IZR (cond_Zopp s (Zpos m)) * bpow e
  | _ => 0
  end.

(** The value of a finite number; 0 for the others. *)
Definition value (x : number) : R := valueSF (Prim2SF x).

(** The squared Euclidean norm of a vector of finite numbers. *)
Definition squaredNorm (vector : list number) : R :=
  fold_right (fun x acc => value x * value x + acc) 0 vector.

(** The relative error of one rounding, with room to spare. *)
Definition u : R := bpow (-52).

(** The running sum of [magnitudeOf]: after [j] components whose squares add
    up to [S], it is zero if [S] is, and [S] up to [j + 1] roundings if not. *)
Definition sumInvariant (acc : number) (S : R) (j : nat) : Prop :=
  (S = 0 /\ Prim2SF acc = S754_zero false) \/
  (bpow (-298) <= S <= INR j * bpow 256 /\
   (exists m e, Prim2SF acc = S754_finite false m e) /\
   S * (1 - u) ^ (Datatypes.S j) <= value acc <= S * (1 + u) ^ (Datatypes.S j)).

End Exact.

(* ================================================================= *)
(** * Properties *)

(** ** model-loader.ts: the loader's state machine *)

Lemma notify_loader cb ev w : loader (notify cb ev w) = loader w.
Proof. destruct cb; reflexivity. Qed.

Lemma notify_factoryCalls cb ev w : factoryCalls (notify cb ev w) = factoryCalls w.
Proof. destruct cb; reflexivity. Qed.

Lemma notifyAll_loader cb evs w :
  loader (fold_left (fun w ev => notify cb ev w) evs w) = loader w.
Proof.
  revert w; induction evs as [|ev evs IH]; intros w; simpl; [reflexivity|].
  now rewrite IH, notify_loader.
Qed.

Lemma notifyAll_factoryCalls cb evs w :
  factoryCalls (fold_left (fun w ev => notify cb ev w) evs w) = factoryCalls w.
Proof.
  revert w; induction evs as [|ev evs IH]; intros w; simpl; [reflexivity|].
  now rewrite IH, notify_factoryCalls.
Qed.

Lemma forward_loader cb ps w :
  loader (fold_left (fun w p => fold_left (fun w ev => notify cb ev w) (downloadProgress p) w) ps w)
  = loader w.
Proof.
  revert w; induction ps as [|p ps IH]; intros w; simpl; [reflexivity|].
  now rewrite IH, notifyAll_loader.
Qed.

Lemma forward_factoryCalls cb ps w :
  factoryCalls (fold_left (fun w p => fold_left (fun w ev => notify cb ev w) (downloadProgress p) w) ps w)
  = factoryCalls w.
Proof.
  revert w; induction ps as [|p ps IH]; intros w; simpl; [reflexivity|].
  now rewrite IH, notifyAll_factoryCalls.
Qed.

Lemma ensureModelCacheDir_loader w : loader (ensureModelCacheDir w) = loader w.
Proof. unfold ensureModelCacheDir; destruct (cacheDirExists w); reflexivity. Qed.

Lemma ensureModelCacheDir_factoryCalls w :
  factoryCalls (ensureModelCacheDir w) = factoryCalls w.
Proof. unfold ensureModelCacheDir; destruct (cacheDirExists w); reflexivity. Qed.

(** What a call that starts a load does to the loader and to the call count. *)
Lemma fresh_load attempt cb w :
  embeddingPipeline (loader w) = None ->
  loadError (loader w) = None ->
  isLoading (loader w) = false ->
  let (r, w') := getEmbeddingPipeline attempt cb w in
  factoryCalls w' = S (factoryCalls w) /\
  match outcome attempt with
  | inl instance => r = Returns instance /\ loader w' = mkLoader (Some instance) false None
  | inr thrown => r = Throws (toError thrown)
                  /\ loader w' = mkLoader None false (Some (toError thrown))
  end.
Proof.
  intros Hp He Hl. unfold getEmbeddingPipeline. rewrite Hp, He, Hl.
  destruct (outcome attempt) as [instance|thrown]; cbn zeta.
  - split.
    + unfold set_isLoading at 1. cbn [factoryCalls set_loader].
      rewrite notify_factoryCalls. unfold set_embeddingPipeline. cbn [factoryCalls set_loader].
      rewrite forward_factoryCalls. cbn [factoryCalls count_factoryCall].
      now rewrite notify_factoryCalls, ensureModelCacheDir_factoryCalls.
    + split; [reflexivity|].
      unfold set_isLoading at 1. cbn [loader set_loader].
      rewrite notify_loader. unfold set_embeddingPipeline. cbn [loader set_loader].
      rewrite forward_loader. cbn [loader count_factoryCall].
      rewrite notify_loader, ensureModelCacheDir_loader.
      unfold set_isLoading. cbn [loader set_loader embeddingPipeline isLoading loadError].
      now rewrite He.
  - split.
    + rewrite notify_factoryCalls. unfold set_isLoading at 1, set_loadError.
      cbn [factoryCalls set_loader].
      rewrite forward_factoryCalls. cbn [factoryCalls count_factoryCall].
      now rewrite notify_factoryCalls, ensureModelCacheDir_factoryCalls.
    + split; [reflexivity|].
      rewrite notify_loader. unfold set_isLoading at 1, set_loadError.
      cbn [loader set_loader embeddingPipeline isLoading loadError].
      rewrite forward_loader. cbn [loader count_factoryCall].
      rewrite notify_loader, ensureModelCacheDir_loader.
      unfold set_isLoading. cbn [loader set_loader embeddingPipeline isLoading loadError].
      now rewrite Hp.
Qed.

(** A call that does not start a load leaves the world as it is. *)
Lemma no_load attempt cb w :
  embeddingPipeline (loader w) <> None \/ loadError (loader w) <> None
  \/ isLoading (loader w) = true ->
  snd (getEmbeddingPipeline attempt cb w) = w.
Proof.
  unfold getEmbeddingPipeline.
  destruct (embeddingPipeline (loader w)); [reflexivity|].
  destruct (loadError (loader w)); [reflexivity|].
  destruct (isLoading (loader w)); [reflexivity|].
  intros [H|[H|H]]; congruence.
Qed.

Lemma sticky_call e attempt cb w :
  failedWith e w -> getEmbeddingPipeline attempt cb w = (Throws e, w).
Proof.
  intros [Hp He]. unfold getEmbeddingPipeline. now rewrite Hp, He.
Qed.

Lemma sticky_calls e calls w :
  failedWith e w ->
  acquireAll calls w = (map (fun _ => Throws e) calls, w).
Proof.
  intros Hf. induction calls as [|[attempt cb] calls IH]; simpl; [reflexivity|].
  now rewrite (sticky_call e attempt cb w Hf), IH.
Qed.

(** A failed attempt leaves the loader in a sticky state. *)
Lemma failed_attempt attempt cb w e w1 :
  getEmbeddingPipeline attempt cb w = (Throws e, w1) ->
  factoryCalls w1 = S (factoryCalls w) ->
  failedWith e w1.
Proof.
  intros Hcall Hcount.
  destruct (embeddingPipeline (loader w)) eqn:Hp.
  { unfold getEmbeddingPipeline in Hcall. rewrite Hp in Hcall. discriminate. }
  destruct (loadError (loader w)) eqn:He.
  { pose proof (no_load attempt cb w) as Hn. rewrite Hcall in Hn. simpl in Hn.
    rewrite Hn in Hcount; [lia|]. right; left; congruence. }
  destruct (isLoading (loader w)) eqn:Hl.
  { pose proof (no_load attempt cb w) as Hn. rewrite Hcall in Hn. simpl in Hn.
    rewrite Hn in Hcount; [lia|]. right; right; exact Hl. }
  pose proof (fresh_load attempt cb w Hp He Hl) as Hf. rewrite Hcall in Hf.
  destruct Hf as [_ Hf]. destruct (outcome attempt) as [instance|thrown].
  - destruct Hf; discriminate.
  - destruct Hf as [Hr Hw]. injection Hr as ->. unfold failedWith. rewrite Hw. split; reflexivity.
Qed.

(** ** What a model load leaves alone *)

Lemma sameCacheSide_refl w : sameCacheSide w w.
Proof. repeat split. Qed.

Lemma sameCacheSide_trans w1 w2 w3 :
  sameCacheSide w1 w2 -> sameCacheSide w2 w3 -> sameCacheSide w1 w3.
Proof.
  unfold sameCacheSide. intros (a1 & a2 & a3 & a4 & a5 & a6) (b1 & b2 & b3 & b4 & b5 & b6).
  repeat split; congruence.
Qed.

Lemma notify_sameCacheSide cb ev w : sameCacheSide w (notify cb ev w).
Proof. destruct cb; repeat split. Qed.

Lemma forward_sameCacheSide cb ps w :
  sameCacheSide w
    (fold_left (fun w p => fold_left (fun w ev => notify cb ev w) (downloadProgress p) w) ps w).
Proof.
  revert w. induction ps as [|p ps IH]; intros w; simpl; [apply sameCacheSide_refl|].
  eapply sameCacheSide_trans; [|apply IH].
  generalize (downloadProgress p) as evs. intros evs. revert w.
  induction evs as [|ev evs IHe]; intros w; simpl; [apply sameCacheSide_refl|].
  eapply sameCacheSide_trans; [apply notify_sameCacheSide|apply IHe].
Qed.

Lemma ensureModelCacheDir_sameCacheSide w : sameCacheSide w (ensureModelCacheDir w).
Proof. unfold ensureModelCacheDir. destruct (cacheDirExists w); repeat split. Qed.

Lemma getEmbeddingPipeline_sameCacheSide attempt cb w :
  sameCacheSide w (acquired attempt cb w).
Proof.
  unfold acquired, getEmbeddingPipeline.
  destruct (embeddingPipeline (loader w)); [apply sameCacheSide_refl|].
  destruct (loadError (loader w)); [apply sameCacheSide_refl|].
  destruct (isLoading (loader w)); [apply sameCacheSide_refl|].
  set (w1 := ensureModelCacheDir (set_isLoading true w)).
  assert (H1 : sameCacheSide w w1).
  { eapply sameCacheSide_trans; [|apply ensureModelCacheDir_sameCacheSide]. repeat split. }
  set (w2 := fold_left _ _ _).
  assert (H2 : sameCacheSide w w2).
  { eapply sameCacheSide_trans; [exact H1|].
    eapply sameCacheSide_trans; [apply (notify_sameCacheSide cb (statusOnly loading))|].
    eapply sameCacheSide_trans; [|apply forward_sameCacheSide]. repeat split. }
  destruct (outcome attempt); cbn [snd].
  - eapply sameCacheSide_trans; [exact H2|].
    eapply sameCacheSide_trans; [|unfold set_isLoading; repeat split].
    eapply sameCacheSide_trans; [|apply notify_sameCacheSide]. repeat split.
  - eapply sameCacheSide_trans; [exact H2|].
    eapply sameCacheSide_trans; [|apply notify_sameCacheSide]. repeat split.
Qed.

(** With the model available the call hands out the pipeline. *)
Lemma getEmbeddingPipeline_available attempt cb w pipeline :
  available attempt w pipeline ->
  getEmbeddingPipeline attempt cb w = (Returns pipeline, acquired attempt cb w).
Proof.
  intros [Hloaded|[Hinit Hok]].
  - unfold acquired, getEmbeddingPipeline. now rewrite Hloaded.
  - pose proof (fresh_load attempt cb w) as H. rewrite Hinit in H.
    specialize (H eq_refl eq_refl eq_refl). unfold acquired.
    destruct (getEmbeddingPipeline attempt cb w) as [r w'].
    rewrite Hok in H. destruct H as (_ & -> & _). reflexivity.
Qed.


(** ** Arrays with holes *)

Lemma array_get_nil {A} j : array_get (@nil (option A)) j = None.
Proof. unfold array_get. now destruct j. Qed.

Lemma array_get_cons {A} (x : option A) arr j :
  array_get (x :: arr) (S j) = array_get arr j.
Proof. reflexivity. Qed.

Lemma array_get_set {A} (arr : array A) i v j :
  array_get (array_set arr i v) j = if i =? j then v else array_get arr j.
Proof.
  revert arr j. induction i as [|i IH]; intros [|x arr] [|j]; cbn [array_set Nat.eqb];
    try reflexivity.
  - now rewrite array_get_cons, !array_get_nil.
  - rewrite array_get_cons, IH, array_get_nil. reflexivity.
  - rewrite !array_get_cons. apply IH.
Qed.

Lemma array_set_length {A} (arr : array A) i v :
  length (array_set arr i v) = Nat.max (length arr) (S i).
Proof.
  revert arr. induction i as [|i IH]; intros [|x arr]; cbn [array_set length];
    try reflexivity.
  - lia.
  - rewrite IH. reflexivity.
  - rewrite IH. lia.
Qed.

Lemma array_get_beyond {A} (arr : array A) j : length arr <= j -> array_get arr j = None.
Proof.
  intros H. unfold array_get. apply nth_error_None in H. now rewrite H.
Qed.


(** An array whose slots [0 .. n-1] are all filled as [l] says, and that is no
    longer than [l], is [l] without a hole. *)
Lemma array_dense {A} (arr : array A) (l : list A) :
  length arr <= length l ->
  (forall j, j < length l -> array_get arr j = nth_error l j) ->
  arr = map Some l.
Proof.
  revert l. induction arr as [|x arr IH]; intros [|y l] Hlen Hget; simpl in *.
  - reflexivity.
  - specialize (Hget 0 (Nat.lt_0_succ _)). discriminate.
  - lia.
  - f_equal.
    + apply (Hget 0). lia.
    + apply IH; [lia|]. intros j Hj. apply (Hget (S j)). lia.
Qed.

(** ** generator.ts: the batch loop *)

Lemma advance_0 w : advance 0 [] w = w.
Proof. destruct w; unfold advance; simpl. now rewrite app_nil_r. Qed.

Lemma advance_advance a b da db w :
  advance b db (advance a da w) = advance (a + b) (da ++ db) w.
Proof.
  destruct w; unfold advance; simpl. f_equal; [lia|now rewrite app_assoc].
Qed.

Lemma deliver_app cb xs ys : deliver cb (xs ++ ys) = deliver cb xs ++ deliver cb ys.
Proof. destruct cb; simpl; [apply flat_map_app|reflexivity]. Qed.

Lemma report_advance cb ev w :
  report cb ev w = (Returns tt, advance 0 (deliver cb [ev]) w).
Proof.
  destruct cb as [f|]; simpl.
  - unfold modify, observe_progress, advance. destruct w; simpl. now rewrite app_nil_r.
  - unfold ret. now rewrite advance_0.
Qed.

Lemma infer_advance p text w :
  infer p text w = (Returns (p text), advance 1 [] w).
Proof. unfold infer, count_inferenceCall, advance. destruct w; simpl. now rewrite app_nil_r. Qed.

Section Batch.
Variable pipeline : EmbeddingPipeline.
Variable options : BatchOptions.
Variable texts : list jsstring.
Variable total : Z.

Lemma processBatch_spec batch : forall (done : nat) i j results w,
  (i + j = Z.of_nat done)%Z ->
  processBatch pipeline options total i batch j results w =
  (Returns (results ++ map (embedItem pipeline (bo_normalize options)) batch),
   advance (length (inferred batch))
           (deliver (bo_onProgress options) (progressRun total done (length batch))) w).
Proof.
  induction batch as [|text rest IH]; intros done i j results w Hij.
  - simpl. unfold ret, progressRun. simpl.
    destruct (bo_onProgress options); simpl; now rewrite advance_0, app_nil_r.
  - cbn [processBatch]. unfold bind at 1.
    assert (Hstep : forall r w1,
      bind (report (bo_onProgress options)
              (mkBatchProgress (i + j + 1) total (percentageOf (i + j + 1) total)))
           (fun _ => processBatch pipeline options total i rest (j + 1) r) w1 =
      (Returns (r ++ map (embedItem pipeline (bo_normalize options)) rest),
       advance (length (inferred rest))
         (deliver (bo_onProgress options) (progressRun total done (S (length rest)))) w1)).
    { intros r w1. unfold bind. rewrite report_advance.
      rewrite (IH (S done) i (j + 1)%Z r) by lia.
      rewrite advance_advance. f_equal. f_equal.
      unfold progressRun. cbn [seq map]. rewrite <- deliver_app. cbn [app].
      unfold progressAt. replace (i + j + 1)%Z with (Z.of_nat (S done)) by lia.
      reflexivity. }
    unfold inferred, embedItem. cbn [filter map length].
    destruct (isBlank text) eqn:Hb; cbn [negb].
    + unfold ret at 1. rewrite Hstep. rewrite <- app_assoc. reflexivity.
    + unfold bind at 1. rewrite infer_advance. unfold ret at 1.
      rewrite Hstep, advance_advance. rewrite <- app_assoc. cbn [length app].
      reflexivity.
Qed.
End Batch.

Lemma firstn_min_length {A} (l : list A) n : firstn (Nat.min n (length l)) l = firstn n l.
Proof.
  destruct (Nat.le_ge_cases n (length l)) as [H|H].
  - now rewrite Nat.min_l.
  - rewrite Nat.min_r by exact H. rewrite firstn_all. symmetry. now apply firstn_all2.
Qed.

Lemma slice_batch {A} (l : list A) (i b : Z) :
  (0 <= i)%Z -> (1 <= b)%Z ->
  slice l i (i + b) = firstn (Z.to_nat b) (skipn (Z.to_nat i) l).
Proof.
  intros Hi Hb. unfold slice, sliceIndex.
  destruct (Z.ltb_spec i 0) as [?|_]; [lia|].
  destruct (Z.ltb_spec (i + b) 0) as [?|_]; [lia|].
  destruct (Z.le_gt_cases i (Z.of_nat (length l))) as [Hle|Hgt].
  - rewrite (Z.min_l i) by exact Hle.
    rewrite <- (firstn_min_length (skipn (Z.to_nat i) l) (Z.to_nat b)).
    f_equal. rewrite length_skipn. lia.
  - rewrite (Z.min_r i) by lia.
    rewrite (skipn_all2 l (n := Z.to_nat i)) by lia.
    rewrite (skipn_all2 l (n := Z.to_nat (Z.of_nat (length l)))) by lia.
    now rewrite !firstn_nil.
Qed.

Lemma progressRun_app total done n m :
  progressRun total done (n + m) = progressRun total done n ++ progressRun total (done + n) m.
Proof.
  unfold progressRun. rewrite seq_app, map_app. do 3 f_equal.
Qed.

Lemma inferred_app xs ys : inferred (xs ++ ys) = inferred xs ++ inferred ys.
Proof. apply filter_app. Qed.

Section Loop.
Variable pipeline : EmbeddingPipeline.
Variable options : BatchOptions.
Variable texts : list jsstring.
Variable total : Z.
Variable batchSize : Z.
Hypothesis positive : (1 <= batchSize)%Z.

Lemma batchLoop_returns : forall fuel i results w,
  (0 <= i)%Z ->
  Z.to_nat ((Z.of_nat (length texts) - i + batchSize - 1) / batchSize) <= fuel ->
  batchLoop pipeline options texts total fuel batchSize i results w =
  (Returns (results ++ map (embedItem pipeline (bo_normalize options))
                            (skipn (Z.to_nat i) texts)),
   advance (length (inferred (skipn (Z.to_nat i) texts)))
           (deliver (bo_onProgress options)
                    (progressRun total (Z.to_nat i) (length texts - Z.to_nat i))) w).
Proof.
  induction fuel as [|fuel IH]; intros i results w Hi Hfuel.
  - cbn [batchLoop]. destruct (Z.ltb_spec i (Z.of_nat (length texts))) as [Hlt|Hge].
    + exfalso.
      assert (1 <= (Z.of_nat (length texts) - i + batchSize - 1) / batchSize)%Z.
      { apply Z.div_le_lower_bound; lia. }
      lia.
    + rewrite skipn_all2 by lia.
      replace (length texts - Z.to_nat i) with 0 by lia.
      unfold progressRun; simpl. destruct (bo_onProgress options); simpl;
        now rewrite advance_0, app_nil_r.
  - cbn [batchLoop]. destruct (Z.ltb_spec i (Z.of_nat (length texts))) as [Hlt|Hge].
    + unfold bind. rewrite slice_batch by lia.
      rewrite (processBatch_spec pipeline options total _ (Z.to_nat i)) by lia.
      rewrite IH; [|lia|].
      2:{ replace (Z.of_nat (length texts) - (i + batchSize) + batchSize - 1)%Z
            with ((Z.of_nat (length texts) - i + batchSize - 1) + (-1) * batchSize)%Z by lia.
          rewrite Z.div_add by lia. lia. }
      rewrite advance_advance, <- app_assoc, <- map_app, <- deliver_app,
              <- length_app, <- inferred_app.
      replace (Z.to_nat (i + batchSize)) with (Z.to_nat batchSize + Z.to_nat i) by lia.
      rewrite <- skipn_skipn, firstn_skipn.
      f_equal. f_equal. f_equal.
      rewrite length_firstn, length_skipn.
      replace (Z.to_nat batchSize + Z.to_nat i)
        with (Z.to_nat i + Z.to_nat batchSize) by lia.
      destruct (Nat.le_ge_cases (Z.to_nat batchSize) (length texts - Z.to_nat i)) as [H|H].
      * rewrite Nat.min_l by exact H. rewrite <- progressRun_app. f_equal. lia.
      * rewrite Nat.min_r by exact H.
        replace (length texts - (Z.to_nat i + Z.to_nat batchSize)) with 0 by lia.
        unfold progressRun at 2. simpl. now rewrite app_nil_r.
    + rewrite skipn_all2 by lia.
      replace (length texts - Z.to_nat i) with 0 by lia.
      unfold progressRun; simpl. destruct (bo_onProgress options); simpl;
        now rewrite advance_0, app_nil_r.
Qed.
End Loop.

Section Stuck.
Variable pipeline : EmbeddingPipeline.
Variable options : BatchOptions.
Variable texts : list jsstring.
Variable total : Z.
Variable batchSize : Z.
Hypothesis nonPositive : (batchSize <= 0)%Z.

Lemma batchLoop_never_ends : forall fuel i results w,
  (i < Z.of_nat (length texts))%Z ->
  fst (batchLoop pipeline options texts total fuel batchSize i results w) = OutOfFuel.
Proof.
  induction fuel as [|fuel IH]; intros i results w Hi; cbn [batchLoop];
    destruct (Z.ltb_spec i (Z.of_nat (length texts))) as [_|?]; try lia.
  - reflexivity.
  - unfold bind.
    assert (Hret : exists r w', processBatch pipeline options total i
                      (slice texts i (i + batchSize)) 0 results w = (Returns r, w')).
    { generalize (slice texts i (i + batchSize)) as batch.
      generalize 0%Z as j. intros j batch. revert j results w.
      induction batch as [|text rest IHb]; intros j results w.
      - eexists _, _. reflexivity.
      - cbn [processBatch]. unfold bind.
        destruct (isBlank text).
        + unfold ret at 1. rewrite report_advance. apply IHb.
        + rewrite infer_advance. unfold ret at 1. rewrite report_advance. apply IHb. }
    destruct Hret as (r & w' & ->). apply IH. lia.
Qed.
End Stuck.

(** ** generator.ts: [generateEmbeddings] as a whole *)

Lemma iterations_le_length n b : (1 <= b)%Z -> iterations n b <= n.
Proof.
  intros Hb. unfold iterations.
  assert ((Z.of_nat n + b - 1) / b <= Z.of_nat n)%Z; [|lia].
  destruct n as [|n].
  - rewrite Z.div_small; lia.
  - apply Z.div_le_upper_bound; [lia|]. nia.
Qed.

Lemma generateEmbeddings_empty fuel attempt options w :
  generateEmbeddings fuel attempt [] options w = (Returns [], w).
Proof. reflexivity. Qed.

Lemma generateEmbeddings_returns fuel attempt texts options w pipeline :
  texts <> [] ->
  validBatchSize (bo_batchSize options) ->
  available attempt w pipeline ->
  iterations (length texts) (batchSizeOf (bo_batchSize options)) <= fuel ->
  generateEmbeddings fuel attempt texts options w =
  (Returns (map (embedItem pipeline (bo_normalize options)) texts),
   advance (length (inferred texts))
           (deliver (bo_onProgress options)
                    (progressRun (Z.of_nat (length texts)) 0 (length texts)))
           (acquired attempt (bo_onModelLoad options) w)).
Proof.
  intros Hne Hvalid Hav Hfuel. unfold generateEmbeddings.
  destruct texts as [|text rest]; [congruence|].
  unfold bind. rewrite (getEmbeddingPipeline_available _ _ _ _ Hav).
  fold (batchSizeOf (bo_batchSize options)).
  rewrite batchLoop_returns; [|exact Hvalid|lia|].
  - cbn [Z.to_nat skipn app]. now rewrite Nat.sub_0_r.
  - unfold iterations in Hfuel. now rewrite Z.sub_0_r.
Qed.

Lemma generateEmbeddings_never_ends fuel attempt texts options w pipeline :
  texts <> [] ->
  (batchSizeOf (bo_batchSize options) <= 0)%Z ->
  available attempt w pipeline ->
  fst (generateEmbeddings fuel attempt texts options w) = OutOfFuel.
Proof.
  intros Hne Hbad Hav. unfold generateEmbeddings.
  destruct texts as [|text rest]; [congruence|].
  unfold bind. rewrite (getEmbeddingPipeline_available _ _ _ _ Hav).
  fold (batchSizeOf (bo_batchSize options)).
  apply batchLoop_never_ends; [exact Hbad|]. cbn [length]. lia.
Qed.

Lemma deliver_record events : deliver (Some record) events = events.
Proof.
  unfold deliver, record. induction events as [|ev evs IH]; simpl; [reflexivity|].
  now rewrite IH.
Qed.

Lemma progressRun_length total done n : length (progressRun total done n) = n.
Proof. unfold progressRun. now rewrite length_map, length_seq. Qed.

Lemma progressRun_current total done n :
  map current (progressRun total done n) = map Z.of_nat (seq (S done) n).
Proof. unfold progressRun. rewrite map_map. reflexivity. Qed.

(** ** Runs of [generateEmbeddings] that return *)

(** [available] is exactly when [getEmbeddingPipeline] hands out a pipeline. *)
Lemma getEmbeddingPipeline_returns attempt cb w pipeline w1 :
  getEmbeddingPipeline attempt cb w = (Returns pipeline, w1) ->
  available attempt w pipeline.
Proof.
  unfold getEmbeddingPipeline, available.
  destruct (loader w) as [instance busy failure]. cbn [embeddingPipeline loadError isLoading].
  destruct instance as [instance|]; [intros H; injection H as -> _; now left|].
  destruct failure; [discriminate|]. destruct busy; [discriminate|].
  destruct (outcome attempt) as [instance|thrown]; [|discriminate].
  intros H. injection H as -> _. right. split; reflexivity.
Qed.

Lemma processBatch_returns pipeline options total i batch j results w :
  exists rs w', processBatch pipeline options total i batch j results w = (Returns rs, w').
Proof.
  revert j results w. induction batch as [|text rest IH]; intros j results w.
  - eexists _, _. reflexivity.
  - cbn [processBatch]. unfold bind. destruct (isBlank text).
    + unfold ret at 1. rewrite report_advance. apply IH.
    + rewrite infer_advance. unfold ret at 1. rewrite report_advance. apply IH.
Qed.




Lemma getEmbeddingPipeline_has_no_loop attempt cb w :
  fst (getEmbeddingPipeline attempt cb w) <> OutOfFuel.
Proof.
  unfold getEmbeddingPipeline.
  destruct (embeddingPipeline (loader w)); [discriminate|].
  destruct (loadError (loader w)); [discriminate|].
  destruct (isLoading (loader w)); [discriminate|].
  destruct (outcome attempt); discriminate.
Qed.

Lemma generateEmbeddings_ends fuel attempt texts options w :
  validBatchSize (bo_batchSize options) ->
  iterations (length texts) (batchSizeOf (bo_batchSize options)) <= fuel ->
  fst (generateEmbeddings fuel attempt texts options w) <> OutOfFuel.
Proof.
  intros Hvalid Hfuel. unfold generateEmbeddings.
  destruct texts as [|text rest] eqn:Htexts; [discriminate|]. rewrite <- Htexts in *.
  unfold bind.
  pose proof (getEmbeddingPipeline_has_no_loop attempt (bo_onModelLoad options) w) as Hload.
  destruct (getEmbeddingPipeline attempt (bo_onModelLoad options) w) as [[p|e| |] w1];
    cbn [fst] in *; try discriminate; [|congruence].
  fold (batchSizeOf (bo_batchSize options)).
  rewrite batchLoop_returns; [discriminate|exact Hvalid|lia|].
  unfold iterations in Hfuel. now rewrite Z.sub_0_r.
Qed.

(** C10. With a batch size of at least 1 (32 when none is given)
    [generateEmbeddings] ends within [ceil(n / batchSize)] iterations of its
    batch loop, whatever the input list and whether or not the model can be
    had; with the model available it has then processed each text exactly
    once: one result per text in order, one inference per non-blank text, one
    progress event per text. With a batch size of 0 or less, a non-empty list
    and the model available, it ends for no amount of fuel: the loop index
    never advances. *)
Theorem generateEmbeddings_terminates_iff_batchSize_positive :
  forall attempt texts options w,
    batchSizeOf None = 32%Z /\
    ((1 <= batchSizeOf (bo_batchSize options))%Z ->
     forall fuel,
       iterations (length texts) (batchSizeOf (bo_batchSize options)) <= fuel ->
       fst (generateEmbeddings fuel attempt texts options w) <> OutOfFuel /\
       forall pipeline,
         available attempt w pipeline ->
         let (r, w') := generateEmbeddings fuel attempt texts options w in
         r = Returns (map (embedItem pipeline (bo_normalize options)) texts) /\
         inferenceCalls w' = length (inferred texts) + inferenceCalls w /\
         progressTrace w' =
           progressTrace w ++
           deliver (bo_onProgress options)
                   (progressRun (Z.of_nat (length texts)) 0 (length texts))) /\
    ((batchSizeOf (bo_batchSize options) <= 0)%Z ->
     texts <> [] ->
     forall pipeline,
       available attempt w pipeline ->
       (forall i : Z, (i + batchSizeOf (bo_batchSize options) <= i)%Z) /\
       neverReturns (fun fuel => generateEmbeddings fuel attempt texts options w)).
Proof.
  intros attempt texts options w.
  split; [reflexivity|]. split.
  - intros Hvalid fuel Hfuel.
    split; [now apply generateEmbeddings_ends|].
    intros pipeline Hav.
    assert (Hcase : texts = [] \/ texts <> [])
      by (destruct texts; [left; reflexivity|right; discriminate]).
    destruct Hcase as [Hnil|Hne].
    + subst texts. rewrite generateEmbeddings_empty.
      split; [reflexivity|]. split; [reflexivity|].
      cbn. destruct (bo_onProgress options); cbn; now rewrite app_nil_r.
    + rewrite (generateEmbeddings_returns fuel attempt texts options w pipeline
                 Hne Hvalid Hav Hfuel).
      pose proof (getEmbeddingPipeline_sameCacheSide attempt (bo_onModelLoad options) w)
        as (_ & _ & _ & _ & Hi & Hp).
      split; [reflexivity|]. cbn [inferenceCalls progressTrace advance].
      now rewrite Hi, Hp.
  - intros Hbad Hne pipeline Hav. split; [intros i; lia|].
    intros fuel.
    now apply (generateEmbeddings_never_ends fuel attempt texts options w pipeline).
Qed.

(** C10 at work: five texts in batches of two end within three iterations; a
    batch size of -1 never ends. *)
Lemma generateEmbeddings_terminates_witness :
  fst (generateEmbeddings 3 loadsFine
         [lit "a"; lit "b"; lit "c"; lit "d"; lit "e"]
         (mkBatchOptions (Some 2%Z) None None None) freshWorld)
  = Returns (map (embedItem mockPipeline None)
                 [lit "a"; lit "b"; lit "c"; lit "d"; lit "e"])
  /\ neverReturns (fun fuel =>
       generateEmbeddings fuel loadsFine [lit "a"; lit "b"]
                          (mkBatchOptions (Some (-1)%Z) None None None) freshWorld).
Proof.
  split.
  - pose proof (generateEmbeddings_terminates_iff_batchSize_positive loadsFine
                  [lit "a"; lit "b"; lit "c"; lit "d"; lit "e"]
                  (mkBatchOptions (Some 2%Z) None None None) freshWorld)
      as (_ & H & _).
    specialize (H ltac:(simpl; lia) 3 ltac:(vm_compute; lia)).
    destruct H as [_ H].
    specialize (H mockPipeline (or_intror (conj eq_refl eq_refl))).
    destruct (generateEmbeddings 3 _ _ _ _) as [r w']. now destruct H as (-> & _).
  - pose proof (generateEmbeddings_terminates_iff_batchSize_positive loadsFine
                  [lit "a"; lit "b"]
                  (mkBatchOptions (Some (-1)%Z) None None None) freshWorld)
      as (_ & _ & H).
    apply (H ltac:(simpl; lia) ltac:(discriminate) mockPipeline
             (or_intror (conj eq_refl eq_refl))).
Defined.

(** ** cached-generator.ts: the two loops of [generateEmbeddingsCached] *)

Lemma counted_counted a b c d w :
  counted a b (counted c d w) = counted (a + c) (b + d) w.
Proof. unfold counted, set_counters. destruct w; simpl. f_equal; lia. Qed.

Lemma counted_0 w : counted 0 0 w = w.
Proof. destruct w; reflexivity. Qed.

Section Loops.
Variable hashContent : jsstring -> string.
Variable options : CachedGeneratorOptions.

Lemma tryCache_spec text w :
  readable (table w) ->
  tryCache hashContent options text w =
  (Returns (probe hashContent options (table w) text),
   if usesCache options
   then (if isHit hashContent options (table w) text
         then counted 1 0 w else counted 0 1 w)
   else w).
Proof.
  intros Hread. unfold tryCache, isHit, probe.
  destruct (usesCache options); [|reflexivity].
  unfold getCachedEmbedding.
  destruct (find (keyed (hashContent text) MODEL_NAME) (table w)) as [row|] eqn:Hfind;
    cbn [option_map]; [|reflexivity].
  apply find_some in Hfind. destruct Hfind as [Hin _].
  unfold readable in Hread. rewrite Forall_forall in Hread.
  specialize (Hread row Hin). apply Nat.leb_le in Hread. rewrite Hread.
  reflexivity.
Qed.

Lemma checkCache_spec texts : forall i results toGen w,
  readable (table w) ->
  checkCache hashContent options texts i results toGen w =
  (Returns (hitSlots hashContent options (table w) texts i results,
            toGen ++ missList hashContent options (table w) texts i),
   if usesCache options
   then counted (length (hitsOf hashContent options (table w) texts))
                (length (missesOf hashContent options (table w) texts)) w
   else w).
Proof.
  induction texts as [|text rest IH]; intros i results toGen w Hread.
  - cbn. rewrite app_nil_r, counted_0. now destruct (usesCache options).
  - cbn [checkCache]. unfold bind. rewrite tryCache_spec by exact Hread.
    cbn [hitSlots missList hitsOf missesOf filter]. unfold isHit.
    destruct (probe hashContent options (table w) text) as [vector|] eqn:Hprobe;
      cbn [negb].
    + destruct (usesCache options) eqn:Huse.
      * rewrite IH by exact Hread. cbn [table counted set_counters].
        rewrite counted_counted. cbn [length]. f_equal. unfold hitsOf, missesOf, isHit. f_equal; lia.
      * rewrite IH by exact Hread. reflexivity.
    + destruct (usesCache options) eqn:Huse.
      * rewrite IH by exact Hread. cbn [table counted set_counters].
        rewrite counted_counted, <- app_assoc. cbn [length app].
        f_equal. unfold hitsOf, missesOf, isHit. f_equal; lia.
      * rewrite IH by exact Hread. now rewrite <- app_assoc.
Qed.

Lemma storeResults_spec f pairs : forall pre results w,
  storeResults hashContent options pairs (pre ++ map f (map snd pairs)) (length pre)
               results w =
  (Returns (scatter f pairs results),
   if usesCache options
   then set_table (storedRows hashContent f (clock w) pairs) w
   else w).
Proof.
  induction pairs as [|[index text] rest IH]; intros pre results w.
  - cbn. destruct (usesCache options); [|reflexivity]. now destruct w.
  - cbn [storeResults map snd]. rewrite nth_error_app2 by lia.
    rewrite Nat.sub_diag. cbn [nth_error orEmpty].
    replace (pre ++ f text :: map f (map snd rest))
      with ((pre ++ [f text]) ++ map f (map snd rest)) by now rewrite <- app_assoc.
    replace (S (length pre)) with (length (pre ++ [f text]))
      by (rewrite length_app; simpl; lia).
    unfold bind. destruct (usesCache options) eqn:Huse.
    + unfold cacheEmbedding. rewrite IH.
      cbn [scatter storedRows fold_left fst snd]. reflexivity.
    + unfold ret at 1. rewrite IH. reflexivity.
Qed.

(** *** The slots of the two loops *)

Lemma hitSlots_length rows texts : forall i results,
  length (hitSlots hashContent options rows texts i results)
  <= Nat.max (length results) (i + length texts).
Proof.
  induction texts as [|text rest IH]; intros i results; cbn [hitSlots length]; [lia|].
  destruct (probe hashContent options rows text).
  - etransitivity; [apply IH|]. rewrite array_set_length. lia.
  - etransitivity; [apply IH|]. lia.
Qed.

Lemma hitSlots_get rows texts : forall i results j,
  array_get (hitSlots hashContent options rows texts i results) j =
  match (if i <=? j then nth_error texts (j - i) else None) with
  | Some text =>
      match probe hashContent options rows text with
      | Some vector => Some vector
      | None => array_get results j
      end
  | None => array_get results j
  end.
Proof.
  induction texts as [|text rest IH]; intros i results j; cbn [hitSlots].
  - rewrite nth_error_nil. now destruct (i <=? j).
  - destruct (Nat.leb_spec i j) as [Hle|Hgt].
    + destruct (Nat.eq_dec i j) as [->|Hne].
      * rewrite Nat.sub_diag. cbn [nth_error].
        destruct (probe hashContent options rows text) as [vector|] eqn:Hp.
        -- rewrite IH. destruct (Nat.leb_spec (S j) j); [lia|].
           rewrite array_get_set, Nat.eqb_refl. reflexivity.
        -- rewrite IH. destruct (Nat.leb_spec (S j) j); [lia|]. reflexivity.
      * replace (j - i) with (S (j - S i)) by lia. cbn [nth_error].
        destruct (probe hashContent options rows text) as [vector|] eqn:Hp.
        -- rewrite IH. destruct (Nat.leb_spec (S i) j); [|lia].
           rewrite array_get_set. destruct (Nat.eqb_spec i j); [lia|]. reflexivity.
        -- rewrite IH. destruct (Nat.leb_spec (S i) j); [|lia]. reflexivity.
    + destruct (probe hashContent options rows text) as [vector|] eqn:Hp.
      * rewrite IH. destruct (Nat.leb_spec (S i) j); [lia|].
        rewrite array_get_set. destruct (Nat.eqb_spec i j); [lia|]. reflexivity.
      * rewrite IH. destruct (Nat.leb_spec (S i) j); [lia|]. reflexivity.
Qed.

Lemma missList_In rows texts : forall i j text,
  In (j, text) (missList hashContent options rows texts i) <->
  i <= j /\ nth_error texts (j - i) = Some text
  /\ probe hashContent options rows text = None.
Proof.
  induction texts as [|t rest IH]; intros i j text; cbn [missList].
  - rewrite nth_error_nil. split; [intros []|intros (_ & H & _); discriminate].
  - assert (Hrest : In (j, text) (missList hashContent options rows rest (S i)) <->
                    S i <= j /\ nth_error (t :: rest) (j - i) = Some text
                    /\ probe hashContent options rows text = None).
    { rewrite IH. split; intros (H1 & H2 & H3); (split; [exact H1|split; [|exact H3]]).
      - replace (j - i) with (S (j - S i)) by lia. exact H2.
      - replace (j - i) with (S (j - S i)) in H2 by lia. exact H2. }
    destruct (probe hashContent options rows t) as [vector|] eqn:Hp.
    + rewrite Hrest. split.
      * intros (H1 & H2 & H3). split; [lia|]. split; [exact H2|exact H3].
      * intros (H1 & H2 & H3). destruct (Nat.eq_dec i j) as [->|Hne].
        -- rewrite Nat.sub_diag in H2. cbn in H2. injection H2 as ->. congruence.
        -- split; [lia|]. split; [exact H2|exact H3].
    + cbn [In]. rewrite Hrest. split.
      * intros [Heq|(H1 & H2 & H3)].
        -- injection Heq as -> ->. rewrite Nat.sub_diag. cbn. auto.
        -- split; [lia|]. split; [exact H2|exact H3].
      * intros (H1 & H2 & H3). destruct (Nat.eq_dec i j) as [->|Hne].
        -- rewrite Nat.sub_diag in H2. cbn in H2. injection H2 as ->. now left.
        -- right. split; [lia|]. split; [exact H2|exact H3].
Qed.

Lemma missList_texts rows texts : forall i,
  map snd (missList hashContent options rows texts i)
  = missesOf hashContent options rows texts.
Proof.
  induction texts as [|t rest IH]; intros i; cbn [missList missesOf filter]; [reflexivity|].
  unfold isHit. destruct (probe hashContent options rows t); cbn [negb map snd].
  - apply IH.
  - f_equal. apply IH.
Qed.

Lemma hits_and_misses rows texts :
  length (hitsOf hashContent options rows texts)
  + length (missesOf hashContent options rows texts) = length texts.
Proof.
  unfold hitsOf, missesOf. induction texts as [|t rest IH]; cbn [filter length]; [reflexivity|].
  destruct (isHit hashContent options rows t); cbn [negb length]; lia.
Qed.

Lemma scatter_snoc f pairs index text results :
  scatter f (pairs ++ [(index, text)]) results
  = array_set (scatter f pairs results) index (Some (f text)).
Proof. unfold scatter. now rewrite fold_left_app. Qed.

Lemma scatter_length f bound pairs : forall results,
  length results <= bound ->
  (forall j text, In (j, text) pairs -> j < bound) ->
  length (scatter f pairs results) <= bound.
Proof.
  induction pairs as [|[index text] rest IH]; intros results Hlen Hidx; [exact Hlen|].
  cbn [scatter fold_left fst snd]. apply IH.
  - rewrite array_set_length. specialize (Hidx index text (or_introl eq_refl)). lia.
  - intros j t Hin. apply (Hidx j t). now right.
Qed.

Lemma scatter_get_other f pairs j : forall results,
  (forall text, ~ In (j, text) pairs) ->
  array_get (scatter f pairs results) j = array_get results j.
Proof.
  induction pairs as [|[index text] rest IH]; intros results Hout; [reflexivity|].
  cbn [scatter fold_left fst snd]. fold (scatter f rest (array_set results index (Some (f text)))).
  rewrite IH.
  - rewrite array_get_set. destruct (Nat.eqb_spec index j) as [->|]; [|reflexivity].
    exfalso. apply (Hout text). now left.
  - intros t Hin. apply (Hout t). now right.
Qed.

Lemma scatter_get_written f pairs j text results :
  In (j, text) pairs ->
  (forall text', In (j, text') pairs -> text' = text) ->
  array_get (scatter f pairs results) j = Some (f text).
Proof.
  induction pairs as [|[index t] rest IH] using rev_ind; intros Hin Huniq; [destruct Hin|].
  rewrite scatter_snoc, array_get_set.
  destruct (Nat.eqb_spec index j) as [->|Hne].
  - rewrite (Huniq t); [reflexivity|]. apply in_or_app. right. now left.
  - apply IH.
    + apply in_app_or in Hin. destruct Hin as [Hin|[Heq|[]]]; [exact Hin|].
      injection Heq as -> ->. congruence.
    + intros t' Hin'. apply Huniq. apply in_or_app. now left.
Qed.

(** The two loops together fill every slot, each with what is owed. *)
Lemma assembled pipeline rows texts :
  scatter (embedItem pipeline (normalize options))
          (missList hashContent options rows texts 0)
          (hitSlots hashContent options rows texts 0 [])
  = map (fun text => Some (expected hashContent pipeline options rows text)) texts.
Proof.
  rewrite <- (map_map (expected hashContent pipeline options rows) Some).
  apply array_dense.
  - rewrite length_map. apply scatter_length.
    + etransitivity; [apply hitSlots_length|]. simpl. lia.
    + intros j text Hin. apply missList_In in Hin. destruct Hin as (_ & Hnth & _).
      rewrite Nat.sub_0_r in Hnth. apply nth_error_Some. congruence.
  - intros j Hj. rewrite length_map in Hj. rewrite nth_error_map.
    destruct (nth_error texts j) as [text|] eqn:Hnth;
      [|apply nth_error_None in Hnth; lia].
    cbn [option_map]. unfold expected.
    destruct (probe hashContent options rows text) as [vector|] eqn:Hp.
    + rewrite scatter_get_other.
      * rewrite hitSlots_get. cbn [Nat.leb]. rewrite Nat.sub_0_r, Hnth, Hp. reflexivity.
      * intros t Hin. apply missList_In in Hin. destruct Hin as (_ & Hn & Hnone).
        rewrite Nat.sub_0_r in Hn. congruence.
    + apply scatter_get_written.
      * apply missList_In. rewrite Nat.sub_0_r. auto with arith.
      * intros t Hin. apply missList_In in Hin. destruct Hin as (_ & Hn & _).
        rewrite Nat.sub_0_r in Hn. congruence.
Qed.
End Loops.

(** ** cached-generator.ts: [generateEmbeddingsCached] as a whole *)

Lemma deliver_adjusted callback n m :
  m <= n ->
  deliver (option_map (fun f => adjustProgress f n m) callback)
          (progressRun (Z.of_nat m) 0 m)
  = deliver callback (progressRun (Z.of_nat n) (n - m) m).
Proof.
  intros Hle. destruct callback as [f|]; [|reflexivity].
  cbn [option_map deliver]. unfold progressRun.
  assert (Hshift : forall len start,
    flat_map (adjustProgress f n m)
             (map (fun k => progressAt (Z.of_nat m) (Z.of_nat k)) (seq start len))
    = flat_map f (map (fun k => progressAt (Z.of_nat n) (Z.of_nat k))
                      (seq (n - m + start) len))).
  { induction len as [|len IH]; intros start; cbn [seq map flat_map]; [reflexivity|].
    f_equal.
    - unfold adjustProgress, progressAt. cbn [current].
      replace (Z.of_nat n - Z.of_nat m + Z.of_nat start)%Z
        with (Z.of_nat (n - m + start)) by lia.
      reflexivity.
    - replace (S (n - m + start)) with (n - m + S start) by lia. apply IH. }
  rewrite Hshift. now replace (n - m + 1) with (S (n - m)) by lia.
Qed.

Section Whole.
Variable hashContent : jsstring -> string.


Lemma generateEmbeddingsCached_returns fuel attempt texts options w pipeline :
  texts <> [] ->
  readable (table w) ->
  validBatchSize (batchSize options) ->
  available attempt w pipeline ->
  length texts <= fuel ->
  generateEmbeddingsCached hashContent fuel attempt texts options w =
  (Returns (map (fun text => Some (expected hashContent pipeline options (table w) text))
                texts),
   afterBatch hashContent attempt pipeline options texts w).
Proof.
  intros Hne Hread Hvalid Hav Hfuel. unfold generateEmbeddingsCached.
  destruct texts as [|text0 rest0] eqn:Htexts; [congruence|]. rewrite <- Htexts in *.
  clear Htexts text0 rest0.
  unfold bind at 1. rewrite checkCache_spec by exact Hread. cbn [app].
  unfold afterBatch.
  set (w1 := if usesCache options then _ else w).
  assert (Htable : table w1 = table w) by (unfold w1; now destruct (usesCache options)).
  assert (Hav1 : available attempt w1 pipeline)
    by (unfold w1; now destruct (usesCache options)).
  rewrite <- (assembled hashContent options pipeline (table w) texts).
  destruct (missList hashContent options (table w) texts 0) as [|pair pairs] eqn:Hpairs.
  - reflexivity.
  - rewrite <- Hpairs.
    assert (Hlen : length (missList hashContent options (table w) texts 0) <= length texts).
    { rewrite <- (length_map snd), missList_texts.
      pose proof (hits_and_misses hashContent options (table w) texts). lia. }
    unfold bind.
    rewrite (generateEmbeddings_returns fuel attempt _ _ w1 pipeline);
      cbn [bo_batchSize bo_normalize bo_onProgress bo_onModelLoad].
    + rewrite length_map.
      rewrite deliver_adjusted by exact Hlen.
      match goal with
      | |- storeResults _ _ ?pairs _ _ ?results ?w3 = _ =>
          pose proof (storeResults_spec hashContent options
                        (embedItem pipeline (normalize options)) pairs [] results w3)
            as Hstore
      end.
      cbn [app length] in Hstore. rewrite Hstore. reflexivity.
    + rewrite Hpairs. discriminate.
    + exact Hvalid.
    + exact Hav1.
    + pose proof (iterations_le_length
                    (length (map snd (missList hashContent options (table w) texts 0)))
                    _ Hvalid) as Hit.
      rewrite length_map in *. lia.
Qed.

(** *** What the call leaves in the world *)

Lemma afterBatch_progressTrace attempt pipeline options texts w :
  progressTrace (afterBatch hashContent attempt pipeline options texts w)
  = progressTrace w ++
    deliver (onProgress options)
            (progressRun (Z.of_nat (length texts))
                         (length (hitsOf hashContent options (table w) texts))
                         (length (missesOf hashContent options (table w) texts))).
Proof.
  unfold afterBatch.
  pose proof (hits_and_misses hashContent options (table w) texts) as Hsum.
  pose proof (missList_texts hashContent options (table w) texts 0) as Hm.
  apply (f_equal (@length _)) in Hm. rewrite length_map in Hm.
  set (w1 := if usesCache options then _ else w).
  assert (H1 : progressTrace w1 = progressTrace w)
    by (unfold w1; now destruct (usesCache options)).
  destruct (missList hashContent options (table w) texts 0) as [|pair pairs] eqn:Hpairs.
  - rewrite H1. cbn [length] in Hm. rewrite <- Hm.
    unfold progressRun. cbn. destruct (onProgress options); cbn; now rewrite app_nil_r.
  - pose proof (getEmbeddingPipeline_sameCacheSide attempt (onModelLoad options) w1)
      as (_ & _ & _ & _ & _ & Hp).
    replace (length texts - length (pair :: pairs))
      with (length (hitsOf hashContent options (table w) texts)) by lia.
    rewrite Hm.
    destruct (usesCache options); cbn [progressTrace set_table advance];
      now rewrite Hp, H1.
Qed.

Lemma afterBatch_table attempt pipeline options texts w :
  table (afterBatch hashContent attempt pipeline options texts w)
  = if usesCache options
    then storedRows hashContent (embedItem pipeline (normalize options)) (clock w)
                    (missList hashContent options (table w) texts 0) (table w)
    else table w.
Proof.
  unfold afterBatch.
  set (w1 := if usesCache options then _ else w).
  assert (H1 : table w1 = table w /\ clock w1 = clock w)
    by (unfold w1; now destruct (usesCache options)).
  destruct H1 as [Ht Hc].
  destruct (missList hashContent options (table w) texts 0) as [|pair pairs] eqn:Hpairs.
  - rewrite Ht. now destruct (usesCache options).
  - pose proof (getEmbeddingPipeline_sameCacheSide attempt (onModelLoad options) w1)
      as (Ht' & Hc' & _).
    destruct (usesCache options); cbn [table clock set_table advance].
    + now rewrite Ht', Hc', Ht, Hc.
    + now rewrite Ht', Ht.
Qed.
End Whole.

(** ** Progress events *)

Lemma progressRun_bounds size done n :
  Forall (fun ev => total ev = size
                    /\ (Z.of_nat done < current ev <= Z.of_nat (done + n))%Z
                    /\ percentage ev = percentageOf (current ev) (total ev))
         (progressRun size done n).
Proof.
  unfold progressRun. apply Forall_map, Forall_forall. intros k Hk.
  apply in_seq in Hk. cbn. split; [reflexivity|]. split; [lia|reflexivity].
Qed.

Lemma progressRun_hd total done n d :
  n <> 0 -> current (hd d (progressRun total done n)) = (Z.of_nat done + 1)%Z.
Proof. destruct n; [congruence|]. intros _. cbn. lia. Qed.

Lemma progressRun_last total n : forall done d,
  n <> 0 -> current (last (progressRun total done n) d) = Z.of_nat (done + n).
Proof.
  induction n as [|n IH]; intros done d Hn; [congruence|].
  destruct n as [|n].
  - cbn. lia.
  - change (progressRun total done (S (S n)))
      with (progressAt total (Z.of_nat (S done)) :: progressRun total (S done) (S n)).
    change (last (?x :: progressRun total (S done) (S n)) d)
      with (last (progressRun total (S done) (S n)) d).
    rewrite IH by discriminate. f_equal. lia.
Qed.

(** ** Runs of [generateEmbeddingsCached] that return *)

Section Returned.
Variable hashContent : jsstring -> string.
Variable options : CachedGeneratorOptions.



End Returned.



(** ** Blank texts *)

Lemma trimStart_whitespace text : whitespaceOnly text -> trimStart text = [].
Proof.
  induction 1 as [|c rest Hc _ IH]; [reflexivity|]. cbn. now rewrite Hc.
Qed.

Lemma isBlank_whitespace text : whitespaceOnly text -> isBlank text = true.
Proof.
  intros H. unfold isBlank. destruct text as [|c rest]; [reflexivity|].
  unfold trim. now rewrite (trimStart_whitespace _ H).
Qed.

Lemma trimStart_nil text : trimStart text = [] -> whitespaceOnly text.
Proof.
  induction text as [|c rest IH]; intros H; [constructor|]. cbn in H.
  destruct (isWhiteSpace c) eqn:Hc; [|discriminate].
  constructor; [exact Hc|exact (IH H)].
Qed.

Lemma whitespaceOnly_rev text : whitespaceOnly (rev text) -> whitespaceOnly text.
Proof.
  unfold whitespaceOnly. rewrite !Forall_forall. intros H c Hc. apply H.
  now apply in_rev in Hc.
Qed.

Lemma trimStart_head text : whitespaceOnly (trimStart text) -> trimStart text = [].
Proof.
  induction text as [|c rest IH]; [reflexivity|]. cbn.
  destruct (isWhiteSpace c) eqn:Hc; [exact IH|].
  intros H. inversion H; congruence.
Qed.

(** The texts the generator treats as blank are the whitespace-only ones. *)
Lemma isBlank_iff text : isBlank text = true <-> whitespaceOnly text.
Proof.
  split; [|apply isBlank_whitespace].
  unfold isBlank. destruct text as [|c rest]; [constructor|].
  intros H. apply Nat.eqb_eq, length_zero_iff_nil in H.
  unfold trim, trimEnd in H.
  assert (Hrev : trimStart (rev (trimStart (c :: rest))) = []).
  { destruct (trimStart (rev (trimStart (c :: rest)))); [reflexivity|].
    apply (f_equal (@length _)) in H. rewrite length_rev in H. discriminate. }
  apply trimStart_nil, whitespaceOnly_rev, trimStart_head in Hrev.
  now apply trimStart_nil.
Qed.

Lemma embedItem_blank pipeline normalize text :
  whitespaceOnly text -> embedItem pipeline normalize text = zeros MODEL_DIMENSIONS.
Proof. intros H. unfold embedItem. now rewrite (isBlank_whitespace _ H). Qed.

Lemma fround_zeros n : map fround (zeros n) = zeros n.
Proof.
  unfold zeros. induction n as [|n IH]; [reflexivity|]. cbn [repeat map]. now rewrite IH.
Qed.

(** ** The table under [INSERT OR REPLACE] *)

Lemma find_ofHash_filter_other h h' rows :
  h <> h' ->
  find (ofHash h) (filter (fun r => negb (String.eqb (content_hash r) h')) rows)
  = find (ofHash h) rows.
Proof.
  intros Hne. induction rows as [|r rows IH]; [reflexivity|]. cbn [filter find].
  destruct (String.eqb_spec (content_hash r) h') as [Heq|Hd]; cbn [negb find].
  - rewrite IH. unfold ofHash.
    destruct (String.eqb_spec (content_hash r) h); [congruence|reflexivity].
  - now rewrite IH.
Qed.

Lemma find_ofHash_filter_same h rows :
  find (ofHash h) (filter (fun r => negb (String.eqb (content_hash r) h)) rows) = None.
Proof.
  induction rows as [|r rows IH]; [reflexivity|]. cbn [filter].
  destruct (String.eqb (content_hash r) h) eqn:Hr; cbn [negb find]; [exact IH|].
  unfold ofHash at 1. now rewrite Hr.
Qed.

Lemma find_app_none {A} (f : A -> bool) xs ys :
  find f xs = None -> find f (xs ++ ys) = find f ys.
Proof.
  induction xs as [|x xs IH]; [reflexivity|]. cbn [find app].
  destruct (f x); [discriminate|exact IH].
Qed.

Lemma find_app_some {A} (f : A -> bool) xs ys x :
  find f xs = Some x -> find f (xs ++ ys) = Some x.
Proof.
  induction xs as [|y xs IH]; [discriminate|]. cbn [find app].
  destruct (f y); [trivial|exact IH].
Qed.

Lemma find_insertOrReplace_same row rows :
  find (ofHash (content_hash row)) (insertOrReplace row rows) = Some row.
Proof.
  unfold insertOrReplace. rewrite find_app_none by apply find_ofHash_filter_same.
  cbn. unfold ofHash. now rewrite String.eqb_refl.
Qed.

Lemma find_insertOrReplace_other h row rows :
  h <> content_hash row ->
  find (ofHash h) (insertOrReplace row rows) = find (ofHash h) rows.
Proof.
  intros Hne. unfold insertOrReplace.
  destruct (find (ofHash h) rows) as [found|] eqn:Hfind.
  - apply find_app_some. now rewrite find_ofHash_filter_other.
  - rewrite find_app_none by now rewrite find_ofHash_filter_other.
    cbn. unfold ofHash. destruct (String.eqb_spec (content_hash row) h); congruence.
Qed.

Section Stored.
Variable hashContent : jsstring -> string.

Lemma storedRows_snoc f now pairs pair rows :
  storedRows hashContent f now (pairs ++ [pair]) rows
  = insertOrReplace (rowFor hashContent now (snd pair) (f (snd pair)))
                    (storedRows hashContent f now pairs rows).
Proof. unfold storedRows. now rewrite fold_left_app. Qed.

(** The row found under a text's hash after the second loop is the one
    written for that text, when no other text of the loop shares the hash. *)
Lemma storedRows_find f now pairs i text rows :
  In (i, text) pairs ->
  (forall j other, In (j, other) pairs ->
                   hashContent other = hashContent text -> other = text) ->
  find (ofHash (hashContent text)) (storedRows hashContent f now pairs rows)
  = Some (rowFor hashContent now text (f text)).
Proof.
  induction pairs as [|[j other] pairs IH] using rev_ind; intros Hin Hcoll; [destruct Hin|].
  rewrite storedRows_snoc. cbn [snd].
  destruct (string_dec (hashContent other) (hashContent text)) as [Heq|Hne].
  - rewrite (Hcoll j other); [|apply in_or_app; right; now left|exact Heq].
    apply (find_insertOrReplace_same (rowFor hashContent now text (f text))).
  - rewrite find_insertOrReplace_other by (cbn; congruence).
    apply IH.
    + apply in_app_or in Hin. destruct Hin as [Hin|[Heq|[]]]; [exact Hin|].
      injection Heq as -> ->. congruence.
    + intros j' other' Hin'. apply (Hcoll j'). apply in_or_app. now left.
Qed.
End Stored.

(** C1 (amended). For every empty or whitespace-only text that the cache
    check does not find (no row under its hash for the current model, or the
    cache switched off): [generateEmbeddingCached] returns the all-zero vector
    of length [MODEL_DIMENSIONS], without loading the model, and
    [generateEmbeddingsCached] returns it at the text's position. With
    [useCache] on, that zero vector is written to the cache: the table
    afterwards holds the row of zeros under the text's hash. Only with
    [useCache] off is the table left as it was. *)
Theorem blank_text_gets_zero_vector_which_is_cached :
  forall hashContent attempt text options w,
    whitespaceOnly text ->
    probe hashContent options (table w) text = None ->
    let zeroRow := mkRow (hashContent text) (zeros MODEL_DIMENSIONS) MODEL_NAME
                         MODEL_DIMENSIONS (clock w) in
    (let (r, w') := generateEmbeddingCached hashContent attempt text options w in
     r = Returns (zeros MODEL_DIMENSIONS) /\
     loader w' = loader w /\
     table w' = if usesCache options then insertOrReplace zeroRow (table w) else table w)
    /\
    (forall fuel texts pipeline i,
        nth_error texts i = Some text ->
        (forall other, In other texts ->
                       hashContent other = hashContent text -> other = text) ->
        readable (table w) ->
        validBatchSize (batchSize options) ->
        available attempt w pipeline ->
        length texts <= fuel ->
        let (r, w') := generateEmbeddingsCached hashContent fuel attempt texts options w in
        (exists results,
            r = Returns results /\ array_get results i = Some (zeros MODEL_DIMENSIONS)) /\
        if usesCache options
        then find (ofHash (hashContent text)) (table w') = Some zeroRow
        else table w' = table w).
Proof.
  intros hashContent attempt text options w Hblank Hprobe zeroRow.
  assert (Hrow : forall pipeline,
             rowFor hashContent (clock w) text (embedItem pipeline (normalize options) text)
             = zeroRow).
  { intros pipeline. unfold rowFor, zeroRow.
    now rewrite (embedItem_blank _ _ _ Hblank), fround_zeros. }
  split.
  - unfold generateEmbeddingCached, tryCache, generateEmbedding.
    rewrite (isBlank_whitespace _ Hblank). unfold probe in Hprobe.
    destruct (usesCache options) eqn:Huse.
    + unfold bind, getCachedEmbedding.
      destruct (find (keyed (hashContent text) MODEL_NAME) (table w)); [discriminate|].
      unfold ret, cacheEmbedding.
      cbn [table loader set_table set_counters]. unfold zeroRow.
      rewrite fround_zeros. auto.
    + unfold bind, ret. auto.
  - intros fuel texts pipeline i Hnth Hcoll Hread Hvalid Hav Hfuel.
    assert (Hne : texts <> []) by (intros ->; destruct i; discriminate).
    rewrite (generateEmbeddingsCached_returns hashContent fuel attempt texts options
               w pipeline Hne Hread Hvalid Hav Hfuel).
    split.
    + eexists. split; [reflexivity|].
      unfold array_get. rewrite nth_error_map, Hnth. cbn [option_map].
      unfold expected. rewrite Hprobe. now rewrite (embedItem_blank _ _ _ Hblank).
    + rewrite afterBatch_table. destruct (usesCache options); [|reflexivity].
      rewrite <- (Hrow pipeline). apply storedRows_find with (i := i).
      * apply missList_In. rewrite Nat.sub_0_r. auto with arith.
      * intros j other Hin. apply missList_In in Hin. destruct Hin as (_ & Hn & _).
        apply Hcoll. rewrite Nat.sub_0_r in Hn. now apply nth_error_In in Hn.
Qed.

(** ** cache.ts: the statements on the table *)

Lemma primaryKey_filter f rows : primaryKey rows -> primaryKey (filter f rows).
Proof.
  unfold primaryKey. induction rows as [|r rows IH]; intros Hnd; [constructor|].
  cbn [map] in Hnd. inversion Hnd as [|? ? Hnotin Hrest]; subst.
  cbn [filter]. destruct (f r); [|now apply IH].
  cbn [map]. constructor; [|now apply IH].
  intros Hin. apply Hnotin. apply in_map_iff in Hin. destruct Hin as (x & Hx & Hin).
  apply filter_In in Hin. apply in_map_iff. exists x. tauto.
Qed.

Lemma primaryKey_insertOrReplace row rows :
  primaryKey rows -> primaryKey (insertOrReplace row rows).
Proof.
  intros Hpk. unfold insertOrReplace, primaryKey. rewrite map_app.
  apply NoDup_app.
  - now apply primaryKey_filter.
  - cbn. constructor; [intros []|constructor].
  - intros h Hin [Heq|[]]. apply in_map_iff in Hin. destruct Hin as (x & Hx & Hin).
    apply filter_In in Hin. destruct Hin as [_ Hf]. subst h.
    rewrite Heq, String.eqb_refl in Hf. discriminate.
Qed.

Lemma primaryKey_at_most_one rows hash :
  primaryKey rows -> length (filter (ofHash hash) rows) <= 1.
Proof.
  unfold primaryKey. induction rows as [|r rows IH]; intros Hnd; cbn [filter length]; [lia|].
  cbn [map] in Hnd. inversion Hnd as [|? ? Hnotin Hrest]; subst.
  destruct (ofHash hash r) eqn:Hr; [|now apply IH].
  cbn [length]. assert (Hnone : filter (ofHash hash) rows = []).
  { destruct (filter (ofHash hash) rows) as [|x xs] eqn:Hf; [reflexivity|].
    exfalso. apply Hnotin. assert (Hin : In x (filter (ofHash hash) rows))
      by (rewrite Hf; now left).
    apply filter_In in Hin. destruct Hin as [Hin Hx].
    unfold ofHash in Hr, Hx. apply String.eqb_eq in Hr, Hx.
    apply in_map_iff. exists x. split; [congruence|exact Hin]. }
  rewrite Hnone. cbn. lia.
Qed.

Lemma filter_length_narrower {A} (f g : A -> bool) l :
  (forall x, f x = true -> g x = true) ->
  length (filter f l) <= length (filter g l).
Proof.
  intros Himp. induction l as [|x l IH]; cbn [filter]; [lia|].
  destruct (f x) eqn:Hf.
  - rewrite (Himp x Hf). cbn [length]. lia.
  - destruct (g x); cbn [length]; lia.
Qed.

Lemma keyed_at_most_one rows hash version :
  primaryKey rows -> length (filter (keyed hash version) rows) <= 1.
Proof.
  intros Hpk. etransitivity; [|apply (primaryKey_at_most_one rows hash Hpk)].
  apply filter_length_narrower. intros r Hr. unfold keyed in Hr.
  apply andb_true_iff in Hr. apply Hr.
Qed.

Lemma filter_insertOrReplace_same row rows :
  filter (ofHash (content_hash row)) (insertOrReplace row rows) = [row].
Proof.
  unfold insertOrReplace. rewrite filter_app. cbn [filter].
  unfold ofHash at 2. rewrite String.eqb_refl.
  replace (filter (ofHash (content_hash row)) _) with (@nil Row); [reflexivity|].
  symmetry. induction rows as [|r rows IH]; [reflexivity|]. cbn [filter].
  destruct (String.eqb (content_hash r) (content_hash row)) eqn:Hr; cbn [negb filter];
    [exact IH|].
  unfold ofHash at 1. now rewrite Hr.
Qed.

Lemma filter_twice {A} (f : A -> bool) l : filter f (filter f l) = filter f l.
Proof.
  induction l as [|x l IH]; [reflexivity|]. cbn [filter].
  destruct (f x) eqn:Hx; [|exact IH]. cbn [filter]. now rewrite Hx, IH.
Qed.

Lemma filter_insertOrReplace_others row rows :
  filter (fun r => negb (ofHash (content_hash row) r)) (insertOrReplace row rows)
  = filter (fun r => negb (ofHash (content_hash row) r)) rows.
Proof.
  unfold insertOrReplace, ofHash. rewrite filter_app, filter_twice. cbn [filter].
  rewrite String.eqb_refl. cbn [negb]. apply app_nil_r.
Qed.

(** C2 (amended). [cacheEmbedding] upserts the row keyed by the content hash
    alone, the table's primary key: afterwards the table holds at most one
    row per [content_hash] (hence per [(content_hash, model_version)]), exactly
    one row under [hashContent content], namely the new one for the current
    model (a repeat store overwrites), and every row under another
    [content_hash], whatever its model version, is as it was. A row under the
    same [content_hash] written by another model version is replaced. *)
Theorem cacheEmbedding_upserts_by_content_hash :
  forall hashContent content embedding w,
    primaryKey (table w) ->
    let hash := hashContent content in
    let row := mkRow hash (map fround embedding) MODEL_NAME MODEL_DIMENSIONS (clock w) in
    let (r, w') := cacheEmbedding hashContent content embedding w in
    r = Returns tt /\
    primaryKey (table w') /\
    (forall h version, length (filter (keyed h version) (table w')) <= 1) /\
    filter (ofHash hash) (table w') = [row] /\
    filter (fun r => negb (ofHash hash r)) (table w')
    = filter (fun r => negb (ofHash hash r)) (table w) /\
    (forall old, In old (table w) -> content_hash old = hash ->
                 model_version old <> MODEL_NAME -> ~ In old (table w')).
Proof.
  intros hashContent content embedding w Hpk hash row.
  unfold cacheEmbedding. fold hash. fold row. cbn [table set_table].
  split; [reflexivity|].
  split; [now apply primaryKey_insertOrReplace|].
  split; [intros h version; apply keyed_at_most_one; now apply primaryKey_insertOrReplace|].
  split; [apply (filter_insertOrReplace_same row)|].
  split; [apply (filter_insertOrReplace_others row)|].
  intros old Hin Hhash Hversion Hin'.
  assert (Hfilter : In old (filter (ofHash hash) (insertOrReplace row (table w)))).
  { apply filter_In. split; [exact Hin'|]. unfold ofHash. now apply String.eqb_eq. }
  rewrite (filter_insertOrReplace_same row) in Hfilter.
  destruct Hfilter as [Heq|[]]. subst old. now apply Hversion.
Qed.

Lemma filter_ofVersion_cleared version rows :
  filter (ofVersion version) (filter (fun r => negb (ofVersion version r)) rows) = [].
Proof.
  induction rows as [|r rows IH]; [reflexivity|]. cbn [filter].
  destruct (ofVersion version r) eqn:Hr; cbn [negb filter]; [exact IH|]. now rewrite Hr.
Qed.

(** C9. [clearCache] deletes exactly the rows of the current model version,
    returns how many rows it deleted and resets both counters, so that
    [getCacheStats] right after reports no entry, no hit and no miss. *)
Theorem clearCache_clears_current_version :
  forall w,
    let (r, w') := clearCache w in
    r = Returns (length (filter (ofVersion MODEL_NAME) (table w))) /\
    table w' = filter (fun row => negb (ofVersion MODEL_NAME row)) (table w) /\
    (forall row, In row (table w') <->
                 In row (table w) /\ model_version row <> MODEL_NAME) /\
    length (table w') + length (filter (ofVersion MODEL_NAME) (table w))
    = length (table w) /\
    cacheHits w' = 0 /\ cacheMisses w' = 0 /\
    fst (getCacheStats w') = Returns (mkCacheStats 0 0 zero 0 MODEL_NAME).
Proof.
  intros w. unfold clearCache, bind, resetCacheStats, modify, ret.
  cbn [table set_table set_counters cacheHits cacheMisses].
  split; [reflexivity|]. split; [reflexivity|]. split; [|split].
  - intros row. rewrite filter_In. unfold ofVersion.
    destruct (String.eqb_spec (model_version row) MODEL_NAME); cbn [negb]; intuition congruence.
  - induction (table w) as [|r rows IH]; [reflexivity|]. cbn [filter].
    destruct (ofVersion MODEL_NAME r); cbn [negb length]; lia.
  - split; [reflexivity|]. split; [reflexivity|].
    unfold getCacheStats. cbn [fst table cacheHits cacheMisses set_table set_counters].
    now rewrite filter_ofVersion_cleared.
Qed.

(** ** generator.ts: vector arithmetic *)

(** C8. [cosineSimilarity] throws its dimension error exactly when the two
    vectors differ in length, and yields a number exactly when they have the
    same length. *)
Theorem cosineSimilarity_throws_iff_lengths_differ :
  forall a b,
    (cosineSimilarity a b = inl dimensionMismatch <-> length a <> length b) /\
    ((exists x, cosineSimilarity a b = inr x) <-> length a = length b).
Proof.
  intros a b. unfold cosineSimilarity.
  destruct (Nat.eqb_spec (length a) (length b)) as [Heq|Hne]; cbn [negb].
  - destruct (fold_left _ _ _) as [[dotProduct normA] normB].
    destruct (isZero _); (split; split; intros H;
      [discriminate|congruence|exact Heq|eexists; reflexivity]).
  - split; split; intros H; try tauto; try reflexivity.
    destruct H as [x H]. discriminate.
Qed.

Lemma normalizeVector_length vector : length (normalizeVector vector) = length vector.
Proof.
  unfold normalizeVector. destruct (isZero (magnitudeOf vector)); [reflexivity|].
  apply length_map.
Qed.

Lemma magnitudeOf_zeros n : magnitudeOf (zeros n) = zero.
Proof.
  unfold magnitudeOf, zeros.
  assert (H : fold_left (fun sum val => (sum + val * val)%float) (repeat zero n) zero = zero).
  { induction n as [|n IH]; [reflexivity|]. cbn [repeat fold_left].
    change (zero + zero * zero)%float with zero. exact IH. }
  rewrite H. reflexivity.
Qed.

(* ================================================================= *)
(** * Worked examples *)

Lemma readable_check rows :
  forallb (fun r => dimensions r <=? length (embedding r)) rows = true -> readable rows.
Proof.
  intros H. apply Forall_forall. intros r Hr.
  rewrite forallb_forall in H. apply Nat.leb_le. now apply H.
Qed.

(** [warmWorld] is what two cached generations leave of [freshWorld]. *)
Example warmWorld_reached :
  let w := snd (generateEmbeddingCached plainDigest loadsFine (lit "pre-cached B") defaults
             (snd (generateEmbeddingCached plainDigest loadsFine (lit "pre-cached A")
                     defaults freshWorld))) in
  isModelLoaded w = isModelLoaded warmWorld
  /\ table w = table warmWorld
  /\ (cacheHits w, cacheMisses w) = (cacheHits warmWorld, cacheMisses warmWorld)
  /\ (factoryCalls w, inferenceCalls w) = (factoryCalls warmWorld, inferenceCalls warmWorld).
Proof. cbv zeta. split; [|split; [|split]]; vm_compute; reflexivity. Qed.

Lemma warmWorld_readable : readable (table warmWorld).
Proof. apply readable_check. vm_compute. reflexivity. Qed.

(** C1, as stated, fails: the zero vector of a blank text is written to the
    cache, by the single call and by the batch call alike. *)
Lemma blank_text_zero_vector_is_written_to_cache :
  table (snd (generateEmbeddingCached plainDigest loadsFine (lit "   ") defaults freshWorld))
  = [mkRow "   " (zeros MODEL_DIMENSIONS) MODEL_NAME MODEL_DIMENSIONS 0]
  /\ table (snd (generateEmbeddingsCached plainDigest 1 loadsFine [lit ""] defaults
                   freshWorld))
     = [mkRow "" (zeros MODEL_DIMENSIONS) MODEL_NAME MODEL_DIMENSIONS 0].
Proof. split; vm_compute; reflexivity. Qed.

(** C1 (amended) at work: a text of three spaces, alone while the model
    cannot be loaded, and second in a batch. *)
Lemma blank_text_gets_zero_vector_witness :
  (let (r, w') := generateEmbeddingCached plainDigest loadFails (lit "   ") defaults
                    freshWorld in
   r = Returns (zeros MODEL_DIMENSIONS) /\
   loader w' = loader freshWorld /\
   table w' = insertOrReplace
                (mkRow (plainDigest (lit "   ")) (zeros MODEL_DIMENSIONS) MODEL_NAME
                       MODEL_DIMENSIONS 0) []) /\
  (let (r, w') := generateEmbeddingsCached plainDigest 2 loadsFine
                    [lit "new 1"; lit "   "] defaults freshWorld in
   (exists results,
       r = Returns results /\ array_get results 1 = Some (zeros MODEL_DIMENSIONS)) /\
   find (ofHash (plainDigest (lit "   "))) (table w')
   = Some (mkRow (plainDigest (lit "   ")) (zeros MODEL_DIMENSIONS) MODEL_NAME
                 MODEL_DIMENSIONS 0)).
Proof.
  assert (Hblank : whitespaceOnly (lit "   ")) by (repeat constructor).
  split.
  - exact (proj1 (blank_text_gets_zero_vector_which_is_cached plainDigest loadFails
                    (lit "   ") defaults freshWorld Hblank eq_refl)).
  - apply (proj2 (blank_text_gets_zero_vector_which_is_cached plainDigest loadsFine
                    (lit "   ") defaults freshWorld Hblank eq_refl)
             2 [lit "new 1"; lit "   "] mockPipeline 1).
    + reflexivity.
    + intros other [<-|[<-|[]]] H; [vm_compute in H; discriminate|reflexivity].
    + constructor.
    + unfold validBatchSize. simpl. lia.
    + right. split; reflexivity.
    + simpl. lia.
Defined.

(** C2, as stated, fails: a row of another model version under the same
    content hash is not left unchanged by the put, it is replaced. *)
Lemma cacheEmbedding_replaces_row_of_other_version :
  In oldRow (table staleWorld)
  /\ content_hash oldRow = plainDigest (lit "A")
  /\ model_version oldRow = "old-model-v1"%string
  /\ table (snd (cacheEmbedding plainDigest (lit "A") [one] staleWorld))
     = [mkRow "A" [one] MODEL_NAME MODEL_DIMENSIONS 7].
Proof. split; [now left|]. split; [|split]; vm_compute; reflexivity. Qed.

(** C2 (amended) at work: a put under another content hash leaves the old
    row where it is. *)
Lemma cacheEmbedding_upserts_witness :
  let (r, w') := cacheEmbedding plainDigest (lit "B") [one] staleWorld in
  r = Returns tt /\
  primaryKey (table w') /\
  (forall h version, length (filter (keyed h version) (table w')) <= 1) /\
  filter (ofHash (plainDigest (lit "B"))) (table w')
  = [mkRow (plainDigest (lit "B")) (map fround [one]) MODEL_NAME MODEL_DIMENSIONS 7] /\
  filter (fun r => negb (ofHash (plainDigest (lit "B")) r)) (table w')
  = filter (fun r => negb (ofHash (plainDigest (lit "B")) r)) (table staleWorld) /\
  (forall old, In old (table staleWorld) -> content_hash old = plainDigest (lit "B") ->
               model_version old <> MODEL_NAME -> ~ In old (table w')).
Proof.
  apply (cacheEmbedding_upserts_by_content_hash plainDigest (lit "B") [one] staleWorld).
  unfold primaryKey. cbn. constructor; [intros []|constructor].
Defined.


(** The scenario of the test-suite: three entries, then [clearCache]. *)
Example clearCache_after_three_entries :
  let w0 := snd (cacheEmbedding plainDigest (lit "content 1") [one] freshWorld) in
  let w1 := snd (cacheEmbedding plainDigest (lit "content 2") [one] w0) in
  let w2 := snd (cacheEmbedding plainDigest (lit "content 3") [one] w1) in
  fst (clearCache w2) = Returns 3
  /\ fst (getCacheStats (snd (clearCache w2)))
     = Returns (mkCacheStats 0 0 zero 0 MODEL_NAME).
Proof. split; vm_compute; reflexivity. Qed.

(** The scenario of the test-suite: cosine similarity of [1,2,3] and [1,2]. *)
Example cosineSimilarity_of_different_lengths :
  cosineSimilarity [one; two; ofZ 3] [one; two] = inl dimensionMismatch
  /\ cosineSimilarity [zero; zero; zero] [one; two; ofZ 3] = inr zero.
Proof. split; vm_compute; reflexivity. Qed.


(** The test-suite's "should report progress during batch processing": five
    texts in batches of two give five updates, the last one at 100%. *)
Example progress_of_five_texts_in_batches_of_two :
  map (fun ev => (current ev, total ev, percentage ev))
      (progressTrace
         (snd (generateEmbeddings 3 loadsFine
                 [lit "One"; lit "Two"; lit "Three"; lit "Four"; lit "Five"]
                 (mkBatchOptions (Some 2%Z) None (Some record) None) freshWorld)))
  = [(1, 5, ofZ 20); (2, 5, ofZ 40); (3, 5, ofZ 60); (4, 5, ofZ 80); (5, 5, ofZ 100)]%Z.
Proof. vm_compute. reflexivity. Qed.

(** The test-suite's "should use cache for repeated texts" and the counters of
    "should update cache stats": after [A, B, C], the batch [A, B, D] costs one
    inference, two hits and one miss. *)
Example second_batch_uses_the_cache :
  let w1 := snd (generateEmbeddingsCached plainDigest 3 loadsFine
                   [lit "A"; lit "B"; lit "C"] defaults freshWorld) in
  let w2 := snd (generateEmbeddingsCached plainDigest 3 loadsFine
                   [lit "A"; lit "B"; lit "D"] defaults w1) in
  (inferenceCalls w1, inferenceCalls w2) = (3, 4)
  /\ (cacheHits w2, cacheMisses w2) = (2, 4)
  /\ fst (getCacheStats w2)
     = Returns (mkCacheStats 2 4 (ofZ 2 / ofZ 6)%float 4 MODEL_NAME).
Proof. cbv zeta. split; [|split]; vm_compute; reflexivity. Qed.

(* ================================================================= *)
(** * Further properties of the sources *)

(** ** cache.ts: lookups, puts and deletions together *)

Lemma find_insertOrReplace_frame (f : Row -> bool) row rows :
  (forall r, f r = true -> content_hash r <> content_hash row) ->
  find f (insertOrReplace row rows) = find f rows.
Proof.
  intros Hother. unfold insertOrReplace.
  assert (Hrow : f row = false).
  { destruct (f row) eqn:Hf; [|reflexivity]. now destruct (Hother row Hf). }
  induction rows as [|r rows IH]; cbn [filter app find]; [now rewrite Hrow|].
  destruct (String.eqb_spec (content_hash r) (content_hash row)) as [Heq|Hne];
    cbn [negb app find].
  - destruct (f r) eqn:Hf; [now destruct (Hother r Hf)|exact IH].
  - destruct (f r); [reflexivity|exact IH].
Qed.

Lemma find_keyed_insertOrReplace row rows :
  find (keyed (content_hash row) (model_version row)) (insertOrReplace row rows)
  = Some row.
Proof.
  unfold insertOrReplace. rewrite find_app_none.
  - cbn. unfold keyed. now rewrite !String.eqb_refl.
  - induction rows as [|r rows IH]; [reflexivity|]. cbn [filter].
    destruct (String.eqb (content_hash r) (content_hash row)) eqn:Hr; cbn [negb find];
      [exact IH|].
    unfold keyed at 1. rewrite Hr. exact IH.
Qed.

Lemma keyed_hash h v r : keyed h v r = true -> content_hash r = h.
Proof. unfold keyed. intros H. apply andb_true_iff in H. now apply String.eqb_eq. Qed.

(** X1. What [cacheEmbedding] stores is what [getCachedEmbedding] hands back:
    after a put of a vector of at least [MODEL_DIMENSIONS] components, whatever
    the table held before, the lookup of the same content is a hit that returns
    the first [MODEL_DIMENSIONS] components rounded to binary32, and counts one
    hit. *)
Theorem cached_embedding_round_trip :
  forall hashContent content embedding w,
    MODEL_DIMENSIONS <= length embedding ->
    let w1 := snd (cacheEmbedding hashContent content embedding w) in
    getCachedEmbedding hashContent content w1
    = (Returns (Some (map fround (firstn MODEL_DIMENSIONS embedding))),
       counted 1 0 w1).
Proof.
  intros hashContent content embedding w Hlen w1. subst w1.
  unfold cacheEmbedding, getCachedEmbedding. cbn [snd table set_table].
  pose proof (find_keyed_insertOrReplace
                (mkRow (hashContent content) (map fround embedding) MODEL_NAME
                       MODEL_DIMENSIONS (clock w)) (table w)) as Hfind.
  cbn [content_hash model_version] in Hfind. rewrite Hfind.
  cbn [dimensions Runtime.embedding]. rewrite length_map.
  apply Nat.leb_le in Hlen. rewrite Hlen. now rewrite firstn_map.
Qed.

(** X1 at work: a vector of 384 components comes back rounded to binary32. *)
Lemma cached_embedding_round_trip_witness :
  fst (getCachedEmbedding plainDigest (lit "precise test")
         (snd (cacheEmbedding plainDigest (lit "precise test")
                 (repeat (ofZ 1 / ofZ 10)%float 384) freshWorld)))
  = Returns (Some (repeat (fround (ofZ 1 / ofZ 10)%float) 384)).
Proof.
  pose proof (cached_embedding_round_trip plainDigest (lit "precise test")
                (repeat (ofZ 1 / ofZ 10)%float 384) freshWorld) as H.
  cbv zeta in H. rewrite H.
  - cbn [fst]. vm_compute. reflexivity.
  - rewrite repeat_length. unfold MODEL_DIMENSIONS. lia.
Defined.

(** X2. A put leaves the lookups of every content under another hash as they
    were: same result before and after. *)
Theorem put_leaves_other_lookups_alone :
  forall hashContent content embedding other w,
    hashContent other <> hashContent content ->
    fst (getCachedEmbedding hashContent other
           (snd (cacheEmbedding hashContent content embedding w)))
    = fst (getCachedEmbedding hashContent other w).
Proof.
  intros hashContent content embedding other w Hne.
  unfold cacheEmbedding, getCachedEmbedding. cbn [snd table set_table].
  rewrite find_insertOrReplace_frame.
  - destruct (find _ (table w)) as [row|]; [|reflexivity].
    destruct (dimensions row <=? length (Runtime.embedding row)); reflexivity.
  - intros r Hr. apply keyed_hash in Hr. cbn [content_hash]. congruence.
Qed.

(** X2 at work: caching "B" does not disturb the miss of "A". *)
Lemma put_leaves_other_lookups_alone_witness :
  fst (getCachedEmbedding plainDigest (lit "A")
         (snd (cacheEmbedding plainDigest (lit "B") [one] freshWorld)))
  = Returns None.
Proof.
  rewrite (put_leaves_other_lookups_alone plainDigest (lit "B") [one] (lit "A") freshWorld).
  - reflexivity.
  - vm_compute. discriminate.
Defined.

(** X3. A lookup never changes the table, the clock or the loader, and it
    counts itself exactly once: a miss when the table holds no row under the
    content's hash for the current model version (rows of other versions do not
    count), a hit otherwise. *)
Theorem lookup_counts_itself_once :
  forall hashContent content w,
    let (r, w') := getCachedEmbedding hashContent content w in
    table w' = table w /\ clock w' = clock w /\ loader w' = loader w /\
    cacheHits w' + cacheMisses w' = S (cacheHits w + cacheMisses w) /\
    (r = Returns None <-> cacheMisses w' = S (cacheMisses w)) /\
    (r = Returns None <->
     forall row, In row (table w) -> content_hash row = hashContent content ->
                 model_version row <> MODEL_NAME).
Proof.
  intros hashContent content w. unfold getCachedEmbedding.
  destruct (find (keyed (hashContent content) MODEL_NAME) (table w)) as [row|] eqn:Hfind.
  - apply find_some in Hfind. destruct Hfind as [Hin Hkey].
    assert (Hmatch : content_hash row = hashContent content /\ model_version row = MODEL_NAME).
    { unfold keyed in Hkey. apply andb_true_iff in Hkey.
      split; apply String.eqb_eq; tauto. }
    destruct (dimensions row <=? length (Runtime.embedding row));
      cbn [table clock loader cacheHits cacheMisses set_counters];
      (split; [reflexivity|]; split; [reflexivity|]; split; [reflexivity|];
       split; [lia|]; split; split; intros H; try discriminate; try lia;
       exfalso; now apply (H row Hin (proj1 Hmatch)), Hmatch).
  - cbn [table clock loader cacheHits cacheMisses set_counters].
    split; [reflexivity|]. split; [reflexivity|]. split; [reflexivity|].
    split; [lia|]. split; [tauto|]. split; [|reflexivity].
    intros _ row Hin Hhash Hversion.
    apply (find_none _ _ Hfind) in Hin. unfold keyed in Hin.
    rewrite Hhash, Hversion, !String.eqb_refl in Hin. discriminate.
Qed.

Lemma existsb_filter {A} (f : A -> bool) l : (0 <? length (filter f l)) = existsb f l.
Proof.
  induction l as [|x l IH]; [reflexivity|]. cbn [filter existsb].
  destruct (f x); [reflexivity|exact IH].
Qed.

Lemma filter_negb_cleared {A} (f : A -> bool) l :
  filter f (filter (fun x => negb (f x)) l) = [].
Proof.
  induction l as [|x l IH]; [reflexivity|]. cbn [filter].
  destruct (f x) eqn:Hx; cbn [negb filter]; [exact IH|]. now rewrite Hx.
Qed.

Lemma filter_none {A} (f : A -> bool) l : existsb f l = false -> filter (fun x => negb (f x)) l = l.
Proof.
  induction l as [|x l IH]; [reflexivity|]. cbn [existsb filter].
  destruct (f x); [discriminate|]. cbn [orb negb]. intros H. now rewrite IH.
Qed.

(** X4. [invalidateCacheEntry] reports whether the table held a row under the
    content's hash, of whatever model version; it removes every such row and no
    other, leaves the counters alone, and the next lookup of the content is a
    miss. On a content that is not cached it returns [false] and leaves the
    table as it is. *)
Theorem invalidateCacheEntry_removes_the_entry :
  forall hashContent content w,
    let (r, w') := invalidateCacheEntry hashContent content w in
    r = Returns (existsb (ofHash (hashContent content)) (table w)) /\
    filter (ofHash (hashContent content)) (table w') = [] /\
    filter (fun row => negb (ofHash (hashContent content) row)) (table w')
    = filter (fun row => negb (ofHash (hashContent content) row)) (table w) /\
    (existsb (ofHash (hashContent content)) (table w) = false -> table w' = table w) /\
    (cacheHits w', cacheMisses w') = (cacheHits w, cacheMisses w) /\
    fst (getCachedEmbedding hashContent content w') = Returns None.
Proof.
  intros hashContent content w. unfold invalidateCacheEntry.
  set (hash := hashContent content).
  cbn [table set_table cacheHits cacheMisses].
  split; [now rewrite existsb_filter|].
  split; [apply filter_negb_cleared|].
  split; [apply filter_twice|].
  split; [apply filter_none|].
  split; [reflexivity|].
  unfold getCachedEmbedding. fold hash. cbn [table set_table].
  destruct (find (keyed hash MODEL_NAME) _) as [row|] eqn:Hfind; [|reflexivity].
  apply find_some in Hfind. destruct Hfind as [Hin Hkey].
  apply filter_In in Hin. destruct Hin as [_ Hnot].
  apply keyed_hash in Hkey. unfold ofHash in Hnot.
  rewrite Hkey, String.eqb_refl in Hnot. discriminate.
Qed.

Lemma filter_cleared {A} (f : A -> bool) l :
  filter (fun x => negb (f x)) (filter f l) = [].
Proof.
  induction l as [|x l IH]; [reflexivity|]. cbn [filter].
  destruct (f x) eqn:Hx; cbn [negb filter]; [|exact IH]. now rewrite Hx.
Qed.

Lemma find_keyed_ofVersion hash version rows :
  find (keyed hash version) (filter (ofVersion version) rows)
  = find (keyed hash version) rows.
Proof.
  induction rows as [|r rows IH]; [reflexivity|]. cbn [filter find].
  destruct (ofVersion version r) eqn:Hv; cbn [find].
  - now rewrite IH.
  - rewrite IH. unfold keyed. unfold ofVersion in Hv. rewrite Hv.
    now rewrite andb_false_r.
Qed.

Lemma filter_lengths {A} (f : A -> bool) l :
  length (filter f l) + length (filter (fun x => negb (f x)) l) = length l.
Proof.
  induction l as [|x l IH]; [reflexivity|]. cbn [filter].
  destruct (f x); cbn [negb length]; lia.
Qed.

(** X5. [clearOldCache] deletes exactly the rows of other model versions and
    returns their number; it leaves the counters alone, and neither a lookup
    nor the statistics can tell the difference: every lookup and
    [getCacheStats] give the same result before and after. A second call
    deletes nothing. *)
Theorem clearOldCache_is_invisible_to_lookups :
  forall hashContent w,
    let (r, w') := clearOldCache w in
    r = Returns (length (table w) - length (filter (ofVersion MODEL_NAME) (table w))) /\
    (forall row, In row (table w') <->
                 In row (table w) /\ model_version row = MODEL_NAME) /\
    (cacheHits w', cacheMisses w') = (cacheHits w, cacheMisses w) /\
    (forall content,
        fst (getCachedEmbedding hashContent content w')
        = fst (getCachedEmbedding hashContent content w)) /\
    fst (getCacheStats w') = fst (getCacheStats w) /\
    fst (clearOldCache w') = Returns 0.
Proof.
  intros hashContent w. unfold clearOldCache.
  cbn [table set_table cacheHits cacheMisses fst].
  split.
  { f_equal. pose proof (filter_lengths (ofVersion MODEL_NAME) (table w)). lia. }
  split.
  { intros row. rewrite filter_In. unfold ofVersion. now rewrite String.eqb_eq. }
  split; [reflexivity|]. split.
  { intros content. unfold getCachedEmbedding. cbn [table set_table].
    rewrite find_keyed_ofVersion.
    destruct (find _ (table w)) as [row|]; [|reflexivity].
    destruct (dimensions row <=? length (Runtime.embedding row)); reflexivity. }
  split.
  { unfold getCacheStats. cbn [fst table cacheHits cacheMisses set_table].
    now rewrite filter_twice. }
  now rewrite filter_cleared.
Qed.

Lemma filter_filter_comm {A} (f g : A -> bool) l :
  filter f (filter g l) = filter g (filter f l).
Proof.
  induction l as [|x l IH]; [reflexivity|]. cbn [filter].
  destruct (f x) eqn:Hf, (g x) eqn:Hg; cbn [filter]; rewrite ?Hf, ?Hg, IH; reflexivity.
Qed.

(** X6. [getCacheStats] changes nothing and counts only rows of the current
    model version: on a table that keeps its primary key, a put makes
    [totalEntries] grow by one, unless the content already had a row of the
    current version, which the put overwrites; the hit and miss figures do not
    move. *)
Theorem stats_count_current_entries :
  forall hashContent content embedding w,
    primaryKey (table w) ->
    let w' := snd (cacheEmbedding hashContent content embedding w) in
    exists before after,
      getCacheStats w = (Returns before, w) /\
      getCacheStats w' = (Returns after, w') /\
      (hits after, misses after, hitRate after)
      = (hits before, misses before, hitRate before) /\
      totalEntries after
      = totalEntries before
        + (match find (keyed (hashContent content) MODEL_NAME) (table w) with
           | Some _ => 0
           | None => 1
           end).
Proof.
  intros hashContent content embedding w Hpk w'. subst w'.
  unfold getCacheStats, cacheEmbedding.
  cbn [fst snd table cacheHits cacheMisses set_table].
  eexists _, _. split; [reflexivity|]. split; [reflexivity|].
  cbn [hits misses hitRate totalEntries]. split; [reflexivity|].
  unfold insertOrReplace. cbn [content_hash]. rewrite filter_app, length_app.
  cbn [filter]. unfold ofVersion at 2. cbn [model_version]. rewrite String.eqb_refl.
  cbn [length].
  set (h := hashContent content).
  change (fun r : Row => negb (String.eqb (content_hash r) h))
    with (fun r : Row => negb (ofHash h r)).
  rewrite filter_filter_comm.
  pose proof (filter_lengths (ofHash h) (filter (ofVersion MODEL_NAME) (table w))) as Hsplit.
  assert (Hsame : length (filter (ofHash h) (filter (ofVersion MODEL_NAME) (table w)))
                  = match find (keyed h MODEL_NAME) (table w) with
                    | Some _ => 1 | None => 0 end).
  { assert (Hle : length (filter (keyed h MODEL_NAME) (table w)) <= 1)
      by now apply keyed_at_most_one.
    assert (Heq : filter (ofHash h) (filter (ofVersion MODEL_NAME) (table w))
                  = filter (keyed h MODEL_NAME) (table w)).
    { clear. induction (table w) as [|r rows IH]; [reflexivity|]. cbn [filter].
      unfold keyed at 1. fold (ofHash h r). fold (ofVersion MODEL_NAME r).
      destruct (ofVersion MODEL_NAME r), (ofHash h r) eqn:Hh; cbn [filter andb];
        rewrite ?Hh, IH; reflexivity. }
    rewrite Heq.
    destruct (find (keyed h MODEL_NAME) (table w)) as [row|] eqn:Hfind.
    - apply find_some in Hfind.
      assert (Hin : In row (filter (keyed h MODEL_NAME) (table w)))
        by (apply filter_In; exact Hfind).
      destruct (filter (keyed h MODEL_NAME) (table w)) as [|x [|y rest]];
        [destruct Hin|reflexivity|cbn in Hle; lia].
    - destruct (filter (keyed h MODEL_NAME) (table w)) as [|x rest] eqn:Hf; [reflexivity|].
      assert (Hin : In x (filter (keyed h MODEL_NAME) (table w))) by (rewrite Hf; now left).
      apply filter_In in Hin. destruct Hin as [Hin Hx].
      apply (find_none _ _ Hfind) in Hin. congruence. }
  destruct (find (keyed h MODEL_NAME) (table w)); lia.
Qed.

(** X6 at work: putting the same content twice leaves one entry. *)
Lemma stats_count_current_entries_witness :
  let w1 := snd (cacheEmbedding plainDigest (lit "A") [one] freshWorld) in
  let w2 := snd (cacheEmbedding plainDigest (lit "A") [two] w1) in
  exists before after,
    getCacheStats w1 = (Returns before, w1) /\
    getCacheStats w2 = (Returns after, w2) /\
    (hits after, misses after, hitRate after)
    = (hits before, misses before, hitRate before) /\
    totalEntries after
    = totalEntries before
      + (match find (keyed (plainDigest (lit "A")) MODEL_NAME) (table w1) with
         | Some _ => 0
         | None => 1
         end).
Proof.
  intros w1 w2.
  apply (stats_count_current_entries plainDigest (lit "A") [two] w1).
  subst w1. unfold cacheEmbedding. cbn [snd table set_table].
  apply primaryKey_insertOrReplace. constructor.
Defined.

(** X7. [clearCache] and [clearOldCache] split the table between them: run
    one after the other, in either order, they leave no row, and the two
    numbers they return add up to the number of rows there were. *)
Theorem both_clears_empty_the_table :
  forall w,
    let (r1, w1) := clearCache w in
    let (r2, w2) := clearOldCache w1 in
    let (r1', w1') := clearOldCache w in
    let (r2', w2') := clearCache w1' in
    table w2 = [] /\ table w2' = [] /\
    exists current old,
      r1 = Returns current /\ r2' = Returns current /\
      r2 = Returns old /\ r1' = Returns old /\
      current + old = length (table w).
Proof.
  intros w. unfold clearCache, clearOldCache, resetCacheStats, modify, bind, ret.
  cbn [table set_table set_counters].
  split; [apply filter_ofVersion_cleared|].
  split; [apply (filter_cleared (ofVersion MODEL_NAME))|].
  eexists _, _. split; [reflexivity|]. split; [now rewrite filter_twice|].
  split; [now rewrite filter_twice|]. split; [reflexivity|].
  apply filter_lengths.
Qed.

(** ** model-loader.ts: reuse of the instance and what observers see *)

Lemma notifyAll_observed callback evs w :
  fold_left (fun w ev => notify (Some callback) ev w) evs w
  = observe_load (flat_map callback evs) w.
Proof.
  revert w. induction evs as [|ev evs IH]; intros w; cbn [fold_left flat_map].
  - destruct w. unfold observe_load. cbn. now rewrite app_nil_r.
  - rewrite IH. unfold notify, observe_load. cbn. now rewrite app_assoc.
Qed.

Lemma forward_observed callback ps w :
  fold_left (fun w p => fold_left (fun w ev => notify (Some callback) ev w)
                                  (downloadProgress p) w) ps w
  = observe_load (flat_map callback (flat_map downloadProgress ps)) w.
Proof.
  revert w. induction ps as [|p ps IH]; intros w; cbn [fold_left flat_map].
  - destruct w. unfold observe_load. cbn. now rewrite app_nil_r.
  - rewrite IH, notifyAll_observed, flat_map_app. unfold observe_load. cbn.
    now rewrite app_assoc.
Qed.

Lemma notifyAll_unobserved evs w :
  fold_left (fun w ev => notify None ev w) evs w = w.
Proof. induction evs as [|ev evs IH]; [reflexivity|exact IH]. Qed.

Lemma forward_unobserved ps w :
  fold_left (fun w p => fold_left (fun w ev => notify None ev w)
                                  (downloadProgress p) w) ps w = w.
Proof.
  induction ps as [|p ps IH]; [reflexivity|]. cbn [fold_left].
  now rewrite notifyAll_unobserved.
Qed.

Lemma observe_load_nil w : observe_load [] w = w.
Proof. destruct w. unfold observe_load. cbn. now rewrite app_nil_r. Qed.

Lemma returned_is_loaded attempt cb w pipeline w1 :
  getEmbeddingPipeline attempt cb w = (Returns pipeline, w1) ->
  embeddingPipeline (loader w1) = Some pipeline.
Proof.
  intros Hcall.
  destruct (embeddingPipeline (loader w)) as [instance|] eqn:Hp.
  { unfold getEmbeddingPipeline in Hcall. rewrite Hp in Hcall.
    injection Hcall as -> ->. exact Hp. }
  destruct (loadError (loader w)) as [e|] eqn:He.
  { unfold getEmbeddingPipeline in Hcall. rewrite Hp, He in Hcall. discriminate. }
  destruct (isLoading (loader w)) eqn:Hl.
  { unfold getEmbeddingPipeline in Hcall. rewrite Hp, He, Hl in Hcall. discriminate. }
  pose proof (fresh_load attempt cb w Hp He Hl) as Hfresh. rewrite Hcall in Hfresh.
  destruct Hfresh as [_ Hfresh].
  destruct (outcome attempt); destruct Hfresh as [Hr Hloader]; [|discriminate].
  injection Hr as ->. now rewrite Hloader.
Qed.

Lemma loaded_call pipeline attempt cb w :
  embeddingPipeline (loader w) = Some pipeline ->
  getEmbeddingPipeline attempt cb w = (Returns pipeline, w).
Proof. intros Hp. unfold getEmbeddingPipeline. now rewrite Hp. Qed.




Lemma startsLoad_spec w :
  startsLoad w = true <->
  embeddingPipeline (loader w) = None /\ loadError (loader w) = None
  /\ isLoading (loader w) = false.
Proof.
  unfold startsLoad.
  destruct (embeddingPipeline (loader w)), (loadError (loader w)),
    (isLoading (loader w)); cbn; intuition congruence.
Qed.

Lemma call_settles attempt cb w :
  let (r, w') := getEmbeddingPipeline attempt cb w in
  startsLoad w' = false /\
  isLoading (loader w') = isLoading (loader w) /\
  factoryCalls w' = (if startsLoad w then 1 else 0) + factoryCalls w /\
  (r = Pending -> isLoading (loader w) = true) /\
  forall attempt' cb', getEmbeddingPipeline attempt' cb' w' = (r, w').
Proof.
  destruct (startsLoad w) eqn:Hstart.
  - apply startsLoad_spec in Hstart. destruct Hstart as (Hp & He & Hl).
    pose proof (fresh_load attempt cb w Hp He Hl) as Hfresh.
    destruct (getEmbeddingPipeline attempt cb w) as [r w'].
    destruct Hfresh as [Hcount Hfresh]. rewrite Hl.
    destruct (outcome attempt) as [instance|thrown]; destruct Hfresh as [-> Hloader];
      (split; [unfold startsLoad; now rewrite Hloader|]);
      (split; [now rewrite Hloader|]); (split; [exact Hcount|]);
      (split; [discriminate|]); intros attempt' cb'.
    + apply loaded_call. now rewrite Hloader.
    + apply sticky_call. unfold failedWith. now rewrite Hloader.
  - assert (Hsame : getEmbeddingPipeline attempt cb w
                    = (fst (getEmbeddingPipeline attempt cb w), w)).
    { rewrite <- (no_load attempt cb w) at 3; [now destruct (getEmbeddingPipeline _ _ _)|].
      unfold startsLoad in Hstart.
      destruct (embeddingPipeline (loader w)); [left; discriminate|].
      destruct (loadError (loader w)); [right; left; discriminate|].
      destruct (isLoading (loader w)); [now right; right|discriminate]. }
    rewrite Hsame. split; [exact Hstart|]. split; [reflexivity|]. split; [reflexivity|].
    split.
    + unfold getEmbeddingPipeline, startsLoad in *.
      destruct (embeddingPipeline (loader w)); [discriminate|].
      destruct (loadError (loader w)); [discriminate|].
      now destruct (isLoading (loader w)).
    + intros attempt' cb'. unfold getEmbeddingPipeline, startsLoad in *.
      destruct (embeddingPipeline (loader w)); [reflexivity|].
      destruct (loadError (loader w)); [reflexivity|].
      now destruct (isLoading (loader w)).
Qed.

(** ** generator.ts: what a run needs and what it leaves alone *)

Lemma acquired_cacheState attempt cb w :
  cacheState (acquired attempt cb w) = cacheState w.
Proof.
  destruct (getEmbeddingPipeline_sameCacheSide attempt cb w) as (Ht & _ & Hh & Hm & _).
  unfold cacheState. now rewrite Ht, Hh, Hm.
Qed.

Lemma getEmbeddingPipeline_cacheState attempt cb w :
  cacheState (snd (getEmbeddingPipeline attempt cb w)) = cacheState w.
Proof. apply acquired_cacheState. Qed.

Lemma processBatch_cacheState pipeline options total i batch : forall j results w,
  cacheState (snd (processBatch pipeline options total i batch j results w)) = cacheState w.
Proof.
  induction batch as [|text batch IH]; intros j results w; [reflexivity|].
  cbn [processBatch]. unfold bind at 1.
  destruct (isBlank text).
  - unfold ret at 1. unfold bind at 1. rewrite report_advance. now rewrite IH.
  - unfold bind at 1. rewrite infer_advance. unfold ret at 1. unfold bind at 1.
    rewrite report_advance. now rewrite IH.
Qed.

Lemma batchLoop_cacheState pipeline options texts total batchSize :
  forall fuel i results w,
    cacheState (snd (batchLoop pipeline options texts total fuel batchSize i results w))
    = cacheState w.
Proof.
  induction fuel as [|fuel IH]; intros i results w; cbn [batchLoop];
    destruct (i <? Z.of_nat (length texts))%Z; try reflexivity.
  unfold bind.
  pose proof (processBatch_cacheState pipeline options total i
                (slice texts i (i + batchSize)) 0%Z results w) as Hbatch.
  destruct (processBatch_returns pipeline options total i
              (slice texts i (i + batchSize)) 0%Z results w) as (rs & w1 & Hrun).
  rewrite Hrun in *. cbn [snd] in Hbatch. now rewrite IH.
Qed.

Lemma generateEmbeddings_cacheState fuel attempt texts options w :
  cacheState (snd (generateEmbeddings fuel attempt texts options w)) = cacheState w.
Proof.
  destruct texts as [|text texts]; [reflexivity|].
  unfold generateEmbeddings, bind.
  pose proof (getEmbeddingPipeline_cacheState attempt (bo_onModelLoad options) w) as Hload.
  destruct (getEmbeddingPipeline attempt (bo_onModelLoad options) w) as [[p|e| |] w1];
    cbn [snd] in *; try exact Hload.
  now rewrite batchLoop_cacheState.
Qed.

Lemma generateEmbedding_cacheState attempt text options w :
  cacheState (snd (generateEmbedding attempt text options w)) = cacheState w.
Proof.
  unfold generateEmbedding. destruct (isBlank text); [reflexivity|]. unfold bind.
  pose proof (getEmbeddingPipeline_cacheState attempt (eo_onModelLoad options) w) as Hload.
  destruct (getEmbeddingPipeline attempt (eo_onModelLoad options) w) as [[p|e| |] w1];
    cbn [snd] in *; try exact Hload.
  rewrite infer_advance.
  destruct (wantsNormalize (eo_normalize options)); exact Hload.
Qed.

Lemma generateEmbedding_available attempt text options w pipeline :
  available attempt w pipeline ->
  generateEmbedding attempt text options w =
  (Returns (embedItem pipeline (eo_normalize options) text),
   if isBlank text then w
   else advance 1 [] (acquired attempt (eo_onModelLoad options) w)).
Proof.
  intros Havailable. unfold generateEmbedding, embedItem.
  destruct (isBlank text); [reflexivity|]. unfold bind.
  rewrite (getEmbeddingPipeline_available attempt _ w pipeline) by exact Havailable.
  rewrite infer_advance.
  now destruct (wantsNormalize (eo_normalize options)).
Qed.

Lemma not_blank text : ~ whitespaceOnly text -> isBlank text = false.
Proof.
  intros Hnot. destruct (isBlank text) eqn:Hblank; [|reflexivity].
  now apply isBlank_iff in Hblank.
Qed.

(** X11. After a failed load, and until [unloadModel], every embedding that
    needs the model fails with the stored error and changes nothing:
    [generateEmbedding] of a text that is not white space only, and
    [generateEmbeddings] of any non-empty list, for every batch size. The two
    differ on blank input: [generateEmbedding] still answers a blank text with
    the zero vector, while a list of blank texts fails, because
    [generateEmbeddings] asks for the model before it looks at any text. *)
Theorem failed_load_fails_every_embedding :
  forall e w,
    failedWith e w ->
    (forall attempt text options,
        ~ whitespaceOnly text ->
        generateEmbedding attempt text options w = (Throws e, w)) /\
    (forall attempt text options,
        whitespaceOnly text ->
        generateEmbedding attempt text options w
        = (Returns (zeros MODEL_DIMENSIONS), w)) /\
    (forall fuel attempt texts options,
        texts <> [] ->
        generateEmbeddings fuel attempt texts options w = (Throws e, w)).
Proof.
  intros e w Hfailed. split; [|split].
  - intros attempt text options Hnot. unfold generateEmbedding.
    rewrite (not_blank text Hnot). unfold bind.
    now rewrite (sticky_call e) by exact Hfailed.
  - intros attempt text options Hblank. unfold generateEmbedding.
    now rewrite (isBlank_whitespace text Hblank).
  - intros fuel attempt [|text texts] options Hne; [contradiction|].
    unfold generateEmbeddings, bind. now rewrite (sticky_call e) by exact Hfailed.
Qed.

Lemma failed_world :
  failedWith (mkError "model unavailable")
             (snd (getEmbeddingPipeline loadFails None freshWorld)).
Proof. split; reflexivity. Qed.

(** X11 at work: after the failed load of [loadFails], a blank text is still
    embedded, a list holding only that text is not. *)
Lemma failed_load_fails_every_embedding_witness :
  let w := snd (getEmbeddingPipeline loadFails None freshWorld) in
  generateEmbedding loadsFine (lit "  ") (mkEmbedOptions None None) w
  = (Returns (zeros MODEL_DIMENSIONS), w)
  /\ generateEmbeddings 1 loadsFine [lit "  "] (mkBatchOptions None None None None) w
     = (Throws (mkError "model unavailable"), w).
Proof.
  intros w.
  destruct (failed_load_fails_every_embedding (mkError "model unavailable") w failed_world)
    as (_ & Hblank & Hbatch).
  split.
  - apply Hblank. repeat constructor.
  - apply Hbatch. discriminate.
Defined.

Lemma nth_error_embedded {A B} (f : A -> B) l i x :
  nth_error l i = Some x -> nth_error (map f l) i = Some (f x).
Proof. intros H. rewrite nth_error_map, H. reflexivity. Qed.

Lemma available_after attempt cb w pipeline :
  available attempt w pipeline ->
  embeddingPipeline (loader (acquired attempt cb w)) = Some pipeline.
Proof.
  intros Havailable.
  apply (returned_is_loaded attempt cb w pipeline).
  now apply getEmbeddingPipeline_available.
Qed.

Lemma advance_loader calls delivered w : loader (advance calls delivered w) = loader w.
Proof. reflexivity. Qed.

(** X12. A batch agrees with single calls: when [generateEmbeddings] has the
    model at hand and a batch size from 1 on, it returns one vector per text,
    and the vector at each position is the one [generateEmbedding] returns for
    the text at that position, from the state before the batch as well as from
    the state the batch leaves (there, whatever the factory would do). *)
Theorem batch_agrees_with_single_calls :
  forall fuel attempt texts options w pipeline,
    validBatchSize (bo_batchSize options) ->
    available attempt w pipeline ->
    iterations (length texts) (batchSizeOf (bo_batchSize options)) <= fuel ->
    let (r, w') := generateEmbeddings fuel attempt texts options w in
    exists vectors,
      r = Returns vectors /\
      length vectors = length texts /\
      forall i text,
        nth_error texts i = Some text ->
        exists v,
          nth_error vectors i = Some v /\
          (forall onModelLoad,
              fst (generateEmbedding attempt text
                     (mkEmbedOptions (bo_normalize options) onModelLoad) w)
              = Returns v) /\
          (forall attempt' onModelLoad,
              fst (generateEmbedding attempt' text
                     (mkEmbedOptions (bo_normalize options) onModelLoad) w')
              = Returns v).
Proof.
  intros fuel attempt texts options w pipeline Hvalid Havailable Hfuel.
  destruct texts as [|first rest].
  { rewrite generateEmbeddings_empty. exists []. split; [reflexivity|].
    split; [reflexivity|]. intros [|i] text Hnth; discriminate. }
  rewrite (generateEmbeddings_returns fuel attempt (first :: rest) options w pipeline)
    by (try discriminate; assumption).
  eexists. split; [reflexivity|]. split; [apply length_map|].
  intros i text Hnth. exists (embedItem pipeline (bo_normalize options) text).
  split; [now apply nth_error_embedded|]. split.
  - intros onModelLoad.
    now rewrite (generateEmbedding_available attempt text _ w pipeline) by exact Havailable.
  - intros attempt' onModelLoad.
    rewrite (generateEmbedding_available attempt' text _ _ pipeline); [reflexivity|].
    left. rewrite advance_loader. now apply available_after.
Qed.

(** X12 at work: three texts in batches of two. *)
Lemma batch_agrees_with_single_calls_witness :
  let (r, w') := generateEmbeddings 2 loadsFine [lit "a"; lit ""; lit "c"]
                   (mkBatchOptions (Some 2%Z) None None None) freshWorld in
  exists vectors,
    r = Returns vectors /\
    length vectors = 3 /\
    forall i text,
      nth_error [lit "a"; lit ""; lit "c"] i = Some text ->
      exists v,
        nth_error vectors i = Some v /\
        (forall onModelLoad,
            fst (generateEmbedding loadsFine text (mkEmbedOptions None onModelLoad)
                   freshWorld)
            = Returns v) /\
        (forall attempt' onModelLoad,
            fst (generateEmbedding attempt' text (mkEmbedOptions None onModelLoad) w')
            = Returns v).
Proof.
  apply (batch_agrees_with_single_calls 2 loadsFine [lit "a"; lit ""; lit "c"]
           (mkBatchOptions (Some 2%Z) None None None) freshWorld mockPipeline).
  - unfold validBatchSize. cbn. lia.
  - right. split; reflexivity.
  - vm_compute. lia.
Defined.

Lemma embedItem_length pipeline normalize text :
  length (embedItem pipeline normalize text)
  = if isBlank text then MODEL_DIMENSIONS else length (pipeline text).
Proof.
  unfold embedItem. destruct (isBlank text).
  - unfold zeros. apply repeat_length.
  - destruct (wantsNormalize normalize); [apply normalizeVector_length|reflexivity].
Qed.


Lemma mockPipeline_length text : length (mockPipeline text) = MODEL_DIMENSIONS.
Proof. unfold mockPipeline. now rewrite length_map, length_seq. Qed.


(** ** cached-generator.ts: hits, misses and the switch *)

Lemma lookup_inserted hashContent content v now rows w :
  table w = insertOrReplace (rowFor hashContent now content v) rows ->
  MODEL_DIMENSIONS <= length v ->
  getCachedEmbedding hashContent content w
  = (Returns (Some (map fround (firstn MODEL_DIMENSIONS v))), counted 1 0 w).
Proof.
  intros Htable Hlen. unfold getCachedEmbedding. rewrite Htable.
  pose proof (find_keyed_insertOrReplace (rowFor hashContent now content v) rows) as Hfind.
  cbn [rowFor content_hash model_version] in Hfind. rewrite Hfind.
  cbn [rowFor dimensions Runtime.embedding]. rewrite length_map.
  apply Nat.leb_le in Hlen. rewrite Hlen. now rewrite firstn_map.
Qed.


Lemma probe_uses hashContent options rows text vector :
  probe hashContent options rows text = Some vector -> usesCache options = true.
Proof. unfold probe. now destruct (usesCache options). Qed.

Lemma isHit_probe hashContent options rows text :
  isHit hashContent options rows text = true ->
  exists vector, probe hashContent options rows text = Some vector.
Proof.
  unfold isHit. destruct (probe hashContent options rows text) as [vector|];
    [now exists vector|discriminate].
Qed.

Lemma filter_all {A} (f : A -> bool) l :
  (forall x, In x l -> f x = true) -> filter f l = l.
Proof.
  induction l as [|x l IH]; intros Hall; [reflexivity|]. cbn [filter].
  rewrite (Hall x (or_introl eq_refl)). f_equal. apply IH. intros y Hy. apply Hall.
  now right.
Qed.

Lemma filter_nothing {A} (f : A -> bool) l :
  (forall x, In x l -> f x = true) -> filter (fun x => negb (f x)) l = [].
Proof.
  induction l as [|x l IH]; intros Hall; [reflexivity|]. cbn [filter].
  rewrite (Hall x (or_introl eq_refl)). cbn [negb]. apply IH. intros y Hy. apply Hall.
  now right.
Qed.

Lemma map_snd_nil {A B} (l : list (A * B)) : map snd l = [] -> l = [].
Proof. now destruct l. Qed.

Lemma all_hits_offline hashContent fuel attempt texts options w :
  readable (table w) ->
  (forall text, In text texts -> isHit hashContent options (table w) text = true) ->
  generateEmbeddingsCached hashContent fuel attempt texts options w
  = (Returns (map (probe hashContent options (table w)) texts),
     counted (length texts) 0 w).
Proof.
  intros Hread Hall. unfold generateEmbeddingsCached.
  destruct texts as [|text0 rest0] eqn:Htexts.
  { now rewrite counted_0. }
  rewrite <- Htexts in *.
  assert (Hon : usesCache options = true).
  { destruct (isHit_probe hashContent options (table w) text0) as [vector Hprobe].
    - apply Hall. rewrite Htexts. now left.
    - exact (probe_uses _ _ _ _ _ Hprobe). }
  clear Htexts text0 rest0.
  unfold bind. rewrite (checkCache_spec hashContent options texts 0 [] [] w Hread).
  cbn [app]. rewrite Hon.
  assert (Hmisses : missesOf hashContent options (table w) texts = [])
    by (apply filter_nothing; exact Hall).
  assert (Hhits : hitsOf hashContent options (table w) texts = texts)
    by (apply filter_all; exact Hall).
  assert (Hpairs : missList hashContent options (table w) texts 0 = []).
  { apply map_snd_nil. now rewrite missList_texts. }
  pose proof (assembled hashContent options (fun _ => []) (table w) texts) as Hslots.
  rewrite Hpairs in *. cbn [scatter fold_left] in Hslots.
  rewrite Hslots, Hmisses, Hhits. cbn [length]. unfold ret. f_equal. f_equal.
  apply map_ext_in. intros text Hin.
  destruct (isHit_probe hashContent options (table w) text (Hall text Hin))
    as [vector Hprobe].
  unfold expected. now rewrite Hprobe.
Qed.

(** X14. A cache hit never touches the model. With a readable table,
    [generateEmbeddingCached] of a text that hits returns the cached vector and
    only counts the hit, and [generateEmbeddingsCached] of texts that all hit
    returns their cached vectors in order and only counts the hits: no load, no
    inference, no progress event, no write, for every state of the loader (the
    model unloaded, failed or in flight), every fuel and every batch size. *)
Theorem cache_hits_never_touch_the_model :
  forall hashContent w,
    readable (table w) ->
    (forall attempt text options vector,
        probe hashContent options (table w) text = Some vector ->
        generateEmbeddingCached hashContent attempt text options w
        = (Returns vector, counted 1 0 w)) /\
    (forall fuel attempt texts options,
        (forall text, In text texts -> isHit hashContent options (table w) text = true) ->
        generateEmbeddingsCached hashContent fuel attempt texts options w
        = (Returns (map (probe hashContent options (table w)) texts),
           counted (length texts) 0 w)).
Proof.
  intros hashContent w Hread. split.
  - intros attempt text options vector Hprobe.
    unfold generateEmbeddingCached, bind.
    rewrite (tryCache_spec hashContent options text w Hread), Hprobe.
    rewrite (probe_uses _ _ _ _ _ Hprobe). unfold isHit. now rewrite Hprobe.
  - intros fuel attempt texts options Hall. now apply all_hits_offline.
Qed.

(** X14 at work: with the two rows of [warmWorld] and a loader that has
    failed, both texts are still served. *)
Lemma cache_hits_never_touch_the_model_witness :
  let w := set_loader (fun _ => mkLoader None false (Some (mkError "model unavailable")))
                      warmWorld in
  fst (generateEmbeddingsCached plainDigest 0 loadFails
         [lit "pre-cached B"; lit "pre-cached A"]
         (mkCachedOptions None None None (Some 0%Z) None) w)
  = Returns [Some (cachedVector (cachedRow (lit "pre-cached B")));
             Some (cachedVector (cachedRow (lit "pre-cached A")))].
Proof.
  intros w.
  destruct (cache_hits_never_touch_the_model plainDigest w warmWorld_readable)
    as [_ Hbatch].
  rewrite Hbatch.
  - cbn [fst map]. vm_compute. reflexivity.
  - intros text [<-|[<-|[]]]; vm_compute; reflexivity.
Defined.

(** X15. After a failed load the cache still separates what can be served
    from what cannot: with a readable table, a text that misses and is not
    blank makes [generateEmbeddingCached] fail with the stored error, and a
    single miss among the texts, blank or not, makes the whole of
    [generateEmbeddingsCached] fail with it, whatever the other texts hit. The
    lookups made before the failure stay counted; nothing is written. *)
Theorem failed_load_fails_every_miss :
  forall hashContent e w,
    failedWith e w ->
    readable (table w) ->
    (forall attempt text options,
        probe hashContent options (table w) text = None ->
        ~ whitespaceOnly text ->
        generateEmbeddingCached hashContent attempt text options w
        = (Throws e, if usesCache options then counted 0 1 w else w)) /\
    (forall fuel attempt texts options,
        missesOf hashContent options (table w) texts <> [] ->
        generateEmbeddingsCached hashContent fuel attempt texts options w
        = (Throws e,
           if usesCache options
           then counted (length (hitsOf hashContent options (table w) texts))
                        (length (missesOf hashContent options (table w) texts)) w
           else w)).
Proof.
  intros hashContent e w Hfailed Hread. split.
  - intros attempt text options Hprobe Hnot.
    unfold generateEmbeddingCached, bind.
    rewrite (tryCache_spec hashContent options text w Hread), Hprobe.
    unfold isHit. rewrite Hprobe.
    set (w1 := if usesCache options then counted 0 1 w else w).
    assert (Hfailed1 : failedWith e w1) by (unfold w1; now destruct (usesCache options)).
    unfold generateEmbedding. rewrite (not_blank text Hnot). unfold bind.
    now rewrite (sticky_call e) by exact Hfailed1.
  - intros fuel attempt texts options Hmiss.
    unfold generateEmbeddingsCached.
    destruct texts as [|text0 rest0] eqn:Htexts; [now destruct Hmiss|].
    rewrite <- Htexts in *. clear Htexts text0 rest0.
    unfold bind at 1. rewrite (checkCache_spec hashContent options texts 0 [] [] w Hread).
    cbn [app].
    set (w1 := if usesCache options then _ else w).
    assert (Hfailed1 : failedWith e w1) by (unfold w1; now destruct (usesCache options)).
    pose proof (missList_texts hashContent options (table w) texts 0) as Hpairs.
    destruct (missList hashContent options (table w) texts 0) as [|pair pairs] eqn:Hlist;
      [now rewrite <- Hpairs in Hmiss|].
    unfold bind. unfold generateEmbeddings. cbn [map]. unfold bind.
    now rewrite (sticky_call e) by exact Hfailed1.
Qed.

(** X15 at work: one cached text and one new text, the loader having failed. *)
Lemma failed_load_fails_every_miss_witness :
  let w := set_loader (fun _ => mkLoader None false (Some (mkError "model unavailable")))
                      warmWorld in
  fst (generateEmbeddingsCached plainDigest 2 loadsFine [lit "pre-cached A"; lit ""]
         defaults w)
  = Throws (mkError "model unavailable").
Proof.
  intros w.
  assert (Hfailed : failedWith (mkError "model unavailable") w) by (split; reflexivity).
  destruct (failed_load_fails_every_miss plainDigest _ w Hfailed warmWorld_readable)
    as [_ Hbatch].
  rewrite Hbatch; [reflexivity|]. vm_compute. discriminate.
Defined.











(** X17. The second call is served from the cache: when
    [generateEmbeddingCached], cache on, has missed, embedded the text and
    returned a vector of at least [MODEL_DIMENSIONS] components, a later call
    for the same text returns the first [MODEL_DIMENSIONS] components of that
    vector rounded to binary32 (not the vector itself), counts one hit and does
    nothing else: no load and no inference, whatever the factory would do. *)
Theorem second_call_is_served_from_the_cache :
  forall hashContent attempt text options w v w1,
    usesCache options = true ->
    find (keyed (hashContent text) MODEL_NAME) (table w) = None ->
    generateEmbeddingCached hashContent attempt text options w = (Returns v, w1) ->
    MODEL_DIMENSIONS <= length v ->
    forall attempt' options',
      usesCache options' = true ->
      generateEmbeddingCached hashContent attempt' text options' w1
      = (Returns (map fround (firstn MODEL_DIMENSIONS v)), counted 1 0 w1).
Proof.
  intros hashContent attempt text options w v w1 Hon Hmiss Hfirst Hlen attempt' options'
    Hon'.
  unfold generateEmbeddingCached, tryCache in Hfirst. rewrite Hon in Hfirst.
  unfold bind at 1 in Hfirst. unfold getCachedEmbedding in Hfirst.
  rewrite Hmiss in Hfirst. unfold bind in Hfirst.
  destruct (generateEmbedding attempt text _ _) as [[v'| | |] w2]; try discriminate.
  unfold cacheEmbedding, ret in Hfirst. injection Hfirst as -> <-.
  unfold generateEmbeddingCached, tryCache. rewrite Hon'. unfold bind.
  now rewrite (lookup_inserted hashContent text v (clock w2) (table w2)).
Qed.

Lemma returned_pair {A} (p : Completion A * World) a :
  fst p = Returns a -> p = (Returns a, snd p).
Proof. destruct p as [r w]. cbn [fst snd]. now intros ->. Qed.

Lemma normalized_mock_length text :
  length (embedItem mockPipeline None text) = MODEL_DIMENSIONS.
Proof. rewrite embedItem_length, mockPipeline_length. now destruct (isBlank text). Qed.

(** X17 at work: the second call for "hello" needs no model. *)
Lemma second_call_is_served_from_the_cache_witness :
  let first := generateEmbeddingCached plainDigest loadsFine (lit "hello") defaults
                 freshWorld in
  generateEmbeddingCached plainDigest loadFails (lit "hello") defaults (snd first)
  = (Returns (map fround (firstn MODEL_DIMENSIONS
                                 (embedItem mockPipeline None (lit "hello")))),
     counted 1 0 (snd first)).
Proof.
  intros first.
  apply (second_call_is_served_from_the_cache plainDigest loadsFine (lit "hello")
           defaults freshWorld).
  - reflexivity.
  - reflexivity.
  - apply returned_pair. vm_compute. reflexivity.
  - apply Nat.eq_le_incl. symmetry. apply normalized_mock_length.
  - reflexivity.
Defined.







Lemma acquired_factoryCalls attempt cb w :
  factoryCalls (acquired attempt cb w) <= S (factoryCalls w).
Proof.
  unfold acquired. pose proof (call_settles attempt cb w) as Hcall.
  destruct (getEmbeddingPipeline attempt cb w) as [r w1].
  destruct Hcall as (_ & _ & Hcount & _). cbn [snd]. rewrite Hcount.
  destruct (startsLoad w); lia.
Qed.

Lemma afterBatch_counts hashContent attempt pipeline options texts w :
  usesCache options = true ->
  let w' := afterBatch hashContent attempt pipeline options texts w in
  cacheHits w' = length (hitsOf hashContent options (table w) texts) + cacheHits w /\
  cacheMisses w' = length (missesOf hashContent options (table w) texts) + cacheMisses w /\
  inferenceCalls w'
  = length (inferred (missesOf hashContent options (table w) texts)) + inferenceCalls w /\
  factoryCalls w' <= S (factoryCalls w).
Proof.
  intros Hon w'. subst w'. unfold afterBatch. rewrite Hon.
  pose proof (missList_texts hashContent options (table w) texts 0) as Hmiss.
  set (w1 := counted _ _ w).
  destruct (missList hashContent options (table w) texts 0) as [|pair pairs] eqn:Hpairs.
  - unfold w1. rewrite <- Hmiss. cbn [map inferred filter length].
    cbn [counted set_counters cacheHits cacheMisses inferenceCalls factoryCalls].
    split; [reflexivity|]. split; [reflexivity|]. split; [reflexivity|]. lia.
  - rewrite <- Hpairs in *. rewrite Hmiss.
    destruct (getEmbeddingPipeline_sameCacheSide attempt (onModelLoad options) w1)
      as (_ & _ & Hh & Hm & Hi & _).
    pose proof (acquired_factoryCalls attempt (onModelLoad options) w1) as Hf.
    cbn [set_table advance cacheHits cacheMisses inferenceCalls factoryCalls].
    rewrite Hh, Hm, Hi. unfold w1 in *.
    cbn [counted set_counters cacheHits cacheMisses inferenceCalls factoryCalls] in *.
    split; [reflexivity|]. split; [reflexivity|]. split; [reflexivity|]. exact Hf.
Qed.



Lemma tryCache_table hashContent options text w :
  table (snd (tryCache hashContent options text w)) = table w.
Proof.
  unfold tryCache, getCachedEmbedding. destruct (usesCache options); [|reflexivity].
  destruct (find _ (table w)) as [row|]; [|reflexivity].
  now destruct (dimensions row <=? length (embedding row)).
Qed.

Lemma checkCache_table hashContent options texts : forall i results toGen w,
  table (snd (checkCache hashContent options texts i results toGen w)) = table w.
Proof.
  induction texts as [|text texts IH]; intros i results toGen w; [reflexivity|].
  cbn [checkCache]. unfold bind.
  pose proof (tryCache_table hashContent options text w) as Htry.
  destruct (tryCache hashContent options text w) as [[[vector|]| | |] w1];
    cbn [snd] in *; try exact Htry; now rewrite IH.
Qed.

Lemma storeResults_primaryKey hashContent options pairs :
  forall generated i results w,
    primaryKey (table w) ->
    primaryKey (table (snd (storeResults hashContent options pairs generated i results w))).
Proof.
  induction pairs as [|[index text] pairs IH]; intros generated i results w Hpk;
    [exact Hpk|].
  cbn [storeResults]. unfold bind. destruct (usesCache options).
  - unfold cacheEmbedding. apply IH. cbn [table set_table].
    now apply primaryKey_insertOrReplace.
  - unfold ret. now apply IH.
Qed.

Lemma cacheState_table w w' : cacheState w' = cacheState w -> table w' = table w.
Proof. unfold cacheState. now intros [= -> _ _]. Qed.

(** X20. No call ever leaves two rows for one content hash: if the table
    respects its primary key, it still does after [cacheEmbedding],
    [invalidateCacheEntry], [clearCache], [clearOldCache] and after
    [generateEmbeddingCached] and [generateEmbeddingsCached], however they end
    (returned, failed, or cut short). *)
Theorem primary_key_is_kept :
  forall hashContent w,
    primaryKey (table w) ->
    (forall content embedding,
        primaryKey (table (snd (cacheEmbedding hashContent content embedding w)))) /\
    (forall content,
        primaryKey (table (snd (invalidateCacheEntry hashContent content w)))) /\
    primaryKey (table (snd (clearCache w))) /\
    primaryKey (table (snd (clearOldCache w))) /\
    (forall attempt text options,
        primaryKey
          (table (snd (generateEmbeddingCached hashContent attempt text options w)))) /\
    (forall fuel attempt texts options,
        primaryKey
          (table (snd (generateEmbeddingsCached hashContent fuel attempt texts options
                         w)))).
Proof.
  intros hashContent w Hpk.
  split; [intros; now apply primaryKey_insertOrReplace|].
  split; [intros; now apply primaryKey_filter|].
  split; [now apply primaryKey_filter|].
  split; [now apply primaryKey_filter|].
  split.
  - intros attempt text options. unfold generateEmbeddingCached, bind.
    pose proof (tryCache_table hashContent options text w) as Htry.
    destruct (tryCache hashContent options text w) as [[[vector|]| | |] w1];
      cbn [snd ret] in *; try (rewrite Htry; exact Hpk).
    pose proof (generateEmbedding_cacheState attempt text
                  (mkEmbedOptions (normalize options) (onModelLoad options)) w1) as Hgen.
    apply cacheState_table in Hgen.
    destruct (generateEmbedding attempt text _ w1) as [[v| | |] w2];
      cbn [snd] in *; try (rewrite Hgen, Htry; exact Hpk).
    destruct (usesCache options); cbn [cacheEmbedding ret snd table set_table].
    + apply primaryKey_insertOrReplace. rewrite Hgen, Htry. exact Hpk.
    + rewrite Hgen, Htry. exact Hpk.
  - intros fuel attempt texts options. unfold generateEmbeddingsCached.
    destruct texts as [|text0 rest0] eqn:Htexts; [exact Hpk|].
    rewrite <- Htexts. clear Htexts text0 rest0. unfold bind at 1.
    pose proof (checkCache_table hashContent options texts 0 [] [] w) as Hcheck.
    destruct (checkCache hashContent options texts 0 [] [] w)
      as [[[slots pairs]| | |] w1]; cbn [snd] in *; try (rewrite Hcheck; exact Hpk).
    destruct pairs as [|pair pairs]; [cbn [ret snd]; rewrite Hcheck; exact Hpk|].
    unfold bind.
    match goal with
    | |- context [generateEmbeddings ?f ?a ?t ?o ?w0] =>
        pose proof (generateEmbeddings_cacheState f a t o w0) as Hgen;
        destruct (generateEmbeddings f a t o w0) as [[generated| | |] w2]
    end; apply cacheState_table in Hgen; cbn [snd] in *;
      try (rewrite Hgen, Hcheck; exact Hpk).
    apply storeResults_primaryKey. rewrite Hgen, Hcheck. exact Hpk.
Qed.

(** X20 at work: the same new text twice in one batch, from the empty table. *)
Lemma primary_key_is_kept_witness :
  primaryKey
    (table (snd (generateEmbeddingsCached plainDigest 1 loadsFine [lit "a"; lit "a"]
                   defaults freshWorld))).
Proof.
  assert (Hpk : primaryKey (table freshWorld)) by constructor.
  exact (proj2 (proj2 (proj2 (proj2 (proj2
           (primary_key_is_kept plainDigest freshWorld Hpk))))) 1 loadsFine
           [lit "a"; lit "a"] defaults).
Defined.

(** ** generator.ts: cosine similarity *)

Lemma float_mul_comm (x y : number) : (x * y)%float = (y * x)%float.
Proof.
  apply Prim2SF_inj. rewrite !mul_spec. unfold SF64mul, SFmul.
  destruct (Prim2SF x) as [sx|sx| |sx mx ex], (Prim2SF y) as [sy|sy| |sy my ey];
    try reflexivity; try (now rewrite xorb_comm).
  now rewrite xorb_comm, Pos.mul_comm, Z.add_comm.
Qed.

Lemma cosine_sums_swap (a b : list number) l : forall dotProduct normA normB,
  fold_left
    (fun '(dotProduct, normA, normB) i =>
       ((dotProduct + at_ b i * at_ a i)%float,
        (normA + at_ b i * at_ b i)%float,
        (normB + at_ a i * at_ a i)%float))
    l (dotProduct, normB, normA)
  = let '(dotProduct', normA', normB') :=
      fold_left
        (fun '(dotProduct, normA, normB) i =>
           ((dotProduct + at_ a i * at_ b i)%float,
            (normA + at_ a i * at_ a i)%float,
            (normB + at_ b i * at_ b i)%float))
        l (dotProduct, normA, normB) in
    (dotProduct', normB', normA').
Proof.
  induction l as [|i l IH]; intros dotProduct normA normB; [reflexivity|].
  cbn [fold_left]. rewrite (float_mul_comm (at_ b i) (at_ a i)). apply IH.
Qed.

Lemma cosine_sums_zeros n l :
  (forall i, In i l -> i < n) ->
  fold_left
    (fun '(dotProduct, normA, normB) i =>
       ((dotProduct + at_ (zeros n) i * at_ (zeros n) i)%float,
        (normA + at_ (zeros n) i * at_ (zeros n) i)%float,
        (normB + at_ (zeros n) i * at_ (zeros n) i)%float))
    l (zero, zero, zero)
  = (zero, zero, zero).
Proof.
  induction l as [|i l IH]; intros Hbound; [reflexivity|]. cbn [fold_left].
  assert (Hi : at_ (zeros n) i = zero).
  { unfold at_, zeros. apply nth_error_nth. apply nth_error_repeat.
    apply Hbound. now left. }
  rewrite Hi. change (zero + zero * zero)%float with zero.
  apply IH. intros j Hj. apply Hbound. now right.
Qed.

(** X21. [cosineSimilarity] does not depend on the order of its arguments:
    for all arrays, of equal length or not, NaN and infinities included,
    [cosineSimilarity(a, b)] and [cosineSimilarity(b, a)] end the same way with
    the same number. And two zero vectors of the same length, as blank texts
    embed to, have similarity 0 and not NaN, empty arrays included. *)
Theorem cosineSimilarity_is_symmetric :
  (forall a b, cosineSimilarity a b = cosineSimilarity b a) /\
  (forall n, cosineSimilarity (zeros n) (zeros n) = inr zero).
Proof.
  split.
  - intros a b. unfold cosineSimilarity. rewrite (Nat.eqb_sym (length b) (length a)).
    destruct (Nat.eqb_spec (length a) (length b)) as [Hlen|Hlen]; [|reflexivity].
    cbn [negb]. rewrite <- Hlen.
    rewrite (cosine_sums_swap a b (seq 0 (length a)) zero zero zero).
    destruct (fold_left _ (seq 0 (length a)) (zero, zero, zero))
      as [[dotProduct normA] normB].
    now rewrite (float_mul_comm (PrimFloat.sqrt normB) (PrimFloat.sqrt normA)).
  - intros n. unfold cosineSimilarity. rewrite Nat.eqb_refl. cbn [negb].
    replace (length (zeros n)) with n by (symmetry; apply repeat_length).
    rewrite cosine_sums_zeros; [reflexivity|].
    intros i Hi. now apply in_seq in Hi.
Qed.

(** ** Batch size, the model directory, and repeated texts *)

Lemma ensureModelCacheDir_exists w : cacheDirExists (ensureModelCacheDir w) = true.
Proof. unfold ensureModelCacheDir. now destruct (cacheDirExists w) eqn:H. Qed.

Lemma notify_cacheDirExists cb ev w :
  cacheDirExists (notify cb ev w) = cacheDirExists w.
Proof. now destruct cb. Qed.

Lemma notifyAll_cacheDirExists cb evs w :
  cacheDirExists (fold_left (fun w ev => notify cb ev w) evs w) = cacheDirExists w.
Proof.
  revert w. induction evs as [|ev evs IH]; intros w; [reflexivity|].
  cbn [fold_left]. now rewrite IH, notify_cacheDirExists.
Qed.

Lemma forward_cacheDirExists cb ps w :
  cacheDirExists
    (fold_left (fun w p => fold_left (fun w ev => notify cb ev w) (downloadProgress p) w)
               ps w)
  = cacheDirExists w.
Proof.
  revert w. induction ps as [|p ps IH]; intros w; [reflexivity|].
  cbn [fold_left]. now rewrite IH, notifyAll_cacheDirExists.
Qed.

(** X23. The model directory is created by loads only: a call of
    [getEmbeddingPipeline] that starts a load leaves the directory in place,
    having created it before the factory runs and so also when the load fails;
    a call that is served from memory, rethrows the stored error or finds a
    load in flight does not touch the file system. [ensureModelCacheDir] never
    removes the directory and does nothing when it exists. *)
Theorem model_directory_is_created_by_loads_only :
  forall attempt cb w,
    cacheDirExists (snd (getEmbeddingPipeline attempt cb w))
    = (cacheDirExists w || startsLoad w) /\
    cacheDirExists (ensureModelCacheDir w) = true /\
    ensureModelCacheDir (ensureModelCacheDir w) = ensureModelCacheDir w.
Proof.
  intros attempt cb w. split; [|split].
  - unfold getEmbeddingPipeline, startsLoad.
    destruct (embeddingPipeline (loader w)); [now rewrite orb_false_r|].
    destruct (loadError (loader w)); [now rewrite orb_false_r|].
    destruct (isLoading (loader w)); [now rewrite orb_false_r|].
    cbn [negb]. rewrite orb_true_r.
    destruct (outcome attempt) as [instance|thrown]; cbn [snd].
    + change (cacheDirExists (set_isLoading false ?x)) with (cacheDirExists x).
      rewrite notify_cacheDirExists.
      change (cacheDirExists (set_embeddingPipeline ?p ?x)) with (cacheDirExists x).
      rewrite forward_cacheDirExists.
      change (cacheDirExists (count_factoryCall ?x)) with (cacheDirExists x).
      rewrite notify_cacheDirExists. apply ensureModelCacheDir_exists.
    + rewrite notify_cacheDirExists.
      change (cacheDirExists (set_isLoading false ?x)) with (cacheDirExists x).
      change (cacheDirExists (set_loadError ?p ?x)) with (cacheDirExists x).
      rewrite forward_cacheDirExists.
      change (cacheDirExists (count_factoryCall ?x)) with (cacheDirExists x).
      rewrite notify_cacheDirExists. apply ensureModelCacheDir_exists.
  - apply ensureModelCacheDir_exists.
  - unfold ensureModelCacheDir at 1. now rewrite ensureModelCacheDir_exists.
Qed.

(** X24. [generateEmbeddingsCached] does not look at what it has just
    computed: a text that is not cached and occurs twice in the list misses
    twice, is embedded twice (unless it is blank) and is written twice into
    one row, and both positions hold the same freshly computed vector. *)
Theorem repeated_text_is_embedded_twice :
  forall hashContent fuel attempt text options w pipeline,
    usesCache options = true ->
    find (keyed (hashContent text) MODEL_NAME) (table w) = None ->
    readable (table w) ->
    validBatchSize (batchSize options) ->
    available attempt w pipeline ->
    2 <= fuel ->
    let v := embedItem pipeline (normalize options) text in
    let (r, w') := generateEmbeddingsCached hashContent fuel attempt [text; text] options w in
    r = Returns [Some v; Some v] /\
    (cacheHits w', cacheMisses w') = (cacheHits w, 2 + cacheMisses w) /\
    inferenceCalls w' = (if isBlank text then 0 else 2) + inferenceCalls w /\
    filter (ofHash (hashContent text)) (table w')
    = [mkRow (hashContent text) (map fround v) MODEL_NAME MODEL_DIMENSIONS (clock w)].
Proof.
  intros hashContent fuel attempt text options w pipeline Hon Hmiss Hread Hvalid
    Havailable Hfuel v.
  assert (Hprobe : probe hashContent options (table w) text = None)
    by (unfold probe; now rewrite Hon, Hmiss).
  rewrite (generateEmbeddingsCached_returns hashContent fuel attempt [text; text] options
             w pipeline); try assumption; try discriminate.
  assert (Hhit : isHit hashContent options (table w) text = false)
    by (unfold isHit; now rewrite Hprobe).
  destruct (afterBatch_counts hashContent attempt pipeline options [text; text] w Hon)
    as (Hh & Hm & Hi & _).
  unfold hitsOf, missesOf in Hh, Hm, Hi. cbn [filter] in Hh, Hm, Hi.
  rewrite Hhit in Hh, Hm, Hi. cbn [negb length filter inferred] in Hh, Hm, Hi.
  split; [|split; [|split]].
  - cbn [map]. unfold expected. now rewrite Hprobe.
  - now rewrite Hh, Hm.
  - rewrite Hi. now destruct (isBlank text).
  - rewrite afterBatch_table, Hon. cbn [missList]. rewrite Hprobe.
    unfold storedRows. cbn [fold_left snd].
    apply (filter_insertOrReplace_same
             (rowFor hashContent (clock w) text v)).
Qed.

(** X24 at work: "twice" given twice. *)
Lemma repeated_text_is_embedded_twice_witness :
  let run := generateEmbeddingsCached plainDigest 2 loadsFine
               [lit "twice"; lit "twice"] defaults freshWorld in
  fst run = Returns [Some (embedItem mockPipeline None (lit "twice"));
                     Some (embedItem mockPipeline None (lit "twice"))] /\
  inferenceCalls (snd run) = 2.
Proof.
  intros run.
  pose proof (repeated_text_is_embedded_twice plainDigest 2 loadsFine (lit "twice")
                defaults freshWorld mockPipeline eq_refl eq_refl) as H.
  cbv zeta in H. fold run in H. destruct run as [r w'].
  destruct H as (Hr & _ & Hi & _).
  - constructor.
  - unfold validBatchSize. cbn. lia.
  - right. split; reflexivity.
  - lia.
  - split; [exact Hr|exact Hi].
Defined.

(** The rounding of X1 and X17 is visible: some component of the normalised
    embedding of "hello" is not a binary32 number. *)
Example rounding_changes_the_normalised_vector :
  existsb (fun x => negb (PrimFloat.eqb (fround x) x))
          (embedItem mockPipeline None (lit "hello")) = true.
Proof. vm_compute. reflexivity. Qed.









(* ================================================================= *)
(** * The sources as they are called: any observer, any batch size *)

(** ** model-loader.ts with observers that may throw *)

Lemma notifyT_loader cb ev w :
  loader (snd (Observers.notify cb ev w)) = loader w.
Proof. now destruct cb. Qed.

Lemma notifyT_factoryCalls cb ev w :
  factoryCalls (snd (Observers.notify cb ev w)) = factoryCalls w.
Proof. now destruct cb. Qed.

Lemma notifyEachT_frame cb evs : forall w,
  loader (snd (Observers.notifyEach cb evs w)) = loader w /\
  factoryCalls (snd (Observers.notifyEach cb evs w)) = factoryCalls w.
Proof.
  induction evs as [|ev evs IH]; intros w; [now split|]. cbn [Observers.notifyEach].
  pose proof (notifyT_loader cb ev w) as Hl.
  pose proof (notifyT_factoryCalls cb ev w) as Hf.
  destruct (Observers.notify cb ev w) as [[t|] w1]; cbn [snd] in *; [now split|].
  destruct (IH w1) as [Hl1 Hf1]. now rewrite Hl1, Hf1.
Qed.

Lemma forwardT_frame cb ps : forall w,
  loader (snd (Observers.forward cb ps w)) = loader w /\
  factoryCalls (snd (Observers.forward cb ps w)) = factoryCalls w.
Proof.
  induction ps as [|p ps IH]; intros w; [now split|]. cbn [Observers.forward].
  destruct (notifyEachT_frame cb (downloadProgress p) w) as [Hl Hf].
  destruct (Observers.notifyEach cb (downloadProgress p) w) as [[t|] w1];
    cbn [snd] in *; [now split|].
  destruct (IH w1) as [Hl1 Hf1]. now rewrite Hl1, Hf1.
Qed.

(** What the [try] block leaves: an instance returned is an instance
    assigned; an exception leaves the instance assigned only when the
    observer threw on [ready]. *)
Lemma attemptLoad_cases attempt cb w :
  let (r, w') := Observers.attemptLoad attempt cb w in
  factoryCalls w <= factoryCalls w' <= S (factoryCalls w) /\
  (Observers.silentOn loading cb -> factoryCalls w' = S (factoryCalls w)) /\
  loadError (loader w') = loadError (loader w) /\
  match r with
  | inl instance =>
      outcome attempt = inl instance /\
      factoryCalls w' = S (factoryCalls w) /\
      loader w' = mkLoader (Some instance) false (loadError (loader w))
  | inr t =>
      isLoading (loader w') = isLoading (loader w) /\
      (embeddingPipeline (loader w') = embeddingPipeline (loader w) \/
       exists instance callback,
         outcome attempt = inl instance /\ cb = Some callback /\
         Observers.thrown (callback (statusOnly ready)) = Some t /\
         embeddingPipeline (loader w') = Some instance)
  end.
Proof.
  unfold Observers.attemptLoad.
  pose proof (notifyT_loader cb (statusOnly loading) w) as Hl0.
  pose proof (notifyT_factoryCalls cb (statusOnly loading) w) as Hf0.
  destruct (Observers.notify cb (statusOnly loading) w) as [[t0|] w0] eqn:Hn0;
    cbn [snd] in *.
  { split; [lia|]. split.
    - intros Hquiet. destruct cb as [callback|]; [|discriminate].
      cbn in Hn0. rewrite (Hquiet callback eq_refl) in Hn0. discriminate.
    - split; [now rewrite Hl0|]. split; [now rewrite Hl0|left; now rewrite Hl0]. }
  destruct (forwardT_frame cb (notifications attempt) (count_factoryCall w0)) as [Hl1 Hf1].
  destruct (Observers.forward cb (notifications attempt) (count_factoryCall w0))
    as [[t1|] w1]; cbn [snd] in *.
  { cbn in Hl1, Hf1. split; [lia|]. split; [intros _; lia|].
    split; [now rewrite Hl1, Hl0|]. split; [now rewrite Hl1, Hl0|left; now rewrite Hl1, Hl0]. }
  cbn in Hl1, Hf1.
  destruct (outcome attempt) as [instance|t2] eqn:Hout.
  2:{ split; [lia|]. split; [intros _; lia|].
      split; [now rewrite Hl1, Hl0|]. split; [now rewrite Hl1, Hl0|left; now rewrite Hl1, Hl0]. }
  pose proof (notifyT_loader cb (statusOnly ready) (set_embeddingPipeline (Some instance) w1))
    as Hl2.
  pose proof (notifyT_factoryCalls cb (statusOnly ready)
                (set_embeddingPipeline (Some instance) w1)) as Hf2.
  destruct (Observers.notify cb (statusOnly ready) (set_embeddingPipeline (Some instance) w1))
    as [[t3|] w3] eqn:Hn3; cbn [snd] in *; cbn in Hl2, Hf2.
  - split; [lia|]. split; [intros _; lia|]. rewrite Hl2. cbn. rewrite Hl1, Hl0.
    split; [reflexivity|]. split; [reflexivity|]. right.
    destruct cb as [callback|]; [|discriminate]. cbn in Hn3.
    exists instance, callback. injection Hn3 as Ht _. now rewrite Ht.
  - cbn. rewrite Hl2. cbn. rewrite Hl1, Hl0. split; [lia|]. split; [intros _; lia|].
    split; [reflexivity|]. split; [reflexivity|]. split; [lia|reflexivity].
Qed.

Lemma early_exit attempt cb w :
  startsLoad w = false ->
  Observers.getEmbeddingPipeline attempt cb w = (Observers.earlyExit w, w).
Proof.
  unfold startsLoad, Observers.getEmbeddingPipeline, Observers.earlyExit.
  destruct (embeddingPipeline (loader w)); [reflexivity|].
  destruct (loadError (loader w)); [reflexivity|].
  now destruct (isLoading (loader w)).
Qed.

Lemma early_exits calls : forall w,
  startsLoad w = false ->
  Observers.acquireAll calls w = (map (fun _ => Observers.earlyExit w) calls, w).
Proof.
  induction calls as [|[attempt cb] calls IH]; intros w Hw; [reflexivity|].
  cbn [Observers.acquireAll map]. rewrite early_exit by exact Hw.
  now rewrite IH by exact Hw.
Qed.

(** Every call leaves the loader where no later call starts a load; what it
    answers is what the later calls answer, unless its observer threw on
    [ready] or on [error]. *)
Lemma call_settles_with_observers attempt cb w :
  let (r, w') := Observers.getEmbeddingPipeline attempt cb w in
  startsLoad w' = false /\
  isLoading (loader w') = isLoading (loader w) /\
  factoryCalls w <= factoryCalls w' <= (if startsLoad w then 1 else 0) + factoryCalls w /\
  (startsLoad w = true -> Observers.silentOn loading cb ->
   factoryCalls w' = S (factoryCalls w)) /\
  (r = Observers.Waiting -> isLoading (loader w) = true) /\
  (forall instance, r = Observers.Resolved instance ->
                    Observers.earlyExit w' = r) /\
  (forall reason, r = Observers.Rejected reason ->
     (Observers.silentOn ready cb -> embeddingPipeline (loader w') = None) /\
     (forall t, outcome attempt = inr t -> embeddingPipeline (loader w') = None) /\
     exists e, loadError (loader w') = Some e /\
               (Observers.silentOn error cb -> reason = ThrownError e)) /\
  (Observers.silentOn ready cb -> Observers.silentOn error cb ->
   Observers.earlyExit w' = r).
Proof.
  destruct (startsLoad w) eqn:Hstart.
  2:{ rewrite (early_exit attempt cb w Hstart).
      split; [exact Hstart|]. split; [reflexivity|]. split; [lia|].
      split; [discriminate|].
      unfold startsLoad in Hstart. unfold Observers.earlyExit.
      destruct (embeddingPipeline (loader w)) as [instance|].
      { split; [discriminate|]. split; [reflexivity|]. split; [discriminate|reflexivity]. }
      destruct (loadError (loader w)) as [e|].
      { split; [discriminate|]. split; [discriminate|]. split; [|reflexivity].
        intros reason [= <-]. split; [reflexivity|]. split; [reflexivity|].
        exists e. split; reflexivity. }
      destruct (isLoading (loader w)); [|discriminate].
      split; [reflexivity|]. split; [discriminate|]. split; [discriminate|reflexivity]. }
  apply startsLoad_spec in Hstart. destruct Hstart as (Hp & He & Hl).
  unfold Observers.getEmbeddingPipeline. rewrite Hp, He, Hl.
  pose proof (attemptLoad_cases attempt cb (ensureModelCacheDir (set_isLoading true w)))
    as Hcases.
  assert (Hfc : factoryCalls (ensureModelCacheDir (set_isLoading true w)) = factoryCalls w).
  { unfold ensureModelCacheDir. now destruct (cacheDirExists _). }
  assert (Hld : loader (ensureModelCacheDir (set_isLoading true w))
                = mkLoader None true None).
  { unfold ensureModelCacheDir. destruct (cacheDirExists _); cbn;
      now rewrite Hp, He. }
  destruct (Observers.attemptLoad attempt cb (ensureModelCacheDir (set_isLoading true w)))
    as [[instance|t] w1].
  - destruct Hcases as (Hle & Hcount & Herr & Hout & Hone & Hloader).
    rewrite Hfc in *. rewrite Hld in *. cbn in Hloader.
    unfold startsLoad, Observers.earlyExit. rewrite Hloader. cbn.
    split; [reflexivity|]. split; [reflexivity|]. split; [lia|].
    split; [intros _ _; exact Hone|]. split; [discriminate|].
    split; [reflexivity|]. split; [discriminate|reflexivity].
  - destruct Hcases as (Hle & Hcount & Herr & Hloading & Hinstance).
    rewrite Hfc in *. rewrite Hld in *. cbn in Hloading, Hinstance, Herr.
    set (w2 := set_isLoading false (set_loadError (Some (toError t)) w1)).
    assert (Hl2 : loader w2 = mkLoader (embeddingPipeline (loader w1)) false
                                       (Some (toError t))) by reflexivity.
    assert (Hf2 : factoryCalls w2 = factoryCalls w1) by reflexivity.
    pose proof (notifyT_loader cb (statusOnly error) w2) as Hl3.
    pose proof (notifyT_factoryCalls cb (statusOnly error) w2) as Hf3.
    assert (Hnone : Observers.silentOn ready cb -> embeddingPipeline (loader w1) = None).
    { intros Hready. destruct Hinstance as [Hsame|(i & callback & _ & Hcb & Ht & _)];
        [exact Hsame|]. rewrite (Hready callback Hcb) in Ht. discriminate. }
    assert (Hfail : forall t', outcome attempt = inr t' ->
                               embeddingPipeline (loader w1) = None).
    { intros t' Hout. destruct Hinstance as [Hsame|(i & callback & Hi & _)];
        [exact Hsame|]. rewrite Hout in Hi. discriminate. }
    destruct (Observers.notify cb (statusOnly error) w2) as [[t'|] w3] eqn:Hn3;
      cbn [snd] in *; unfold startsLoad, Observers.earlyExit; rewrite Hl3, Hl2; cbn.
    + split; [now destruct (embeddingPipeline (loader w1))|].
      split; [reflexivity|]. split; [lia|]. split; [intros _ Hs; rewrite Hf3, Hf2; auto|].
      split; [discriminate|]. split; [discriminate|]. split.
      * intros reason [= <-]. split; [exact Hnone|]. split; [exact Hfail|].
        exists (toError t). split; [reflexivity|]. intros Herror.
        destruct cb as [callback|]; [|discriminate]. cbn in Hn3.
        rewrite (Herror callback eq_refl) in Hn3. discriminate.
      * intros _ Herror. destruct cb as [callback|]; [|discriminate]. cbn in Hn3.
        rewrite (Herror callback eq_refl) in Hn3. discriminate.
    + split; [now destruct (embeddingPipeline (loader w1))|].
      split; [reflexivity|]. split; [lia|]. split; [intros _ Hs; rewrite Hf3, Hf2; auto|].
      split; [discriminate|]. split; [discriminate|]. split.
      * intros reason [= <-]. split; [exact Hnone|]. split; [exact Hfail|].
        exists (toError t). split; reflexivity.
      * intros Hready _. now rewrite (Hnone Hready).
Qed.

(** *** Observers that do not throw *)

Lemma notifyT_quiet callback ev w :
  Observers.thrown (callback ev) = None ->
  Observers.notify (Some callback) ev w
  = (None, notify (Some (Observers.heard callback)) ev w).
Proof. intros Hq. unfold Observers.notify, notify, Observers.heard. now rewrite Hq. Qed.

Lemma notifyEachT_quiet callback evs : forall w,
  Observers.quiet callback ->
  Observers.notifyEach (Some callback) evs w
  = (None, fold_left (fun w ev => notify (Some (Observers.heard callback)) ev w) evs w).
Proof.
  induction evs as [|ev evs IH]; intros w Hq; [reflexivity|].
  cbn [Observers.notifyEach fold_left]. rewrite notifyT_quiet by apply Hq.
  now apply IH.
Qed.

Lemma forwardT_quiet callback ps : forall w,
  Observers.quiet callback ->
  Observers.forward (Some callback) ps w
  = (None, fold_left
             (fun w p => fold_left
                           (fun w ev => notify (Some (Observers.heard callback)) ev w)
                           (downloadProgress p) w) ps w).
Proof.
  induction ps as [|p ps IH]; intros w Hq; [reflexivity|].
  cbn [Observers.forward fold_left]. rewrite notifyEachT_quiet by exact Hq.
  now apply IH.
Qed.

Lemma notifyEachT_none evs : forall w, Observers.notifyEach None evs w = (None, w).
Proof. induction evs as [|ev evs IH]; intros w; [reflexivity|apply IH]. Qed.

Lemma forwardT_none ps : forall w, Observers.forward None ps w = (None, w).
Proof.
  induction ps as [|p ps IH]; intros w; [reflexivity|].
  cbn [Observers.forward]. rewrite notifyEachT_none. apply IH.
Qed.

(** [ModelLoader.getEmbeddingPipeline] is [Observers.getEmbeddingPipeline]
    for observers that do not throw. *)
Lemma quiet_observer_refines attempt callback w :
  Observers.quiet callback ->
  Observers.getEmbeddingPipeline attempt (Some callback) w
  = Observers.settled
      (getEmbeddingPipeline attempt (Some (Observers.heard callback)) w).
Proof.
  intros Hq. unfold Observers.getEmbeddingPipeline, getEmbeddingPipeline.
  destruct (embeddingPipeline (loader w)); [reflexivity|].
  destruct (loadError (loader w)); [reflexivity|].
  destruct (isLoading (loader w)); [reflexivity|].
  unfold Observers.attemptLoad.
  rewrite notifyT_quiet by apply Hq. rewrite forwardT_quiet by exact Hq.
  destruct (outcome attempt) as [instance|t].
  - now rewrite notifyT_quiet by apply Hq.
  - now rewrite notifyT_quiet by apply Hq.
Qed.

Lemma no_observer_refines attempt w :
  Observers.getEmbeddingPipeline attempt None w
  = Observers.settled (getEmbeddingPipeline attempt None w).
Proof.
  unfold Observers.getEmbeddingPipeline, getEmbeddingPipeline.
  destruct (embeddingPipeline (loader w)); [reflexivity|].
  destruct (loadError (loader w)); [reflexivity|].
  destruct (isLoading (loader w)); [reflexivity|].
  unfold Observers.attemptLoad. cbn [Observers.notify]. rewrite forwardT_none.
  rewrite forward_unobserved.
  now destruct (outcome attempt).
Qed.

Lemma downloadProgress_event p :
  downloadProgress p
  = if String.eqb (fp_status p) "download" then [Observers.downloadingEvent p] else [].
Proof.
  unfold downloadProgress, Observers.downloadingEvent.
  destruct (String.eqb (fp_status p) "download"%string); [|reflexivity].
  destruct (fp_total p) as [t|]; [|reflexivity]. unfold truthy, orZero.
  destruct (isZero t), (is_nan t); cbn [negb andb orb]; try reflexivity.
  destruct (fp_loaded p) as [l|]; [|reflexivity]. unfold truthy.
  now destruct (isZero l), (is_nan l).
Qed.

Lemma downloadProgress_events ps :
  flat_map downloadProgress ps
  = map Observers.downloadingEvent
        (filter (fun p => String.eqb (fp_status p) "download"%string) ps).
Proof.
  induction ps as [|p ps IH]; [reflexivity|]. cbn [flat_map filter].
  rewrite downloadProgress_event, IH.
  now destruct (String.eqb (fp_status p) "download"%string).
Qed.

(** C7. When the call of [getEmbeddingPipeline] that starts a load finds the
    model failing to initialise, the call rejects and stores an error, no
    instance is kept, and that stored error is sticky: every later call,
    whatever the factory would now do and whatever observer it is given,
    rejects with that same error and changes nothing (no new initialisation),
    for as long as [unloadModel] is not called. The stored error is the
    factory's, unless the observer threw before the factory was done; the
    first call rejects with it too, unless the observer throws on [error].
    [unloadModel] resets the loader to its initial state, so that the next
    call starts a fresh load, invoking the factory again unless its observer
    throws on [loading]. *)
Theorem load_failure_is_sticky_until_unload :
  forall (w w1 : World) (attempt : LoadAttempt)
         (cb : option Observers.ProgressCallback) (failure : Thrown)
         (r : Observers.Settlement EmbeddingPipeline),
    startsLoad w = true ->
    outcome attempt = inr failure ->
    Observers.getEmbeddingPipeline attempt cb w = (r, w1) ->
    exists e reason,
      r = Observers.Rejected reason /\
      (Observers.silentOn error cb -> reason = ThrownError e) /\
      ((forall callback, cb = Some callback -> Observers.quiet callback) ->
       e = toError failure) /\
      embeddingPipeline (loader w1) = None /\
      loadError (loader w1) = Some e /\
      (forall calls,
          Observers.acquireAll calls w1
          = (map (fun _ => Observers.Rejected (ThrownError e)) calls, w1)) /\
      loader (unloadModel w1) = initialLoader /\
      (forall attempt' cb',
          startsLoad (unloadModel w1) = true /\
          (Observers.silentOn loading cb' ->
           factoryCalls (snd (Observers.getEmbeddingPipeline attempt' cb' (unloadModel w1)))
           = S (factoryCalls w1))).
Proof.
  intros w w1 attempt cb failure r Hstart Hout Hcall.
  pose proof (call_settles_with_observers attempt cb w) as Hsettles.
  rewrite Hcall in Hsettles.
  destruct Hsettles as (Hidle & _ & _ & _ & Hwait & Hres & Hrej & _).
  assert (Hr : exists reason, r = Observers.Rejected reason).
  { apply startsLoad_spec in Hstart. destruct Hstart as (Hp & He & Hl).
    unfold Observers.getEmbeddingPipeline in Hcall. rewrite Hp, He, Hl in Hcall.
    pose proof (attemptLoad_cases attempt cb (ensureModelCacheDir (set_isLoading true w)))
      as Hcases.
    destruct (Observers.attemptLoad attempt cb _) as [[instance|t] w0].
    - destruct Hcases as (_ & _ & _ & Hi & _). congruence.
    - destruct (Observers.notify cb (statusOnly error) _) as [[t'|] w3];
        injection Hcall as <- _; eauto. }
  destruct Hr as [reason ->].
  destruct (Hrej reason eq_refl) as (_ & Hnone & e & He & Hreason).
  specialize (Hnone failure Hout).
  exists e, reason. split; [reflexivity|]. split; [exact Hreason|].
  split.
  { intros Hquiet. destruct cb as [callback|].
    - rewrite (quiet_observer_refines attempt callback w (Hquiet callback eq_refl)) in Hcall.
      apply startsLoad_spec in Hstart. destruct Hstart as (Hp & Hl & Hi).
      pose proof (fresh_load attempt (Some (Observers.heard callback)) w Hp Hl Hi) as Hfresh.
      destruct (getEmbeddingPipeline attempt _ w) as [r0 w0].
      destruct Hfresh as [_ Hfresh]. rewrite Hout in Hfresh.
      destruct Hfresh as [-> Hloader]. cbn in Hcall. injection Hcall as _ <-.
      rewrite Hloader in He. cbn in He. congruence.
    - rewrite no_observer_refines in Hcall.
      apply startsLoad_spec in Hstart. destruct Hstart as (Hp & Hl & Hi).
      pose proof (fresh_load attempt None w Hp Hl Hi) as Hfresh.
      destruct (getEmbeddingPipeline attempt _ w) as [r0 w0].
      destruct Hfresh as [_ Hfresh]. rewrite Hout in Hfresh.
      destruct Hfresh as [-> Hloader]. cbn in Hcall. injection Hcall as _ <-.
      rewrite Hloader in He. cbn in He. congruence. }
  split; [exact Hnone|]. split; [exact He|]. split.
  { intros calls. rewrite early_exits by exact Hidle.
    unfold Observers.earlyExit. now rewrite Hnone, He. }
  split; [reflexivity|].
  intros attempt' cb'. split; [reflexivity|]. intros Hsilent.
  pose proof (call_settles_with_observers attempt' cb' (unloadModel w1)) as Hnext.
  destruct (Observers.getEmbeddingPipeline attempt' cb' (unloadModel w1)) as [r2 w2].
  destruct Hnext as (_ & _ & _ & Hcount & _). cbn [snd].
  now apply Hcount.
Qed.

(** C7 at work: the factory fails, the observer throws on [error] as well;
    the call rejects with the observer's exception, later calls with the
    factory's. *)
Lemma load_failure_is_sticky_witness :
  let cb := Some (Observers.throwsOn error (ThrownOther "observer failed")) in
  let w1 := snd (Observers.getEmbeddingPipeline loadFails cb freshWorld) in
  exists e reason,
    @Observers.Rejected EmbeddingPipeline (ThrownOther "observer failed")
    = Observers.Rejected reason /\
    (Observers.silentOn error cb -> reason = ThrownError e) /\
    ((forall callback, cb = Some callback -> Observers.quiet callback) ->
     e = toError (ThrownError (mkError "model unavailable"))) /\
    embeddingPipeline (loader w1) = None /\
    loadError (loader w1) = Some e /\
    (forall calls,
        Observers.acquireAll calls w1
        = (map (fun _ => Observers.Rejected (ThrownError e)) calls, w1)) /\
    loader (unloadModel w1) = initialLoader /\
    (forall attempt' cb',
        startsLoad (unloadModel w1) = true /\
        (Observers.silentOn loading cb' ->
         factoryCalls (snd (Observers.getEmbeddingPipeline attempt' cb' (unloadModel w1)))
         = S (factoryCalls w1))).
Proof.
  intros cb w1.
  apply (load_failure_is_sticky_until_unload freshWorld w1 loadFails cb
           (ThrownError (mkError "model unavailable"))
           (Observers.Rejected (ThrownOther "observer failed")));
    reflexivity.
Defined.

(** Where stickiness ends: the model initialises, and the observer throws
    when it is told [ready]. The call rejects and the error is stored, but the
    instance was assigned before, so the next call returns it. *)
Example observer_failure_on_ready_is_not_replayed :
  let cb := Some (Observers.throwsOn ready (ThrownOther "observer failed")) in
  let first := Observers.getEmbeddingPipeline loadsFine cb freshWorld in
  fst first = Observers.Rejected (ThrownError (mkError "observer failed")) /\
  loadError (loader (snd first)) = Some (mkError "observer failed") /\
  isModelLoaded (snd first) = true /\
  factoryCalls (snd first) = 1 /\
  Observers.getEmbeddingPipeline loadFails None (snd first)
  = (Observers.Resolved mockPipeline, snd first).
Proof. cbv zeta. split; [|split; [|split; [|split]]]; reflexivity. Qed.

(** Nor is the factory invoked at all when the observer throws on [loading];
    the error stored is the observer's, and it is sticky. *)
Example observer_failure_on_loading_is_replayed :
  let cb := Some (Observers.throwsOn loading (ThrownOther "observer failed")) in
  let first := Observers.getEmbeddingPipeline loadsFine cb freshWorld in
  fst first = Observers.Rejected (ThrownError (mkError "observer failed")) /\
  factoryCalls (snd first) = 0 /\
  Observers.getEmbeddingPipeline loadsFine None (snd first)
  = (Observers.Rejected (ThrownError (mkError "observer failed")), snd first).
Proof. cbv zeta. split; [|split]; reflexivity. Qed.

(** X8. An [onProgress] observer of [getEmbeddingPipeline] that does not
    throw is an observer only: with or without it the call ends the same way
    and leaves the same loader, directory and counters. What it is handed is
    nothing at all unless this call starts the load, and then [loading] first,
    one [downloading] event for each [download] notification of the factory,
    in order, and [ready] or [error] last. *)
Theorem load_progress_is_only_observed :
  forall attempt callback w,
    Observers.quiet callback ->
    let (r, w') := Observers.getEmbeddingPipeline attempt None w in
    Observers.getEmbeddingPipeline attempt (Some callback) w
    = (r, observe_load
            (flat_map (Observers.heard callback)
                      (if startsLoad w then Observers.loadEvents attempt else [])) w').
Proof.
  intros attempt callback w Hq.
  rewrite no_observer_refines, (quiet_observer_refines attempt callback w Hq).
  assert (Hsame : forall cb, 
    getEmbeddingPipeline attempt (Some cb) w
    = (fst (getEmbeddingPipeline attempt None w),
       observe_load (flat_map cb (if startsLoad w then Observers.loadEvents attempt else []))
                    (snd (getEmbeddingPipeline attempt None w)))).
  { intros cb. destruct w as [[p l e] d tb ck h m fc ic lt pt].
    unfold getEmbeddingPipeline, startsLoad.
    cbn [loader embeddingPipeline loadError isLoading].
    destruct p as [instance|]; [now rewrite observe_load_nil|].
    destruct e as [e|]; [now rewrite observe_load_nil|].
    destruct l; [now rewrite observe_load_nil|].
    cbn [negb]. rewrite forward_observed, forward_unobserved.
    rewrite downloadProgress_events. unfold Observers.loadEvents.
    cbn [flat_map]. rewrite flat_map_app. cbn [flat_map]. rewrite app_nil_r.
    set (downloads := flat_map cb (map Observers.downloadingEvent _)).
    change (LoadProgress.make loading None None None None) with (statusOnly loading).
    set (first := cb (statusOnly loading)).
    destruct (outcome attempt) as [instance|thrown]; destruct d;
      cbv [notify observe_load set_isLoading set_embeddingPipeline set_loadError
           set_loader count_factoryCall ensureModelCacheDir set_cacheDirExists
           loader cacheDirExists table clock cacheHits cacheMisses factoryCalls
           inferenceCalls loadTrace progressTrace embeddingPipeline isLoading loadError
           fst snd statusOnly];
      rewrite <- !app_assoc; reflexivity. }
  rewrite Hsame.
  destruct (getEmbeddingPipeline attempt None w) as [[a|e| |] w0]; reflexivity.
Qed.

(** X8 at work: of five notifications of the factory the three [download]
    ones reach a recording observer, between [loading] and [ready]; 50 of 200
    bytes is progress 0.25, no [loaded] is progress 0, and a [total] of 0
    leaves [progress] out. *)
Lemma load_progress_is_only_observed_witness :
  (let (r, w') := Observers.getEmbeddingPipeline Observers.downloads None freshWorld in
   Observers.getEmbeddingPipeline Observers.downloads (Some Observers.recorder) freshWorld
   = (r, observe_load
           (flat_map (Observers.heard Observers.recorder)
                     (if startsLoad freshWorld
                      then Observers.loadEvents Observers.downloads else [])) w')) /\
  loadTrace (snd (Observers.getEmbeddingPipeline Observers.downloads
                    (Some Observers.recorder) freshWorld))
  = [ LoadProgress.make loading None None None None;
      LoadProgress.make downloading (Some 0.25%float) (Some "model.onnx"%string)
                        (Some (ofZ 50)) (Some (ofZ 200));
      LoadProgress.make downloading (Some zero) (Some "model.onnx"%string)
                        None (Some (ofZ 200));
      LoadProgress.make downloading None (Some "vocab.txt"%string)
                        (Some (ofZ 7)) (Some zero);
      LoadProgress.make ready None None None None ].
Proof.
  split.
  - apply (load_progress_is_only_observed Observers.downloads Observers.recorder freshWorld).
    intros ev. reflexivity.
  - vm_compute. reflexivity.
Defined.


(* ================================================================= *)
(** * Integers in binary64 *)

(** Below 2^53 the integers are binary64 numbers, and their addition and
    comparison are exact: what makes a loop index an integer as long as the
    batch size is one. *)

Local Open Scope Z_scope.

Lemma digits2_size p : digits2_pos p = Pos.size p.
Proof. induction p; cbn; now rewrite ?IHp. Qed.

Lemma size_bounds p : 2 ^ (Zpos (Pos.size p) - 1) <= Zpos p < 2 ^ Zpos (Pos.size p).
Proof.
  split.
  - pose proof (Pos.size_le p) as H.
    assert (H' : 2 ^ Zpos (Pos.size p) <= 2 * Zpos p).
    { change (2 * Zpos p) with (Zpos p~0). rewrite <- Pos2Z.inj_pow. now apply Pos2Z.pos_le_pos. }
    replace (Zpos (Pos.size p)) with (Zpos (Pos.size p) - 1 + 1) in H' by lia.
    rewrite Z.pow_add_r in H' by lia. lia.
  - pose proof (Pos.size_gt p) as H. rewrite <- Pos2Z.inj_pow. now apply Pos2Z.pos_lt_pos.
Qed.

Lemma size_unique p d : 2 ^ (d - 1) <= Zpos p < 2 ^ d -> Zpos (Pos.size p) = d.
Proof.
  intros [Hlo Hhi]. pose proof (size_bounds p) as [Hlo' Hhi'].
  assert (Hd : 0 < d).
  { destruct (Z.ltb_spec 0 d) as [?|Hle]; [assumption|].
    rewrite (Z.pow_neg_r 2 (d - 1)) in Hlo by lia.
    destruct (Z.eq_dec d 0) as [->|Hne]; [cbn in Hhi; lia|].
    rewrite (Z.pow_neg_r 2 d) in Hhi by lia. lia. }
  destruct (Z.lt_trichotomy (Zpos (Pos.size p)) d) as [Hlt|[Heq|Hgt]]; [|exact Heq|].
  - assert (2 ^ Zpos (Pos.size p) <= 2 ^ (d - 1)) by (apply Z.pow_le_mono_r; lia). lia.
  - assert (2 ^ d <= 2 ^ (Zpos (Pos.size p) - 1)) by (apply Z.pow_le_mono_r; lia). lia.
Qed.

Lemma iter_xO p n : Zpos (Pos.iter xO p n) = Zpos p * 2 ^ Zpos n.
Proof.
  induction n as [|n IH] using Pos.peano_ind.
  - cbn. lia.
  - rewrite Pos.iter_succ, Pos2Z.inj_xO, IH, Pos2Z.inj_succ, Z.pow_succ_r by lia. lia.
Qed.

Lemma iter_pos_nat {A} (f : A -> A) n x :
  iter_pos f n x = Nat.iter (Pos.to_nat n) f x.
Proof.
  revert x. induction n as [n IH|n IH|]; intros x; cbn [iter_pos].
  - rewrite Pos2Nat.inj_xI, !IH.
    replace (S (2 * Pos.to_nat n)) with (Pos.to_nat n + (Pos.to_nat n + 1))%nat by lia.
    now rewrite !Nat.iter_add.
  - rewrite Pos2Nat.inj_xO, !IH.
    replace (2 * Pos.to_nat n)%nat with (Pos.to_nat n + Pos.to_nat n)%nat by lia.
    now rewrite Nat.iter_add.
  - reflexivity.
Qed.

Lemma shr_exact_nat n : forall Y M,
  Zpos M = Zpos Y * 2 ^ Z.of_nat n ->
  Nat.iter n shr_1 {| shr_m := Zpos M; shr_r := false; shr_s := false |}
  = {| shr_m := Zpos Y; shr_r := false; shr_s := false |}.
Proof.
  induction n as [|n IH]; intros Y M HM.
  - cbn in *. f_equal. lia.
  - rewrite Nat.iter_succ_r. rewrite Nat2Z.inj_succ, Z.pow_succ_r in HM by lia.
    destruct M as [M|M|]; [lia| |lia]. cbn [shr_1 orb]. apply IH. lia.
Qed.

Lemma shr_exact k Y M :
  Zpos M = Zpos Y * 2 ^ Zpos k ->
  iter_pos shr_1 k {| shr_m := Zpos M; shr_r := false; shr_s := false |}
  = {| shr_m := Zpos Y; shr_r := false; shr_s := false |}.
Proof.
  intros HM. rewrite iter_pos_nat. apply shr_exact_nat. now rewrite positive_nat_Z.
Qed.

Lemma fexp_normal d : -1021 <= d -> fexp prec emax d = d - 53.
Proof. intros H. unfold fexp, emin, prec, emax. lia. Qed.

(** A mantissa of 53 digits under an exponent in range is its own rounding. *)
Lemma round_aux_canonical Y E :
  Zpos (Pos.size Y) = 53 -> -1074 <= E <= 971 ->
  binary_round_aux prec emax false (Zpos Y) E loc_Exact = S754_finite false Y E.
Proof.
  intros HY HE. unfold binary_round_aux, shr_fexp.
  cbn [Zdigits2 shr_record_of_loc]. rewrite digits2_size, HY.
  rewrite fexp_normal by lia. replace (53 + E - 53 - E) with 0 by lia.
  cbn [shr shr_m loc_of_shr_record round_nearest_even Zdigits2 shr_record_of_loc].
  rewrite digits2_size, HY, fexp_normal by lia. replace (53 + E - 53 - E) with 0 by lia.
  cbn [shr shr_m]. unfold emax, prec.
  destruct (Z.leb_spec E (1024 - 53)) as [_|?]; [reflexivity|lia].
Qed.

Lemma pow2_pos n : 0 < 2 ^ n \/ n < 0.
Proof. destruct (Z.ltb_spec n 0); [now right|left; now apply Z.pow_pos_nonneg]. Qed.

(** Rounding an integer below 2^53 given as a mantissa with a non-positive
    exponent is exact. *)
Lemma binary_round_int M e p :
  Zpos p < 2 ^ 53 -> e <= 0 -> Zpos M = Zpos p * 2 ^ (- e) ->
  binary_round prec emax false M e = canon (Zpos p).
Proof.
  intros Hp He HM. pose proof (size_bounds p) as [Hlo Hhi].
  set (d := Zpos (Pos.size p)) in *.
  assert (Hd : 1 <= d <= 53).
  { split; [unfold d; lia|].
    destruct (Z.leb_spec d 53) as [?|Hgt]; [assumption|].
    assert (2 ^ 53 <= 2 ^ (d - 1)) by (apply Z.pow_le_mono_r; lia). lia. }
  assert (HdM : Zpos (Pos.size M) = d - e).
  { apply size_unique. rewrite HM. split.
    - replace (d - e - 1) with (d - 1 + - e) by lia. rewrite Z.pow_add_r by lia.
      apply Z.mul_le_mono_nonneg_r; [apply Z.pow_nonneg; lia|exact Hlo].
    - replace (d - e) with (d + - e) by lia. rewrite Z.pow_add_r by lia.
      apply Z.mul_lt_mono_pos_r; [apply Z.pow_pos_nonneg; lia|exact Hhi]. }
  set (Y := Z.to_pos (Zpos p * 2 ^ (53 - d))).
  assert (HY : Zpos Y = Zpos p * 2 ^ (53 - d)).
  { unfold Y. rewrite Z2Pos.id; [reflexivity|].
    apply Z.mul_pos_pos; [lia|apply Z.pow_pos_nonneg; lia]. }
  assert (HdY : Zpos (Pos.size Y) = 53).
  { apply size_unique. rewrite HY. split.
    - replace (53 - 1) with (d - 1 + (53 - d)) by lia. rewrite Z.pow_add_r by lia.
      apply Z.mul_le_mono_nonneg_r; [apply Z.pow_nonneg; lia|exact Hlo].
    - replace 53 with (d + (53 - d)) at 2 by lia. rewrite Z.pow_add_r by lia.
      apply Z.mul_lt_mono_pos_r; [apply Z.pow_pos_nonneg; lia|exact Hhi]. }
  unfold canon. fold d. fold Y.
  unfold binary_round. rewrite digits2_size, HdM.
  replace (d - e + e) with d by lia. rewrite fexp_normal by lia.
  unfold shl_align.
  destruct (d - 53 - e) as [|k|k] eqn:Hk.
  - (* no shift: M is the mantissa *)
    assert (M = Y) as ->.
    { apply Pos2Z.inj. rewrite HM, HY. f_equal. f_equal. lia. }
    replace e with (d - 53) by lia. apply round_aux_canonical; [exact HdY|lia].
  - (* M is longer than 53 digits: its low bits are zero *)
    unfold binary_round_aux, shr_fexp. cbn [Zdigits2 shr_record_of_loc].
    rewrite digits2_size, HdM. replace (d - e + e) with d by lia.
    rewrite fexp_normal by lia. rewrite Hk. cbn [shr].
    rewrite (shr_exact k Y M).
    + cbn [shr_m loc_of_shr_record round_nearest_even Zdigits2 shr_record_of_loc].
      rewrite digits2_size, HdY. replace (e + Zpos k) with (d - 53) by lia.
      rewrite fexp_normal by lia. replace (53 + (d - 53) - 53 - (d - 53)) with 0 by lia.
      cbn [shr shr_m]. unfold emax, prec.
      destruct (Z.leb_spec (d - 53) (1024 - 53)) as [_|?]; [reflexivity|lia].
    + rewrite HM, HY, <- Z.mul_assoc, <- Z.pow_add_r by lia. f_equal. f_equal. lia.
  - (* M is shorter: it is shifted left *)
    assert (Hshift : Pos.iter xO M k = Y).
    { apply Pos2Z.inj. rewrite iter_xO, HM, HY, <- Z.mul_assoc, <- Z.pow_add_r by lia.
      f_equal. f_equal. lia. }
    rewrite Hshift. apply round_aux_canonical; [exact HdY|lia].
Qed.

Lemma canon_valid z : 0 <= z < 2 ^ 53 -> valid_binary (canon z) = true.
Proof.
  intros Hz. destruct z as [|p|p]; [reflexivity| |lia].
  pose proof (binary_round_int p 0 p (proj2 Hz) (Z.le_refl 0)) as H.
  rewrite Z.mul_1_r in H. specialize (H eq_refl).
  pose proof (size_bounds p) as [Hlo Hhi].
  assert (Hd : 1 <= Zpos (Pos.size p) <= 53).
  { split; [lia|]. destruct (Z.leb_spec (Zpos (Pos.size p)) 53) as [?|Hgt]; [assumption|].
    assert (2 ^ 53 <= 2 ^ (Zpos (Pos.size p) - 1)) by (apply Z.pow_le_mono_r; lia). lia. }
  unfold canon, valid_binary. cbn [SpecFloat.valid_binary]. unfold bounded, canonical_mantissa.
  set (d := Zpos (Pos.size p)) in *. set (Y := Z.to_pos _).
  assert (HY : Zpos Y = Zpos p * 2 ^ (53 - d)).
  { unfold Y. rewrite Z2Pos.id; [reflexivity|].
    apply Z.mul_pos_pos; [lia|apply Z.pow_pos_nonneg; lia]. }
  assert (HdY : Zpos (Pos.size Y) = 53).
  { apply size_unique. rewrite HY. split.
    - replace (53 - 1) with (d - 1 + (53 - d)) by lia. rewrite Z.pow_add_r by lia.
      apply Z.mul_le_mono_nonneg_r; [apply Z.pow_nonneg; lia|exact Hlo].
    - replace 53 with (d + (53 - d)) at 2 by lia. rewrite Z.pow_add_r by lia.
      apply Z.mul_lt_mono_pos_r; [apply Z.pow_pos_nonneg; lia|exact Hhi]. }
  rewrite digits2_size, HdY, fexp_normal by lia.
  apply andb_true_iff. split; [apply Z.eqb_eq; lia|apply Z.leb_le; unfold emax, prec; lia].
Qed.

Lemma ofZ_spec z : 0 <= z < 2 ^ 53 -> Prim2SF (ofZ z) = canon z.
Proof.
  intros Hz. unfold ofZ.
  assert (Hnorm : binary_normalize prec emax z 0 false = canon z).
  { destruct z as [|p|p]; [reflexivity| |lia]. cbn [binary_normalize].
    apply binary_round_int; [lia|lia|]. cbn. lia. }
  rewrite Hnorm. apply Prim2SF_SF2Prim. now apply canon_valid.
Qed.

Lemma canon_mantissa p :
  Zpos p < 2 ^ 53 ->
  Zpos (Z.to_pos (Zpos p * 2 ^ (53 - Zpos (Pos.size p))))
  = Zpos p * 2 ^ (53 - Zpos (Pos.size p)) /\ 1 <= Zpos (Pos.size p) <= 53.
Proof.
  intros Hp. pose proof (size_bounds p) as [Hlo Hhi].
  assert (Hd : 1 <= Zpos (Pos.size p) <= 53).
  { split; [lia|]. destruct (Z.leb_spec (Zpos (Pos.size p)) 53) as [?|Hgt]; [assumption|].
    assert (2 ^ 53 <= 2 ^ (Zpos (Pos.size p) - 1)) by (apply Z.pow_le_mono_r; lia). lia. }
  split; [|exact Hd]. rewrite Z2Pos.id; [reflexivity|].
  apply Z.mul_pos_pos; [lia|apply Z.pow_pos_nonneg; lia].
Qed.

(** Addition of integers is exact below 2^53. *)
Lemma add_ofZ a b :
  0 <= a -> 0 <= b -> a + b < 2 ^ 53 -> (ofZ a + ofZ b)%float = ofZ (a + b).
Proof.
  intros Ha Hb Hab. apply Prim2SF_inj.
  rewrite add_spec, !ofZ_spec by lia. unfold SF64add.
  destruct a as [|p|p]; [|destruct b as [|q|q]|]; try lia.
  - destruct b as [|q|q]; [reflexivity|reflexivity|lia].
  - rewrite Z.add_0_r. reflexivity.
  - destruct (canon_mantissa p) as [Hmp Hdp]; [lia|].
    destruct (canon_mantissa q) as [Hmq Hdq]; [lia|].
    unfold canon at 1 2. cbn [SFadd cond_Zopp].
    set (dp := Zpos (Pos.size p)) in *. set (dq := Zpos (Pos.size q)) in *.
    set (mp := Z.to_pos (Zpos p * 2 ^ (53 - dp))) in *.
    set (mq := Z.to_pos (Zpos q * 2 ^ (53 - dq))) in *.
    set (ez := Z.min (dp - 53) (dq - 53)).
    assert (Hp' : Zpos (fst (shl_align mp (dp - 53) ez)) = Zpos p * 2 ^ (- ez)).
    { unfold shl_align. destruct (ez - (dp - 53)) as [|k|k] eqn:Hk; cbn [fst].
      - rewrite Hmp. f_equal. f_equal. lia.
      - unfold ez in Hk. lia.
      - rewrite iter_xO, Hmp, <- Z.mul_assoc, <- Z.pow_add_r by lia. f_equal. f_equal. lia. }
    assert (Hq' : Zpos (fst (shl_align mq (dq - 53) ez)) = Zpos q * 2 ^ (- ez)).
    { unfold shl_align. destruct (ez - (dq - 53)) as [|k|k] eqn:Hk; cbn [fst].
      - rewrite Hmq. f_equal. f_equal. lia.
      - unfold ez in Hk. lia.
      - rewrite iter_xO, Hmq, <- Z.mul_assoc, <- Z.pow_add_r by lia. f_equal. f_equal. lia. }
    set (xp := fst (shl_align mp (dp - 53) ez)) in *.
    set (xq := fst (shl_align mq (dq - 53) ez)) in *.
    change (Zpos xp + Zpos xq) with (Zpos (xp + xq)). cbn [binary_normalize].
    change (Zpos p + Zpos q) with (Zpos (p + q)).
    apply binary_round_int; [exact Hab|unfold ez; lia|].
    rewrite !Pos2Z.inj_add, Hp', Hq'. lia.
Qed.

(** Comparison of integers is exact below 2^53. *)
Lemma ltb_ofZ a b :
  0 <= a < 2 ^ 53 -> 0 <= b < 2 ^ 53 -> (ofZ a <? ofZ b)%float = (a <? b).
Proof.
  intros Ha Hb. rewrite ltb_spec, !ofZ_spec by lia. unfold SFltb.
  destruct a as [|p|p]; [|destruct b as [|q|q]|]; try lia.
  - destruct b as [|q|q]; [reflexivity|reflexivity|lia].
  - reflexivity.
  - destruct (canon_mantissa p) as [Hmp Hdp]; [lia|].
    destruct (canon_mantissa q) as [Hmq Hdq]; [lia|].
    pose proof (size_bounds p) as [Hplo Hphi]. pose proof (size_bounds q) as [Hqlo Hqhi].
    unfold canon. cbn [SFcompare].
    set (dp := Zpos (Pos.size p)) in *. set (dq := Zpos (Pos.size q)) in *.
    set (mp := Z.to_pos (Zpos p * 2 ^ (53 - dp))) in *.
    set (mq := Z.to_pos (Zpos q * 2 ^ (53 - dq))) in *.
    destruct (Z.compare_spec (dp - 53) (dq - 53)) as [Heq|Hlt|Hgt].
    + assert (Hd : dp = dq) by lia.
      change (Pos.compare_cont Eq mp mq) with (Pos.compare mp mq).
      rewrite Pos2Z.inj_compare, Hmp, Hmq, Hd.
      assert (Hpos : 0 < 2 ^ (53 - dq)) by (apply Z.pow_pos_nonneg; lia).
      destruct (Z.ltb_spec (Zpos p) (Zpos q)) as [Hpq|Hpq].
      * assert (H : Zpos p * 2 ^ (53 - dq) < Zpos q * 2 ^ (53 - dq))
          by (apply Z.mul_lt_mono_pos_r; assumption).
        apply Z.compare_lt_iff in H. now rewrite H.
      * assert (H : Zpos q * 2 ^ (53 - dq) <= Zpos p * 2 ^ (53 - dq))
          by (apply Z.mul_le_mono_nonneg_r; lia).
        destruct (Z.compare_spec (Zpos p * 2 ^ (53 - dq)) (Zpos q * 2 ^ (53 - dq)));
          try reflexivity; lia.
    + assert (H : 2 ^ dp <= 2 ^ (dq - 1)) by (apply Z.pow_le_mono_r; lia).
      symmetry. apply Z.ltb_lt. lia.
    + assert (H : 2 ^ dq <= 2 ^ (dp - 1)) by (apply Z.pow_le_mono_r; lia).
      symmetry. apply Z.ltb_ge. lia.
Qed.

Local Close Scope Z_scope.

(** ** The loops at integer batch sizes *)

Lemma relativeIndex_ofZ len z :
  (0 <= z < 2 ^ 53)%Z -> Numbers.relativeIndex len (ofZ z) = sliceIndex len z.
Proof.
  intros Hz. unfold Numbers.relativeIndex. rewrite ofZ_spec by exact Hz.
  destruct z as [|p|p]; [reflexivity| |lia]. unfold canon.
  destruct (canon_mantissa p) as [Hm Hd]; [lia|]. cbn [cond_Zopp]. rewrite Hm. f_equal.
  set (d := Zpos (Pos.size p)) in *.
  rewrite <- Z.shiftr_opp_r, Z.shiftr_div_pow2 by lia.
  replace (- (d - 53))%Z with (53 - d)%Z by lia.
  apply Z.div_mul. apply Z.pow_nonzero; lia.
Qed.

Lemma slice_ofZ {A} (l : list A) a b :
  (0 <= a < 2 ^ 53)%Z -> (0 <= b < 2 ^ 53)%Z ->
  Numbers.slice l (ofZ a) (ofZ b) = slice l a b.
Proof.
  intros Ha Hb. unfold Numbers.slice, slice. now rewrite !relativeIndex_ofZ.
Qed.

Lemma ofNat_add a b :
  (Z.of_nat a + Z.of_nat b < 2 ^ 53)%Z -> (ofNat a + ofNat b)%float = ofNat (a + b).
Proof.
  intros H. unfold ofNat. rewrite add_ofZ by lia. f_equal. lia.
Qed.

Lemma deliverN_app cb xs ys :
  Numbers.deliver cb (xs ++ ys) = Numbers.deliver cb xs ++ Numbers.deliver cb ys.
Proof. destruct cb; [apply flat_map_app|reflexivity]. Qed.

Lemma progressRunN_app n done a b :
  Numbers.progressRun n done (a + b)
  = Numbers.progressRun n done a ++ Numbers.progressRun n (done + a) b.
Proof. unfold Numbers.progressRun. rewrite seq_app, map_app. do 3 f_equal. Qed.

Lemma reportN cb ev w tr :
  Numbers.quietProgress cb ->
  Numbers.report cb ev (w, tr)
  = (Observers.Resolved tt, (w, tr ++ Numbers.deliver cb [ev])).
Proof.
  intros Hq. unfold Numbers.report, Numbers.deliver.
  destruct cb as [callback|]; cbn [fst snd flat_map].
  - rewrite (Hq callback ev eq_refl). now rewrite app_nil_r.
  - now rewrite app_nil_r.
Qed.

Lemma bindN_ext {A B} (m : Numbers.Run A) (k k' : A -> Numbers.Run B) stage :
  (forall a s, k a s = k' a s) -> Numbers.bind m k stage = Numbers.bind m k' stage.
Proof.
  intros Hk. unfold Numbers.bind. destruct (m stage) as [[a|t| |] s]; auto.
Qed.

Lemma bindN_assoc {A B C} (m : Numbers.Run A) (k : A -> Numbers.Run B)
      (h : B -> Numbers.Run C) stage :
  Numbers.bind (Numbers.bind m k) h stage
  = Numbers.bind m (fun a => Numbers.bind (k a) h) stage.
Proof. unfold Numbers.bind. now destruct (m stage) as [[a|t| |] s]. Qed.

Section Flat.
Variable pipeline : EmbeddingPipeline.
Variable options : Numbers.BatchOptions.
Variable n : nat.

Let items := Numbers.itemByItem pipeline (Numbers.bo_normalize options)
                                (Numbers.bo_onProgress options) n.

(** A batch is its items one by one. *)
Lemma processBatchN_flat batch : forall (done : nat) (iz : Z) (j : nat) results stage,
  (0 <= iz)%Z -> (iz + Z.of_nat j = Z.of_nat done)%Z ->
  (Z.of_nat done + Z.of_nat (length batch) < 2 ^ 53)%Z ->
  Numbers.processBatch pipeline options (ofNat n) (ofZ iz) batch j results stage
  = items done batch results stage.
Proof.
  induction batch as [|text rest IH]; intros done iz j results stage Hiz Hij Hbound;
    [reflexivity|].
  cbn [length] in Hbound. unfold items.
  cbn [Numbers.processBatch Numbers.itemByItem].
  assert (Hcurrent : ((ofZ iz + ofNat j) + ofZ 1)%float = ofNat (S done)).
  { unfold ofNat. rewrite !add_ofZ by lia. f_equal. lia. }
  rewrite Hcurrent. apply bindN_ext. intros r s. apply bindN_ext. intros [] s'.
  apply (IH (S done) iz (S j)); lia.
Qed.

Lemma itemByItem_app xs : forall ys done results stage,
  items done (xs ++ ys) results stage
  = Numbers.bind (items done xs results)
                 (fun results => items (done + length xs) ys results) stage.
Proof.
  induction xs as [|x xs IH]; intros ys done results stage.
  - cbn [app length]. unfold items at 2. cbn [Numbers.itemByItem].
    unfold Numbers.bind, Numbers.ret. now rewrite Nat.add_0_r.
  - unfold items. cbn [app length Numbers.itemByItem].
    rewrite bindN_assoc. apply bindN_ext. intros r s.
    rewrite bindN_assoc. apply bindN_ext. intros [] s'.
    fold items. rewrite IH. apply bindN_ext. intros r' s''.
    now replace (S done + length xs) with (done + S (length xs)) by lia.
Qed.

Variable texts : list jsstring.
Variable batchSize : Z.
Hypothesis positive : (1 <= batchSize)%Z.
Hypothesis safe : (Z.of_nat (length texts) + batchSize < 2 ^ 53)%Z.

(** The batches are the texts one by one. *)
Lemma batchLoopN_flat : forall fuel i results stage,
  (0 <= i < Z.of_nat (length texts) + batchSize)%Z ->
  Z.to_nat ((Z.of_nat (length texts) - i + batchSize - 1) / batchSize) <= fuel ->
  Numbers.batchLoop pipeline options texts (ofNat n) fuel (ofZ batchSize) (ofZ i)
                    results stage
  = items (Z.to_nat i) (skipn (Z.to_nat i) texts) results stage.
Proof.
  assert (Hdone : forall i results stage,
    (Z.of_nat (length texts) <= i)%Z ->
    Numbers.ret results stage
    = items (Z.to_nat i) (skipn (Z.to_nat i) texts) results stage).
  { intros i results stage Hge. now rewrite skipn_all2 by lia. }
  induction fuel as [|fuel IH]; intros i results stage Hi Hfuel.
  - cbn [Numbers.batchLoop].
    destruct (Z.ltb_spec i (Z.of_nat (length texts))) as [Hlt|Hge].
    + exfalso.
      assert (1 <= (Z.of_nat (length texts) - i + batchSize - 1) / batchSize)%Z.
      { apply Z.div_le_lower_bound; lia. }
      lia.
    + unfold ofNat. rewrite ltb_ofZ by lia.
      destruct (Z.ltb_spec i (Z.of_nat (length texts))); [lia|]. now apply Hdone.
  - cbn [Numbers.batchLoop]. unfold ofNat at 1.
    destruct (Z.ltb_spec i (Z.of_nat (length texts))) as [Hlt|Hge].
    + rewrite ltb_ofZ by lia.
      destruct (Z.ltb_spec i (Z.of_nat (length texts))); [|lia].
      rewrite add_ofZ by lia. rewrite slice_ofZ by lia.
      rewrite slice_batch by lia.
      rewrite <- (firstn_skipn (Z.to_nat batchSize) (skipn (Z.to_nat i) texts)) at 2.
      rewrite itemByItem_app.
      unfold Numbers.bind at 1.
      rewrite (processBatchN_flat _ (Z.to_nat i)); [|lia|lia|].
      2:{ rewrite length_firstn, length_skipn. lia. }
      apply bindN_ext. intros r s.
      rewrite IH; [|lia|].
      2:{ replace (Z.of_nat (length texts) - (i + batchSize) + batchSize - 1)%Z
            with ((Z.of_nat (length texts) - i + batchSize - 1) + (-1) * batchSize)%Z by lia.
          rewrite Z.div_add by lia. lia. }
      rewrite skipn_skipn.
      replace (Z.to_nat batchSize + Z.to_nat i) with (Z.to_nat (i + batchSize)) by lia.
      rewrite length_firstn, length_skipn.
      destruct (Nat.le_ge_cases (Z.to_nat batchSize) (length texts - Z.to_nat i))
        as [Hfull|Hlast].
      * rewrite Nat.min_l by exact Hfull. f_equal. lia.
      * rewrite (skipn_all2 texts) by lia. reflexivity.
    + rewrite ltb_ofZ by lia.
      destruct (Z.ltb_spec i (Z.of_nat (length texts))); [lia|]. now apply Hdone.
Qed.

(** The items with an observer that does not throw. *)
Lemma itemByItem_quiet batch : forall done results w tr,
  Numbers.quietProgress (Numbers.bo_onProgress options) ->
  items done batch results (w, tr)
  = (Observers.Resolved
       (results ++ map (embedItem pipeline (Numbers.bo_normalize options)) batch),
     (advance (length (inferred batch)) [] w,
      tr ++ Numbers.deliver (Numbers.bo_onProgress options)
              (Numbers.progressRun n done (length batch)))).
Proof.
  induction batch as [|text rest IH]; intros done results w tr Hq.
  - unfold items. cbn [Numbers.itemByItem length inferred filter]. unfold Numbers.ret.
    rewrite advance_0. unfold Numbers.progressRun. cbn [seq map].
    destruct (Numbers.bo_onProgress options); cbn [Numbers.deliver flat_map];
      now rewrite !app_nil_r.
  - unfold items. cbn [Numbers.itemByItem length]. fold items.
    assert (Hstep : forall r w1 tr1,
      Numbers.bind
        (Numbers.report (Numbers.bo_onProgress options) (Numbers.progressAt n (S done)))
        (fun _ => items (S done) rest r) (w1, tr1) =
      (Observers.Resolved
         (r ++ map (embedItem pipeline (Numbers.bo_normalize options)) rest),
       (advance (length (inferred rest)) [] w1,
        tr1 ++ Numbers.deliver (Numbers.bo_onProgress options)
                 (Numbers.progressRun n done (S (length rest)))))).
    { intros r w1 tr1. unfold Numbers.bind. rewrite reportN by exact Hq.
      rewrite (IH (S done) r) by exact Hq.
      rewrite <- app_assoc, <- deliverN_app. reflexivity. }
    unfold Numbers.bind at 1. unfold inferred, embedItem. cbn [filter map length].
    destruct (isBlank text) eqn:Hb; cbn [negb].
    + unfold Numbers.ret at 1. rewrite Hstep, <- app_assoc. reflexivity.
    + unfold Numbers.bind at 1. unfold Numbers.step, Numbers.lift. cbn [fst snd].
      rewrite infer_advance. cbn [Observers.settled]. unfold Numbers.ret at 1.
      rewrite Hstep, advance_advance, <- app_assoc. cbn [length app]. reflexivity.
Qed.
End Flat.

Lemma wholeBatchSize_safe batchSize n :
  Numbers.wholeBatchSize batchSize -> Numbers.arrayLength n ->
  exists z, Numbers.batchSizeOf batchSize = ofZ z /\ (1 <= z)%Z
            /\ (Z.of_nat n + z < 2 ^ 53)%Z.
Proof.
  intros (z & Hz & Hrange) Hn. exists z. unfold Numbers.arrayLength in Hn.
  split; [exact Hz|]. split; [lia|].
  assert ((2 ^ 32 + 2 ^ 52 < 2 ^ 53)%Z) by reflexivity. lia.
Qed.

(** [generateEmbeddings] at an integer batch size: the model, then the texts
    one by one, whatever the observers do. *)
Lemma generateEmbeddingsN_flat fuel attempt texts options stage :
  texts <> [] ->
  Numbers.wholeBatchSize (Numbers.bo_batchSize options) ->
  Numbers.arrayLength (length texts) ->
  length texts <= fuel ->
  Numbers.generateEmbeddings fuel attempt texts options stage
  = Numbers.bind
      (Numbers.lift (Observers.getEmbeddingPipeline attempt
                       (Numbers.bo_onModelLoad options)))
      (fun pipeline =>
         Numbers.itemByItem pipeline (Numbers.bo_normalize options)
                            (Numbers.bo_onProgress options) (length texts) 0 texts [])
      stage.
Proof.
  intros Hne Hwhole Hlen Hfuel.
  destruct (wholeBatchSize_safe _ _ Hwhole Hlen) as (z & Hz & Hpos & Hsafe).
  unfold Numbers.generateEmbeddings.
  destruct texts as [|text0 rest0] eqn:Htexts; [congruence|]. rewrite <- Htexts in *.
  clear Htexts text0 rest0.
  apply bindN_ext. intros pipeline s.
  rewrite Hz. change zero with (ofZ 0).
  rewrite (batchLoopN_flat pipeline options (length texts) texts z Hpos Hsafe fuel 0);
    [reflexivity|lia|].
  pose proof (iterations_le_length (length texts) z Hpos) as Hit.
  unfold iterations in Hit. rewrite Z.sub_0_r. lia.
Qed.

(** The model with an observer that does not throw. *)
Lemma quiet_load attempt cb w :
  Numbers.quietLoad cb ->
  Observers.getEmbeddingPipeline attempt cb w
  = Observers.settled (getEmbeddingPipeline attempt (option_map Observers.heard cb) w).
Proof.
  intros Hq. destruct cb as [callback|]; cbn [option_map].
  - apply quiet_observer_refines. now apply Hq.
  - apply no_observer_refines.
Qed.

Lemma generateEmbeddingsN_whole fuel attempt texts options w tr pipeline :
  texts <> [] ->
  Numbers.wholeBatchSize (Numbers.bo_batchSize options) ->
  Numbers.arrayLength (length texts) ->
  Numbers.quietProgress (Numbers.bo_onProgress options) ->
  Numbers.quietLoad (Numbers.bo_onModelLoad options) ->
  available attempt w pipeline ->
  length texts <= fuel ->
  Numbers.generateEmbeddings fuel attempt texts options (w, tr) =
  (Observers.Resolved (map (embedItem pipeline (Numbers.bo_normalize options)) texts),
   (advance (length (inferred texts)) []
            (acquired attempt (option_map Observers.heard (Numbers.bo_onModelLoad options)) w),
    tr ++ Numbers.deliver (Numbers.bo_onProgress options)
            (Numbers.progressRun (length texts) 0 (length texts)))).
Proof.
  intros Hne Hwhole Hlen Hquiet Hload Hav Hfuel.
  rewrite generateEmbeddingsN_flat by assumption.
  unfold Numbers.bind, Numbers.lift. cbn [fst snd].
  rewrite quiet_load by exact Hload.
  rewrite (getEmbeddingPipeline_available attempt _ w pipeline) by exact Hav.
  cbn [Observers.settled].
  now rewrite (itemByItem_quiet pipeline options) by exact Hquiet.
Qed.

Lemma progressRunN_length n done count :
  length (Numbers.progressRun n done count) = count.
Proof. unfold Numbers.progressRun. now rewrite length_map, length_seq. Qed.

Lemma deliverN_adjusted callback n m :
  m <= n -> Numbers.arrayLength n ->
  Numbers.deliver (option_map (fun f => Numbers.adjustProgress f n m) callback)
                  (Numbers.progressRun m 0 m)
  = Numbers.deliver callback (Numbers.progressRun n (n - m) m).
Proof.
  intros Hle Hn. destruct callback as [f|]; [|reflexivity].
  cbn [option_map Numbers.deliver]. unfold Numbers.progressRun.
  assert (Hshift : forall len start,
    start + len <= S m ->
    flat_map (fun ev => Observers.received (Numbers.adjustProgress f n m ev))
             (map (Numbers.progressAt m) (seq start len))
    = flat_map (fun ev => Observers.received (f ev))
               (map (Numbers.progressAt n) (seq (n - m + start) len))).
  { induction len as [|len IH]; intros start Hstart; cbn [seq map flat_map];
      [reflexivity|].
    f_equal.
    - unfold Numbers.adjustProgress, Numbers.progressAt, Numbers.percentageOf.
      cbn [Numbers.current]. unfold Numbers.arrayLength in Hn.
      assert (Hsum : (ofZ (Z.of_nat n - Z.of_nat m) + ofNat start)%float
                     = ofNat (n - m + start)).
      { unfold ofNat. rewrite add_ofZ; [f_equal; lia|lia|lia|].
        assert ((2 ^ 32 + 2 ^ 32 < 2 ^ 53)%Z) by reflexivity. lia. }
      now rewrite Hsum.
    - replace (S (n - m + start)) with (n - m + S start) by lia. apply IH. lia. }
  rewrite Hshift by lia. now replace (n - m + 1) with (S (n - m)) by lia.
Qed.

Lemma adjusted_quiet callback n m :
  Numbers.quietProgress callback ->
  Numbers.quietProgress (option_map (fun f => Numbers.adjustProgress f n m) callback).
Proof.
  intros Hq f ev Hf. destruct callback as [g|]; [|discriminate].
  injection Hf as <-. unfold Numbers.adjustProgress. now apply Hq.
Qed.

Section WholeCached.
Variable hashContent : jsstring -> string.

Lemma generateEmbeddingsCachedN_whole fuel attempt texts options w heard pipeline :
  texts <> [] ->
  readable (table w) ->
  Numbers.wholeBatchSize (Numbers.batchSize options) ->
  Numbers.arrayLength (length texts) ->
  Numbers.quietProgress (Numbers.onProgress options) ->
  Numbers.quietLoad (Numbers.onModelLoad options) ->
  available attempt w pipeline ->
  length texts <= fuel ->
  Numbers.generateEmbeddingsCached hashContent fuel attempt texts options (w, heard) =
  (Observers.Resolved
     (map (fun text => Some (expected hashContent pipeline
                               (Numbers.cacheOptions options) (table w) text))
          texts),
   (afterBatch hashContent attempt pipeline (Numbers.cacheOptions options) texts w,
    heard ++ Numbers.deliver (Numbers.onProgress options)
               (Numbers.progressRun (length texts)
                  (length (hitsOf hashContent (Numbers.cacheOptions options)
                                  (table w) texts))
                  (length (missesOf hashContent (Numbers.cacheOptions options)
                                    (table w) texts))))).
Proof.
  intros Hne Hread Hwhole Hlen Hquiet Hload Hav Hfuel.
  unfold Numbers.generateEmbeddingsCached.
  destruct texts as [|text0 rest0] eqn:Htexts; [congruence|]. rewrite <- Htexts in *.
  clear Htexts text0 rest0.
  set (cached := Numbers.cacheOptions options).
  unfold Numbers.bind at 1. unfold Numbers.step at 1. unfold Numbers.lift at 1.
  cbn [fst snd].
  rewrite checkCache_spec by exact Hread. cbn [app Observers.settled].
  unfold afterBatch.
  set (w1 := if usesCache cached then _ else w).
  assert (Htable : table w1 = table w) by (unfold w1; now destruct (usesCache cached)).
  assert (Hav1 : available attempt w1 pipeline)
    by (unfold w1; now destruct (usesCache cached)).
  rewrite <- (assembled hashContent cached pipeline (table w) texts).
  pose proof (hits_and_misses hashContent cached (table w) texts) as Hsum.
  pose proof (missList_texts hashContent cached (table w) texts 0) as Hmiss.
  destruct (missList hashContent cached (table w) texts 0) as [|pair pairs] eqn:Hpairs.
  - rewrite <- Hmiss. cbn [map length Numbers.progressRun seq].
    unfold Numbers.ret, Numbers.progressRun. cbn [seq map].
    destruct (Numbers.onProgress options); cbn [Numbers.deliver flat_map];
      now rewrite app_nil_r.
  - rewrite <- Hpairs in *.
    assert (Hcount : length (missList hashContent cached (table w) texts 0)
                     = length (missesOf hashContent cached (table w) texts))
      by (now rewrite <- Hmiss, length_map).
    unfold Numbers.bind.
    rewrite (generateEmbeddingsN_whole fuel attempt _ _ w1 heard pipeline);
      cbn [Numbers.bo_batchSize Numbers.bo_normalize Numbers.bo_onProgress
           Numbers.bo_onModelLoad].
    + rewrite length_map, Hcount.
      rewrite deliverN_adjusted by (try exact Hlen; lia).
      unfold Numbers.step, Numbers.lift. cbn [fst snd].
      match goal with
      | |- context [storeResults _ _ ?pairs' _ _ ?results ?w3] =>
          pose proof (storeResults_spec hashContent cached
                        (embedItem pipeline (normalize cached)) pairs' [] results w3)
            as Hstore
      end.
      cbn [app length] in Hstore. change (normalize cached) with (Numbers.normalize options)
        in Hstore. rewrite Hstore.
      cbn [onProgress onModelLoad deliver cached Numbers.cacheOptions Observers.settled].
      replace (length texts - length (missesOf hashContent cached (table w) texts))
        with (length (hitsOf hashContent cached (table w) texts)) by lia.
      rewrite Hmiss. reflexivity.
    + rewrite Hpairs. discriminate.
    + exact Hwhole.
    + unfold Numbers.arrayLength in *. rewrite length_map. lia.
    + now apply adjusted_quiet.
    + exact Hload.
    + exact Hav1.
    + rewrite length_map. lia.
Qed.
End WholeCached.

Lemma ofNat_lt a b :
  Numbers.arrayLength a -> Numbers.arrayLength b ->
  (ofNat a <? ofNat b)%float = (a <? b).
Proof.
  unfold Numbers.arrayLength, ofNat. intros Ha Hb.
  assert ((2 ^ 32 < 2 ^ 53)%Z) by reflexivity.
  rewrite ltb_ofZ by lia.
  destruct (Z.ltb_spec (Z.of_nat a) (Z.of_nat b)), (Nat.ltb_spec a b); try reflexivity; lia.
Qed.

(** C5. [generateEmbeddings] returns one vector per text, in input order,
    and reports progress once per item with [current] = 1, 2, ..., n (each
    below the next) and [total] = n, for every list of texts and every batch
    size that is left out or an integer from 1 to 2^52, the model being
    available and the two observers not throwing; an empty list gives an empty
    result and no event, whatever the batch size and the observers. *)
Theorem generateEmbeddings_in_input_order :
  (forall fuel attempt options stage,
      Numbers.generateEmbeddings fuel attempt [] options stage
      = (Observers.Resolved [], stage)) /\
  (forall fuel attempt texts options w heard pipeline,
      Numbers.wholeBatchSize (Numbers.bo_batchSize options) ->
      Numbers.arrayLength (length texts) ->
      Numbers.quietProgress (Numbers.bo_onProgress options) ->
      Numbers.quietLoad (Numbers.bo_onModelLoad options) ->
      available attempt w pipeline ->
      length texts <= fuel ->
      let n := length texts in
      let events :=
        map (fun k => Numbers.mkBatchProgress
                        (ofNat k) (ofNat n)
                        (Math_round ((ofNat k / ofNat n) * ofZ 100)%float))
            (seq 1 n) in
      let (r, stage) := Numbers.generateEmbeddings fuel attempt texts options (w, heard) in
      r = Observers.Resolved
            (map (embedItem pipeline (Numbers.bo_normalize options)) texts) /\
      snd stage = heard ++ Numbers.deliver (Numbers.bo_onProgress options) events /\
      length events = n /\
      map Numbers.current events = map ofNat (seq 1 n) /\
      (forall a b, a < b <= n -> (ofNat a <? ofNat b)%float = true)).
Proof.
  split; [reflexivity|].
  intros fuel attempt texts options w heard pipeline Hwhole Hlen Hquiet Hload Hav Hfuel
    n events.
  assert (Hcase : texts = [] \/ texts <> [])
    by (destruct texts; [left; reflexivity|right; discriminate]).
  assert (Hlater : forall a b, a < b <= n -> (ofNat a <? ofNat b)%float = true).
  { intros a b Hab. unfold Numbers.arrayLength in Hlen. fold n in Hlen.
    rewrite ofNat_lt by (unfold Numbers.arrayLength; lia). apply Nat.ltb_lt. lia. }
  destruct Hcase as [Hnil|Hne].
  - subst texts events n. cbn [Numbers.generateEmbeddings Numbers.ret length seq map snd].
    destruct (Numbers.bo_onProgress options); cbn [Numbers.deliver flat_map];
      rewrite ?app_nil_r; repeat split; auto.
  - rewrite (generateEmbeddingsN_whole fuel attempt texts options w heard pipeline)
      by assumption.
    cbn [snd]. split; [reflexivity|]. split; [reflexivity|].
    split; [unfold events; now rewrite length_map, length_seq|].
    split; [unfold events; rewrite map_map; reflexivity|exact Hlater].
Qed.

(** C5 at work: three texts, the second one blank, in batches of two. *)
Lemma generateEmbeddings_in_input_order_witness :
  let (r, stage) :=
    Numbers.generateEmbeddings 3 loadsFine [lit "One"; lit ""; lit "Three"]
      (Numbers.mkBatchOptions (Some (ofZ 2)) None (Some Numbers.record) None)
      (freshWorld, []) in
  r = Observers.Resolved
        (map (embedItem mockPipeline None) [lit "One"; lit ""; lit "Three"]) /\
  snd stage = [Numbers.mkBatchProgress 1 3 33; Numbers.mkBatchProgress 2 3 67;
               Numbers.mkBatchProgress 3 3 100]%float.
Proof.
  destruct generateEmbeddings_in_input_order as [_ Horder].
  specialize (Horder 3 loadsFine [lit "One"; lit ""; lit "Three"]
                (Numbers.mkBatchOptions (Some (ofZ 2)) None (Some Numbers.record) None)
                freshWorld [] mockPipeline).
  cbv zeta in Horder.
  destruct (Numbers.generateEmbeddings 3 loadsFine [lit "One"; lit ""; lit "Three"] _ _)
    as [r stage].
  destruct Horder as (Hr & Hheard & _).
  - exists 2%Z. split; [reflexivity|]. split; [lia|]. apply Z.leb_le. reflexivity.
  - unfold Numbers.arrayLength. apply Z.ltb_lt. reflexivity.
  - intros callback ev [= <-]. reflexivity.
  - intros callback. discriminate.
  - right. split; reflexivity.
  - cbn. lia.
  - split; [exact Hr|]. rewrite Hheard. vm_compute. reflexivity.
Defined.

Lemma batchLoopN_stuck pipeline options texts total : forall fuel results stage,
  texts <> [] ->
  Numbers.arrayLength (length texts) ->
  fst (Numbers.batchLoop pipeline options texts total fuel (ofZ 0) zero results stage)
  = Observers.Unfinished.
Proof.
  intros fuel results stage Hne Hlen.
  assert (Hlt : (zero <? ofNat (length texts))%float = true).
  { change zero with (ofNat 0). rewrite ofNat_lt; [|unfold Numbers.arrayLength; cbn; lia
                                                    |exact Hlen].
    destruct texts; [congruence|reflexivity]. }
  revert results stage. induction fuel as [|fuel IH]; intros results stage;
    cbn [Numbers.batchLoop]; rewrite Hlt; [reflexivity|].
  change (zero + ofZ 0)%float with zero.
  assert (Hempty : Numbers.slice texts zero zero = []).
  { unfold Numbers.slice, Numbers.relativeIndex.
    change (Prim2SF zero) with (S754_zero false). rewrite Z.sub_diag. reflexivity. }
  rewrite Hempty. unfold Numbers.bind. cbn [Numbers.processBatch Numbers.ret]. apply IH.
Qed.

(** What C5 excludes: with batch size 0 the call never returns; with batch
    size 1.5 it returns, but [current] takes the values 1, 2.5, 3.5; with batch
    size NaN it returns an empty result for three texts. *)
Lemma generateEmbeddings_with_other_batch_sizes :
  Numbers.neverReturns (fun fuel =>
    Numbers.generateEmbeddings fuel loadsFine [lit "One"]
      (Numbers.mkBatchOptions (Some (ofZ 0)) None None None) (freshWorld, []))
  /\ (let (r, stage) :=
        Numbers.generateEmbeddings 3 loadsFine [lit "One"; lit "Two"; lit "Three"]
          (Numbers.mkBatchOptions (Some 1.5%float) None (Some Numbers.record) None)
          (freshWorld, []) in
      r = Observers.Resolved
            (map (embedItem mockPipeline None) [lit "One"; lit "Two"; lit "Three"])
      /\ map Numbers.current (snd stage) = [1; 2.5; 3.5]%float)
  /\ fst (Numbers.generateEmbeddings 3 loadsFine [lit "One"; lit "Two"; lit "Three"]
            (Numbers.mkBatchOptions (Some nan) None (Some Numbers.record) None)
            (freshWorld, []))
     = Observers.Resolved [].
Proof.
  split; [|split].
  - intros fuel. unfold Numbers.generateEmbeddings, Numbers.bind, Numbers.lift.
    cbn [fst snd Numbers.bo_onModelLoad Numbers.bo_batchSize Numbers.batchSizeOf].
    rewrite no_observer_refines.
    rewrite (getEmbeddingPipeline_available loadsFine None freshWorld mockPipeline)
      by (right; split; reflexivity).
    cbn [Observers.settled].
    apply batchLoopN_stuck; [discriminate|].
    unfold Numbers.arrayLength. apply Z.ltb_lt. reflexivity.
  - vm_compute. split; reflexivity.
  - vm_compute. reflexivity.
Qed.


Lemma hd_map_seq {A} (f : nat -> A) start len d :
  len <> 0 -> hd d (map f (seq start len)) = f start.
Proof. destruct len; [congruence|reflexivity]. Qed.

Lemma last_map_seq {A} (f : nat -> A) len : forall start d,
  len <> 0 -> last (map f (seq start len)) d = f (start + len - 1).
Proof.
  induction len as [|len IH]; intros start d Hlen; [congruence|].
  destruct len as [|len].
  - cbn. f_equal. lia.
  - change (seq start (S (S len))) with (start :: seq (S start) (S len)).
    cbn [map]. change (last (?x :: map f (seq (S start) (S len))) d)
      with (last (map f (seq (S start) (S len))) d).
    rewrite IH by discriminate. f_equal. lia.
Qed.

(** C3. With a progress callback that does not throw, a model-load observer
    that does not throw either, a readable cache, the model available and a
    batch size that is left out or an integer from 1 to 2^52,
    [generateEmbeddingsCached] returns and hands the callback exactly one event
    per cache miss, in order: the k-th item of the whole list, for k from
    [hits + 1] to [n], with [current] = k, [total] = n (the length of the whole
    input) and [percentage] = [Math.round((current / total) * 100)] in
    binary64. So the first event has [current] = [hits + 1], the last has
    [current] = n, and no event has [current] > [total]. *)
Theorem generateEmbeddingsCached_progress :
  forall hashContent fuel attempt texts options w heard callback pipeline,
    Numbers.onProgress options = Some callback ->
    (forall ev, Observers.thrown (callback ev) = None) ->
    Numbers.quietLoad (Numbers.onModelLoad options) ->
    readable (table w) ->
    Numbers.wholeBatchSize (Numbers.batchSize options) ->
    Numbers.arrayLength (length texts) ->
    available attempt w pipeline ->
    length texts <= fuel ->
    let n := length texts in
    let hits := length (hitsOf hashContent (Numbers.cacheOptions options) (table w) texts) in
    let events :=
      map (fun k => Numbers.mkBatchProgress
                      (ofNat k) (ofNat n)
                      (Math_round ((ofNat k / ofNat n) * ofZ 100)%float))
          (seq (S hits) (n - hits)) in
    (exists results stage,
        Numbers.generateEmbeddingsCached hashContent fuel attempt texts options (w, heard)
        = (Observers.Resolved results, stage)
        /\ snd stage = heard ++ flat_map (fun ev => Observers.received (callback ev))
                                         events) /\
    hits <= n /\
    length events = n - hits /\
    Forall (fun ev =>
              Numbers.total ev = ofNat n
              /\ (exists k, hits < k <= n /\ Numbers.current ev = ofNat k)
              /\ (Numbers.total ev <? Numbers.current ev)%float = false
              /\ Numbers.percentage ev
                 = Math_round ((Numbers.current ev / Numbers.total ev) * ofZ 100)%float)
           events /\
    (forall d, events <> [] -> Numbers.current (hd d events) = ofNat (hits + 1)) /\
    (forall d, events <> [] -> Numbers.current (last events d) = ofNat n).
Proof.
  intros hashContent fuel attempt texts options w heard callback pipeline Hcb Hquiet
    Hload Hread Hwhole Hlen Hav Hfuel n hits events.
  assert (Hquiet' : Numbers.quietProgress (Numbers.onProgress options)).
  { intros f ev Hf. rewrite Hcb in Hf. injection Hf as <-. apply Hquiet. }
  pose proof (hits_and_misses hashContent (Numbers.cacheOptions options) (table w) texts)
    as Hsum.
  fold hits n in Hsum.
  assert (Hnonempty : events <> [] -> n - hits <> 0).
  { intros Hev Hz. apply Hev. unfold events. now rewrite Hz. }
  split; [|split; [lia|split; [|split; [|split]]]].
  - assert (Hcase : texts = [] \/ texts <> [])
      by (destruct texts; [left; reflexivity|right; discriminate]).
    destruct Hcase as [Hnil|Hne].
    + subst texts. eexists _, _. split; [reflexivity|]. cbn. now rewrite app_nil_r.
    + eexists _, _. split.
      * apply (generateEmbeddingsCachedN_whole hashContent fuel attempt texts options
                 w heard pipeline Hne Hread Hwhole Hlen Hquiet' Hload Hav Hfuel).
      * cbn [snd]. rewrite Hcb. cbn [Numbers.deliver]. fold hits n.
        now replace (length (missesOf hashContent (Numbers.cacheOptions options)
                               (table w) texts)) with (n - hits) by lia.
  - unfold events. now rewrite length_map, length_seq.
  - apply Forall_forall. intros ev Hin. unfold events in Hin.
    apply in_map_iff in Hin. destruct Hin as (k & <- & Hk). apply in_seq in Hk.
    cbn [Numbers.total Numbers.current Numbers.percentage].
    split; [reflexivity|]. split; [exists k; split; [lia|reflexivity]|].
    split; [|reflexivity].
    unfold Numbers.arrayLength in Hlen. fold n in Hlen.
    rewrite ofNat_lt by (unfold Numbers.arrayLength; lia). apply Nat.ltb_ge. lia.
  - intros d Hev. unfold events. rewrite hd_map_seq by auto.
    cbn [Numbers.current]. f_equal. lia.
  - intros d Hev. unfold events. rewrite last_map_seq by auto.
    cbn [Numbers.current]. f_equal. lia.
Qed.

(** C3 at work: two hits among eight texts, in batches of four. The six events
    carry 3/8 to 8/8; 37.5, 62.5 and 87.5 are rounded up. *)
Lemma generateEmbeddingsCached_progress_witness :
  exists results stage,
    Numbers.generateEmbeddingsCached plainDigest 8 loadsFine Numbers.eightTexts
      (Numbers.mkCachedOptions None None None (Some (ofZ 4)) (Some Numbers.record))
      (warmWorld, [])
    = (Observers.Resolved results, stage)
    /\ snd stage
       = [Numbers.mkBatchProgress 3 8 38; Numbers.mkBatchProgress 4 8 50;
          Numbers.mkBatchProgress 5 8 63; Numbers.mkBatchProgress 6 8 75;
          Numbers.mkBatchProgress 7 8 88; Numbers.mkBatchProgress 8 8 100]%float.
Proof.
  destruct (generateEmbeddingsCached_progress plainDigest 8 loadsFine Numbers.eightTexts
              (Numbers.mkCachedOptions None None None (Some (ofZ 4))
                                       (Some Numbers.record))
              warmWorld [] Numbers.record mockPipeline eq_refl (fun _ => eq_refl))
    as ((results & stage & Hrun & Hheard) & _).
  - intros callback. discriminate.
  - exact warmWorld_readable.
  - exists 4%Z. split; [reflexivity|]. split; [lia|]. apply Z.leb_le. reflexivity.
  - unfold Numbers.arrayLength. apply Z.ltb_lt. reflexivity.
  - left. reflexivity.
  - cbn. lia.
  - exists results, stage. split; [exact Hrun|]. rewrite Hheard. vm_compute. reflexivity.
Defined.

(** What C3 excludes: with two hits among four texts and a batch size of 1.5,
    the call returns, and the last event has [current] = 4.5 for [total] = 4,
    and [percentage] = 113. *)
Lemma generateEmbeddingsCached_progress_at_fractional_batchSize :
  (let (r, stage) :=
     Numbers.generateEmbeddingsCached plainDigest 4 loadsFine mixedTexts
       (Numbers.mkCachedOptions None None None (Some 1.5%float) (Some Numbers.record))
       (warmWorld, []) in
   (match r with Observers.Resolved results => length results | _ => 0 end) = 4
   /\ snd stage = [Numbers.mkBatchProgress 3 4 75; Numbers.mkBatchProgress 4.5 4 113]%float)
  /\ (4 <? 4.5)%float = true.
Proof. vm_compute. split; [split|]; reflexivity. Qed.

(** The rounding of the percentage is [Math.round]: to the nearest integer,
    a tie going up. *)
Example Math_round_ties :
  map Math_round [0.5; 1.5; 2.5; 12.5; 0x1.0aaaaaaaaaaaap+5; 0x1.0aaaaaaaaaaabp+6;
                  99.5; 112.5; -0.5; -1.5; -2.5; 0x1.fffffffffffffp-2; 4503599627370497]%float
  = [1; 2; 3; 13; 33; 67; 100; 113; -0; -1; -2; 0; 4503599627370497]%float.
Proof. vm_compute. reflexivity. Qed.

(** X22. The batch size is internal as long as it is an integer: for two batch
    sizes that are left out or integers from 1 to 2^52, [generateEmbeddings] on
    the same texts, state and other options ends the same way, with the same
    vectors, the same progress events and the same state, in every outcome:
    the failed load and the observer that throws included. *)
Theorem batch_size_does_not_change_the_result :
  forall fuel attempt texts size size' normalize onProgress onModelLoad stage,
    Numbers.wholeBatchSize size ->
    Numbers.wholeBatchSize size' ->
    Numbers.arrayLength (length texts) ->
    length texts <= fuel ->
    Numbers.generateEmbeddings fuel attempt texts
      (Numbers.mkBatchOptions size normalize onProgress onModelLoad) stage
    = Numbers.generateEmbeddings fuel attempt texts
        (Numbers.mkBatchOptions size' normalize onProgress onModelLoad) stage.
Proof.
  intros fuel attempt texts size size' normalize onProgress onModelLoad stage
    Hsize Hsize' Hlen Hfuel.
  destruct texts as [|text0 rest0] eqn:Htexts; [reflexivity|].
  assert (Hne : texts <> []) by (rewrite Htexts; discriminate).
  rewrite <- Htexts in *. clear Htexts text0 rest0.
  now rewrite !generateEmbeddingsN_flat by assumption.
Qed.

(** X22 at work: batches of one and the default of 32, with an observer that
    throws when the second of three items is done. Both runs reject after the
    same two events and the same two inferences. *)
Lemma batch_size_does_not_change_the_result_witness :
  Numbers.generateEmbeddings 3 loadsFine [lit "a"; lit "b"; lit "c"]
    (Numbers.mkBatchOptions (Some (ofZ 1)) None
       (Some (Numbers.throwsFrom (ofZ 2) (ThrownOther "stop"))) None)
    (freshWorld, [])
  = Numbers.generateEmbeddings 3 loadsFine [lit "a"; lit "b"; lit "c"]
      (Numbers.mkBatchOptions None None
         (Some (Numbers.throwsFrom (ofZ 2) (ThrownOther "stop"))) None)
      (freshWorld, []).
Proof.
  apply batch_size_does_not_change_the_result.
  - exists 1%Z. split; [reflexivity|]. split; [lia|]. apply Z.leb_le. reflexivity.
  - exists 32%Z. split; [reflexivity|]. split; [lia|]. apply Z.leb_le. reflexivity.
  - unfold Numbers.arrayLength. apply Z.ltb_lt. reflexivity.
  - cbn. lia.
Defined.

(** An [onProgress] that throws ends the call where it throws: the texts
    after it are not embedded. *)
Example generateEmbeddings_stops_where_onProgress_throws :
  let (r, stage) :=
    Numbers.generateEmbeddings 3 loadsFine [lit "a"; lit "b"; lit "c"]
      (Numbers.mkBatchOptions None None
         (Some (Numbers.throwsFrom (ofZ 2) (ThrownOther "stop"))) None)
      (freshWorld, []) in
  r = Observers.Rejected (ThrownOther "stop") /\
  inferenceCalls (fst stage) = 2 /\
  map Numbers.current (snd stage) = [1; 2]%float.
Proof. vm_compute. split; [|split]; reflexivity. Qed.

(** [Generator.generateEmbeddings] is [Numbers.generateEmbeddings] at integer
    batch sizes and with observers that do not throw: same completion and
    same world. *)
Lemma integer_batchSize_refines fuel attempt texts size normalize onModelLoad w heard :
  (1 <= size <= 2 ^ 52)%Z ->
  Numbers.arrayLength (length texts) ->
  Numbers.quietLoad onModelLoad ->
  length texts <= fuel ->
  Numbers.generateEmbeddings fuel attempt texts
    (Numbers.mkBatchOptions (Some (ofZ size)) normalize None onModelLoad) (w, heard)
  = let (r, w') := Observers.settled
                     (generateEmbeddings fuel attempt texts
                        (mkBatchOptions (Some size) normalize None
                                        (option_map Observers.heard onModelLoad)) w) in
    (r, (w', heard)).
Proof.
  intros Hsize Hlen Hload Hfuel.
  destruct texts as [|text0 rest0] eqn:Htexts; [reflexivity|].
  assert (Hne : texts <> []) by (rewrite Htexts; discriminate).
  rewrite <- Htexts in *. clear Htexts text0 rest0.
  destruct (getEmbeddingPipeline attempt (option_map Observers.heard onModelLoad) w)
    as [r w1] eqn:Hcall.
  destruct r as [pipeline|e| |].
  - apply getEmbeddingPipeline_returns in Hcall.
    rewrite (generateEmbeddingsN_whole fuel attempt texts _ w heard pipeline);
      try assumption; [| exists size; split; [reflexivity|exact Hsize] | discriminate ].
    rewrite (generateEmbeddings_returns fuel attempt texts _ w pipeline);
      try assumption.
    + cbn [Numbers.bo_onProgress Numbers.deliver bo_onProgress deliver
           Numbers.bo_normalize bo_normalize Numbers.bo_onModelLoad bo_onModelLoad
           Observers.settled].
      now rewrite app_nil_r.
    + unfold validBatchSize. cbn. lia.
    + pose proof (iterations_le_length (length texts) size (proj1 Hsize)).
      cbn [bo_batchSize batchSizeOf]. lia.
  - unfold Numbers.generateEmbeddings, generateEmbeddings. destruct texts; [contradiction|].
    unfold Numbers.bind, Numbers.lift, bind.
    cbn [fst snd Numbers.bo_onModelLoad bo_onModelLoad].
    rewrite quiet_load by exact Hload. now rewrite Hcall.
  - unfold Numbers.generateEmbeddings, generateEmbeddings. destruct texts; [contradiction|].
    unfold Numbers.bind, Numbers.lift, bind.
    cbn [fst snd Numbers.bo_onModelLoad bo_onModelLoad].
    rewrite quiet_load by exact Hload. now rewrite Hcall.
  - unfold Numbers.generateEmbeddings, generateEmbeddings. destruct texts; [contradiction|].
    unfold Numbers.bind, Numbers.lift, bind.
    cbn [fst snd Numbers.bo_onModelLoad bo_onModelLoad].
    rewrite quiet_load by exact Hload. now rewrite Hcall.
Qed.

(* ================================================================= *)
(** * The norm of a normalized vector *)

Section Rounding.
Import Stdlib.Reals.Reals Stdlib.micromega.Lra.
Import Exact.
Local Open Scope R_scope.

Lemma bpow_pos e : 0 < bpow e.
Proof. unfold bpow. apply powerRZ_lt. lra. Qed.

Lemma bpow_add a b : bpow (a + b) = bpow a * bpow b.
Proof. unfold bpow. apply powerRZ_add. lra. Qed.

Lemma bpow_0 : bpow 0 = 1.
Proof. reflexivity. Qed.

Lemma bpow_1 : bpow 1 = 2.
Proof. unfold bpow. apply (powerRZ_1 2). Qed.

Lemma bpow_opp e : bpow (- e) = / bpow e.
Proof. unfold bpow. apply powerRZ_neg'. Qed.

Lemma bpow_succ e : bpow (e + 1) = 2 * bpow e.
Proof. rewrite bpow_add, bpow_1. lra. Qed.

Lemma bpow_IZR n : (0 <= n)%Z -> bpow n = IZR (2 ^ n).
Proof.
  intros Hn. unfold bpow. destruct n as [|p|p]; [reflexivity| |lia].
  change (2 ^ Zpos p)%Z with (Z.pow_pos 2 p). now rewrite Zpower_pos_powerRZ.
Qed.

Lemma bpow_le a b : (a <= b)%Z -> bpow a <= bpow b.
Proof.
  intros Hab. replace b with (a + (b - a))%Z by lia. rewrite bpow_add.
  rewrite (bpow_IZR (b - a)) by lia.
  assert (H1 : (1 <= 2 ^ (b - a))%Z) by (apply Z.lt_pred_le, Z.pow_pos_nonneg; lia).
  apply IZR_le in H1. pose proof (bpow_pos a). nra.
Qed.

Lemma bpow_lt a b : (a < b)%Z -> bpow a < bpow b.
Proof.
  intros Hab. pose proof (bpow_le (a + 1) b ltac:(lia)) as H.
  rewrite bpow_succ in H. pose proof (bpow_pos a). lra.
Qed.

Lemma bpow_lt_inv a b : bpow a < bpow b -> (a < b)%Z.
Proof.
  intros H. destruct (Z.ltb_spec a b) as [|Hge]; [assumption|].
  apply bpow_le in Hge. lra.
Qed.

Lemma bpow_le_inv a b : bpow a <= bpow b -> (a <= b)%Z.
Proof.
  intros H. destruct (Z.leb_spec a b) as [|Hgt]; [assumption|].
  apply bpow_lt in Hgt. lra.
Qed.

(** A positive number of [d] digits lies between 2^(d-1) and 2^d. *)
Lemma digits_bounds p :
  bpow (Zpos (digits2_pos p) - 1) <= IZR (Zpos p) < bpow (Zpos (digits2_pos p)).
Proof.
  rewrite digits2_size. pose proof (size_bounds p) as [Hlo Hhi].
  rewrite !bpow_IZR by lia. split; [now apply IZR_le|now apply IZR_lt].
Qed.

End Rounding.

Section Shape.
Local Open Scope Z_scope.

Lemma shr_1_m mrs : 0 <= shr_m mrs -> shr_m (shr_1 mrs) = shr_m mrs / 2.
Proof.
  destruct mrs as [m r s]. cbn [shr_m]. intros Hm.
  destruct m as [|[p|p|]|p]; cbn [shr_1 shr_m]; try lia; try reflexivity.
  - apply (Z.div_unique _ _ _ 1); lia.
  - apply (Z.div_unique _ _ _ 0); lia.
Qed.

Lemma shr_m_iter n : forall mrs,
  0 <= shr_m mrs -> shr_m (Nat.iter n shr_1 mrs) = shr_m mrs / 2 ^ Z.of_nat n.
Proof.
  induction n as [|n IH]; intros mrs Hm.
  - cbn. now rewrite Z.div_1_r.
  - rewrite Nat.iter_succ. rewrite shr_1_m.
    + rewrite IH by exact Hm. rewrite Z.div_div by (try apply Z.pow_pos_nonneg; lia).
      f_equal. rewrite Nat2Z.inj_succ, Z.pow_succ_r by lia. lia.
    + rewrite IH by exact Hm. apply Z.div_pos; [exact Hm|apply Z.pow_pos_nonneg; lia].
Qed.

Lemma shr_m_record m l : shr_m (shr_record_of_loc m l) = m.
Proof. now destruct l as [|[| |]]. Qed.

Lemma round_nearest_even_step m l :
  round_nearest_even m l = m \/ round_nearest_even m l = m + 1.
Proof. destruct l as [|[| |]]; cbn; try destruct (Z.even m); auto. Qed.

(** Rounding a mantissa of at least 53 digits in the normal range: the
    mantissa is cut to 53 digits, and the result is the cut or the next
    number. *)
Lemma round_aux_shape sx p ex lx :
  53 <= Zpos (digits2_pos p) ->
  -1021 <= Zpos (digits2_pos p) + ex <= 1023 ->
  exists m' e' c,
    binary_round_aux prec emax sx (Zpos p) ex lx = S754_finite sx m' e' /\
    (c = 0 \/ c = 1) /\
    ex + (Zpos (digits2_pos p) - 53) <= e' /\
    Zpos m' * 2 ^ (e' - (ex + (Zpos (digits2_pos p) - 53)))
    = Zpos p / 2 ^ (Zpos (digits2_pos p) - 53) + c.
Proof.
  intros Hd Hmag. set (d := Zpos (digits2_pos p)) in *.
  pose proof (size_bounds p) as [Hlo Hhi]. rewrite <- digits2_size in Hlo, Hhi.
  fold d in Hlo, Hhi.
  set (n := d - 53). set (t := Zpos p / 2 ^ n).
  assert (Hpow : 0 < 2 ^ n) by (apply Z.pow_pos_nonneg; lia).
  assert (Ht : 2 ^ 52 <= t < 2 ^ 53).
  { unfold t. split.
    - apply Z.div_le_lower_bound; [exact Hpow|].
      rewrite <- Z.pow_add_r by lia. now replace (n + 52) with (d - 1) by lia.
    - apply Z.div_lt_upper_bound; [exact Hpow|].
      rewrite <- Z.pow_add_r by lia. now replace (n + 53) with d by lia. }
  unfold binary_round_aux.
  assert (Hfirst : exists mrs, shr_fexp prec emax (Zpos p) ex lx = (mrs, ex + n)
                               /\ shr_m mrs = t).
  { unfold shr_fexp. cbn [Zdigits2]. fold d. rewrite fexp_normal by lia.
    replace (d + ex - 53 - ex) with n by lia.
    destruct n as [|k|k] eqn:Hn; [| |lia].
    - cbn [shr]. eexists. split; [now rewrite Z.add_0_r|].
      rewrite shr_m_record. unfold t. cbn. now rewrite Z.div_1_r.
    - cbn [shr]. eexists. split; [reflexivity|].
      rewrite iter_pos_nat, shr_m_iter by (rewrite shr_m_record; lia).
      now rewrite shr_m_record, positive_nat_Z. }
  destruct Hfirst as (mrs & -> & Hmrs).
  rewrite Hmrs.
  destruct (round_nearest_even_step t (loc_of_shr_record mrs)) as [Hc|Hc]; rewrite Hc.
  - (* the cut itself *)
    destruct t as [|q|q] eqn:Hq; [lia| |lia].
    assert (Hdq : Zpos (digits2_pos q) = 53).
    { rewrite digits2_size. apply size_unique. cbn. lia. }
    unfold shr_fexp. cbn [Zdigits2]. rewrite Hdq, fexp_normal by lia.
    replace (53 + (ex + n) - 53 - (ex + n)) with 0 by lia.
    cbn [shr shr_record_of_loc shr_m]. unfold emax, prec.
    destruct (Z.leb_spec (ex + n) (1024 - 53)) as [_|?]; [|lia].
    exists q, (ex + n), 0. split; [reflexivity|]. split; [now left|].
    split; [lia|]. rewrite Z.sub_diag. cbn. lia.
  - (* the next number *)
    destruct (Z.eq_dec (t + 1) (2 ^ 53)) as [Hcarry|Hnocarry].
    + rewrite Hcarry. unfold shr_fexp. cbn [Zdigits2 digits2_pos Pos.succ].
      change (Zdigits2 (2 ^ 53)) with 54. rewrite fexp_normal by lia.
      replace (54 + (ex + n) - 53 - (ex + n)) with 1 by lia.
      cbn [shr shr_record_of_loc iter_pos]. 
      change (shr_m (shr_1 {| shr_m := 2 ^ 53; shr_r := false; shr_s := false |}))
        with (Zpos (2 ^ 52)%positive).
      cbn iota. unfold emax, prec.
      destruct (Z.leb_spec (ex + n + 1) (1024 - 53)) as [_|?]; [|lia].
      exists (2 ^ 52)%positive, (ex + n + 1), 1. split; [reflexivity|].
      split; [now right|]. split; [lia|].
      replace (ex + n + 1 - (ex + n)) with 1 by lia. rewrite Hcarry. reflexivity.
    + destruct (t + 1) as [|q|q] eqn:Hq; [lia| |lia].
      assert (Hdq : Zpos (digits2_pos q) = 53).
      { rewrite digits2_size. apply size_unique. cbn. lia. }
      unfold shr_fexp. cbn [Zdigits2]. rewrite Hdq, fexp_normal by lia.
      replace (53 + (ex + n) - 53 - (ex + n)) with 0 by lia.
      cbn [shr shr_record_of_loc shr_m]. unfold emax, prec.
      destruct (Z.leb_spec (ex + n) (1024 - 53)) as [_|?]; [|lia].
      exists q, (ex + n), 1. split; [reflexivity|]. split; [now right|].
      split; [lia|]. rewrite Z.sub_diag. cbn. lia.
Qed.
End Shape.

Section RoundingError.
Import Stdlib.Reals.Reals Stdlib.micromega.Lra Stdlib.micromega.Psatz.
Import Exact.
Local Open Scope R_scope.

Lemma u_spec : u * 4503599627370496 = 1.
Proof.
  unfold u. change (bpow (-52)) with (bpow (Z.opp 52)).
  rewrite bpow_opp, (bpow_IZR 52) by lia.
  change (2 ^ 52)%Z with 4503599627370496%Z. field.
Qed.

Lemma u_pos : 0 < u.
Proof. apply bpow_pos. Qed.

(** One rounding of a number in the normal range changes it by at most the
    part [u] of itself. The number is [V]; it is given by the mantissa [p],
    of 53 digits at least, the exponent [ex] and the location [lx]. *)
Lemma round_aux_error sx p ex lx V :
  (53 <= Zpos (digits2_pos p))%Z ->
  IZR (Zpos p) * bpow ex <= V < IZR (Zpos p + 1) * bpow ex ->
  bpow (-1022) <= V < bpow 1023 ->
  exists m' e',
    binary_round_aux prec emax sx (Zpos p) ex lx = S754_finite sx m' e' /\
    V * (1 - u) <= IZR (Zpos m') * bpow e' <= V * (1 + u).
Proof.
  intros Hd [Hlo Hhi] [Hmin Hmax].
  pose proof (digits_bounds p) as [Hplo Hphi].
  set (d := Zpos (digits2_pos p)) in *.
  pose proof (bpow_pos ex) as Hex.
  assert (Hmag : (-1021 <= d + ex <= 1023)%Z).
  { split.
    - assert (H : bpow (-1022) < bpow (d + ex)).
      { rewrite bpow_add. rewrite plus_IZR in Hhi.
        assert (IZR (Zpos p) + 1 <= bpow d).
        { rewrite bpow_IZR in * by lia. rewrite <- plus_IZR. apply IZR_le.
          apply lt_IZR in Hphi. lia. }
        nra. }
      apply bpow_lt_inv in H. lia.
    - assert (H : bpow (d - 1 + ex) < bpow 1023).
      { rewrite bpow_add. nra. }
      apply bpow_lt_inv in H. lia. }
  destruct (round_aux_shape sx p ex lx Hd Hmag) as (m' & e' & c & Hround & Hc & He' & Hm').
  fold d in He', Hm'.
  exists m', e'. split; [exact Hround|].
  set (n := (d - 53)%Z) in *. set (t := (Zpos p / 2 ^ n)%Z) in *.
  assert (Hpow : (0 < 2 ^ n)%Z) by (apply Z.pow_pos_nonneg; lia).
  assert (Hy : IZR (Zpos m') * bpow e' = IZR (t + c) * bpow (ex + n)).
  { replace e' with ((e' - (ex + n)) + (ex + n))%Z at 1 by lia.
    rewrite bpow_add, (bpow_IZR (e' - (ex + n))) by lia.
    rewrite <- Rmult_assoc, <- mult_IZR, Hm'. reflexivity. }
  rewrite Hy. rewrite bpow_add, (bpow_IZR n) by lia.
  assert (Ht : (2 ^ 52 <= t)%Z).
  { unfold t. apply Z.div_le_lower_bound; [exact Hpow|].
    rewrite <- Z.pow_add_r by lia. replace (n + 52)%Z with (d - 1)%Z by lia.
    rewrite bpow_IZR in Hplo by lia. now apply le_IZR. }
  assert (Hdiv : (t * 2 ^ n <= Zpos p < (t + 1) * 2 ^ n)%Z).
  { unfold t. pose proof (Z.mul_div_le (Zpos p) (2 ^ n) Hpow).
    pose proof (Z.mul_succ_div_gt (Zpos p) (2 ^ n) Hpow). lia. }
  destruct Hdiv as [Hdlo Hdhi].
  apply IZR_le in Hdlo. rewrite mult_IZR in Hdlo.
  assert (Hdhi' : (Zpos p + 1 <= (t + 1) * 2 ^ n)%Z) by lia.
  apply IZR_le in Hdhi'. rewrite mult_IZR, !plus_IZR in Hdhi'.
  apply IZR_le in Ht. change (IZR (2 ^ 52)) with 4503599627370496 in Ht.
  rewrite plus_IZR in *.
  set (T := IZR t) in *. set (N := IZR (2 ^ n)) in *. set (P := IZR (Zpos p)) in *.
  assert (HN : 0 < N) by (unfold N; now apply IZR_lt).
  set (E := bpow ex * N).
  assert (HE : 0 < E) by (unfold E; nra).
  assert (HTE : T * E <= V) by (unfold E; nra).
  assert (HTE' : V < (T + 1) * E) by (unfold E; nra).
  assert (HEV : E * 4503599627370496 <= V) by nra.
  pose proof u_spec as Hu.
  assert (HW : E <= V * u) by nra.
  replace ((T + IZR c) * (bpow ex * N)) with ((T + IZR c) * E) by reflexivity.
  destruct Hc as [-> | ->]; cbn [IZR]; nra.
Qed.

End RoundingError.

Section Operations.
Import Stdlib.Reals.Reals Stdlib.micromega.Lra Stdlib.micromega.Psatz.
Import Exact.
Local Open Scope R_scope.

Lemma digits_ge p k : (2 ^ (k - 1) <= Zpos p)%Z -> (k <= Zpos (digits2_pos p))%Z.
Proof.
  intros Hk. pose proof (size_bounds p) as [_ Hhi]. rewrite <- digits2_size in Hhi.
  destruct (Z.leb_spec k (Zpos (digits2_pos p))) as [|Hgt]; [assumption|].
  assert (2 ^ Zpos (digits2_pos p) <= 2 ^ (k - 1))%Z by (apply Z.pow_le_mono_r; lia).
  lia.
Qed.

Lemma digits53 m :
  Zpos (digits2_pos m) = 53%Z ->
  (2 ^ 52 <= Zpos m < 2 ^ 53)%Z /\ bpow 52 <= IZR (Zpos m) < bpow 53.
Proof.
  intros Hd. pose proof (size_bounds m) as [Hlo Hhi].
  rewrite <- digits2_size, Hd in Hlo, Hhi. change (53 - 1)%Z with 52%Z in Hlo.
  split; [split; assumption|]. rewrite !bpow_IZR by lia.
  split; [now apply IZR_le|now apply IZR_lt].
Qed.

(** A finite number as [Prim2SF] gives it: the exponent is in range and the
    mantissa has the digits the exponent calls for. *)
Lemma finite_valid x s m e :
  Prim2SF x = S754_finite s m e ->
  (-1074 <= e <= 971)%Z /\
  (Zpos (digits2_pos m) <= 53)%Z /\
  (-1074 < e -> Zpos (digits2_pos m) = 53)%Z.
Proof.
  intros Hx. pose proof (Prim2SF_valid x) as Hv. rewrite Hx in Hv.
  cbn [SpecFloat.valid_binary] in Hv. unfold bounded, canonical_mantissa in Hv.
  apply andb_true_iff in Hv. destruct Hv as [Hc He].
  apply Z.eqb_eq in Hc. apply Z.leb_le in He.
  unfold fexp, emin, emax, prec in *. lia.
Qed.

(** The square of a number whose magnitude is neither tiny nor huge. *)
Lemma square_error x s m e :
  Prim2SF x = S754_finite s m e ->
  (-500 <= e <= 400)%Z ->
  exists m' e',
    Prim2SF (x * x) = S754_finite false m' e' /\
    let V := (IZR (Zpos m) * bpow e) * (IZR (Zpos m) * bpow e) in
    V * (1 - u) <= IZR (Zpos m') * bpow e' <= V * (1 + u).
Proof.
  intros Hx He. destruct (finite_valid x s m e Hx) as (_ & _ & Hd).
  specialize (Hd ltac:(lia)).
  destruct (digits53 m Hd) as [[Hlo Hhi] _].
  rewrite mul_spec, Hx. unfold SF64mul. cbn [SFmul]. rewrite xorb_nilpotent.
  cbv zeta.
  assert (Hmm : (2 ^ 104 <= Zpos (m * m) < 2 ^ 106)%Z).
  { rewrite Pos2Z.inj_mul. change (2 ^ 104)%Z with (2 ^ 52 * 2 ^ 52)%Z.
    change (2 ^ 106)%Z with (2 ^ 53 * 2 ^ 53)%Z. nia. }
  destruct Hmm as [Hmlo Hmhi].
  assert (Hval : IZR (Zpos (m * m)) * bpow (e + e)
                 = (IZR (Zpos m) * bpow e) * (IZR (Zpos m) * bpow e)).
  { rewrite Pos2Z.inj_mul, mult_IZR, bpow_add. ring. }
  rewrite <- Hval.
  pose proof (bpow_pos (e + e)) as Hpos.
  apply round_aux_error.
  - apply digits_ge. cbn. lia.
  - rewrite plus_IZR. split; [lra|nra].
  - apply IZR_le in Hmlo. apply IZR_lt in Hmhi.
    rewrite <- (bpow_IZR 104) in Hmlo by lia. rewrite <- (bpow_IZR 106) in Hmhi by lia.
    split.
    + apply Rle_trans with (bpow 104 * bpow (e + e)); [|nra].
      rewrite <- bpow_add. apply bpow_le. lia.
    + apply Rlt_le_trans with (bpow 106 * bpow (e + e)); [nra|].
      rewrite <- bpow_add. apply bpow_le. lia.
Qed.

Lemma shl_align_fst m e ez :
  (ez <= e)%Z -> Zpos (fst (shl_align m e ez)) = (Zpos m * 2 ^ (e - ez))%Z.
Proof.
  intros Hle. unfold shl_align. destruct (ez - e)%Z as [|k|k] eqn:Hk; cbn [fst].
  - replace (e - ez)%Z with 0%Z by lia. cbn. lia.
  - lia.
  - rewrite iter_xO. f_equal. f_equal. lia.
Qed.

(** The sum of two positive numbers. *)
Lemma add_error a b ma ea mb eb :
  Prim2SF a = S754_finite false ma ea ->
  Prim2SF b = S754_finite false mb eb ->
  Zpos (digits2_pos ma) = 53%Z ->
  let V := IZR (Zpos ma) * bpow ea + IZR (Zpos mb) * bpow eb in
  V < bpow 1023 ->
  exists m' e',
    Prim2SF (a + b) = S754_finite false m' e' /\
    V * (1 - u) <= IZR (Zpos m') * bpow e' <= V * (1 + u).
Proof.
  intros Ha Hb Hda V Hmax.
  destruct (finite_valid a _ _ _ Ha) as (Hea & _ & _).
  destruct (finite_valid b _ _ _ Hb) as (Heb & _ & _).
  destruct (digits53 ma Hda) as [[Hlo Hhi] [HloR HhiR]].
  rewrite add_spec, Ha, Hb. unfold SF64add. cbn [SFadd cond_Zopp].
  set (ez := Z.min ea eb).
  pose proof (shl_align_fst ma ea ez ltac:(unfold ez; lia)) as HA.
  pose proof (shl_align_fst mb eb ez ltac:(unfold ez; lia)) as HB.
  set (A := fst (shl_align ma ea ez)) in *. set (B := fst (shl_align mb eb ez)) in *.
  change (Zpos A + Zpos B)%Z with (Zpos (A + B)). cbn [binary_normalize].
  assert (HAlo : (2 ^ 52 <= Zpos A)%Z).
  { rewrite HA. assert (0 < 2 ^ (ea - ez))%Z by (apply Z.pow_pos_nonneg; unfold ez; lia).
    nia. }
  assert (Hdigits : (53 <= Zpos (digits2_pos (A + B)))%Z).
  { apply digits_ge. rewrite Pos2Z.inj_add. cbn. lia. }
  unfold binary_round.
  assert (Hshl : shl_align (A + B) ez
                   (fexp prec emax (Zpos (digits2_pos (A + B)) + ez)) = ((A + B)%positive, ez)).
  { unfold shl_align, fexp, emin, prec, emax.
    destruct (Z.max (Zpos (digits2_pos (A + B)) + ez - 53) (3 - 1024 - 53) - ez)%Z
      as [|k|k] eqn:Hk; try reflexivity. lia. }
  rewrite Hshl.
  assert (Hval : IZR (Zpos (A + B)) * bpow ez = V).
  { unfold V. rewrite Pos2Z.inj_add, plus_IZR, HA, HB, !mult_IZR.
    rewrite <- !bpow_IZR by (unfold ez; lia).
    rewrite Rmult_plus_distr_r, !Rmult_assoc, <- !bpow_add.
    now replace (ea - ez + ez)%Z with ea by lia; replace (eb - ez + ez)%Z with eb by lia. }
  pose proof (bpow_pos ez) as Hpos.
  apply round_aux_error; [exact Hdigits| |].
  - rewrite plus_IZR, Hval. split; [lra|]. rewrite <- Hval. nra.
  - split; [|exact Hmax].
    apply Rle_trans with (IZR (Zpos ma) * bpow ea).
    + apply Rle_trans with (bpow 52 * bpow ea).
      * rewrite <- bpow_add. apply bpow_le. lia.
      * pose proof (bpow_pos ea). nra.
    + unfold V. pose proof (bpow_pos eb).
      assert (0 < IZR (Zpos mb)) by (apply IZR_lt; lia). nra.
Qed.

End Operations.

Section Roots.
Import Stdlib.Reals.Reals Stdlib.micromega.Lra Stdlib.micromega.Psatz.
Import Exact.
Local Open Scope R_scope.

Lemma sqrt_bracket V q E :
  0 <= q -> 0 < E -> (q * q) * (E * E) <= V < ((q + 1) * (q + 1)) * (E * E) ->
  q * E <= sqrt V < (q + 1) * E.
Proof.
  intros Hq HE [Hlo Hhi]. split.
  - rewrite <- (sqrt_square (q * E)) by nra. apply sqrt_le_1_alt. nra.
  - rewrite <- (sqrt_square ((q + 1) * E)) by nra. apply sqrt_lt_1_alt. nra.
Qed.

(** The square root of a positive number in the normal range. *)
Lemma sqrt_error a m e :
  Prim2SF a = S754_finite false m e ->
  Zpos (digits2_pos m) = 53%Z ->
  let V := IZR (Zpos m) * bpow e in
  exists m' e',
    Prim2SF (PrimFloat.sqrt a) = S754_finite false m' e' /\
    sqrt V * (1 - u) <= IZR (Zpos m') * bpow e' <= sqrt V * (1 + u).
Proof.
  intros Ha Hd V.
  destruct (finite_valid a _ _ _ Ha) as (He & _ & _).
  destruct (digits53 m Hd) as [[Hlo Hhi] _].
  rewrite sqrt_spec, Ha. unfold SF64sqrt. cbn [SFsqrt]. unfold SFsqrt_core_binary.
  cbn [Zdigits2]. rewrite Hd.
  set (h := (e / 2)%Z).
  assert (He' : Z.min (fexp prec emax (Z.div2 (53 + e + 1))) (Z.div2 e) = (h - 26)%Z).
  { rewrite !Z.div2_div. unfold fexp, emin, prec, emax, h.
    Z.div_mod_to_equations. lia. }
  rewrite He'.
  assert (Hs : (e - 2 * (h - 26) = 52 \/ e - 2 * (h - 26) = 53)%Z)
    by (unfold h; Z.div_mod_to_equations; lia).
  assert (Hh : (-537 <= h <= 485)%Z) by (unfold h; Z.div_mod_to_equations; lia).
  set (s := (e - 2 * (h - 26))%Z) in *.
  set (M := (Zpos m * 2 ^ s)%Z).
  assert (HM : match s with
               | Zpos _ => Z.shiftl (Zpos m) s
               | Z0 => Zpos m
               | Zneg _ => 0%Z
               end = M).
  { unfold M. destruct s as [|k|k] eqn:Hk; [lia| |lia].
    rewrite Z.shiftl_mul_pow2 by lia. reflexivity. }
  rewrite HM.
  assert (HMrange : (2 ^ 104 <= M < 2 ^ 106)%Z).
  { unfold M. destruct Hs as [-> | ->].
    - change (2 ^ 104)%Z with (2 ^ 52 * 2 ^ 52)%Z.
      change (2 ^ 106)%Z with (2 ^ 54 * 2 ^ 52)%Z. lia.
    - change (2 ^ 104)%Z with (2 ^ 51 * 2 ^ 53)%Z.
      change (2 ^ 106)%Z with (2 ^ 53 * 2 ^ 53)%Z. lia. }
  pose proof (Z.sqrtrem_spec M ltac:(lia)) as Hspec.
  destruct (Z.sqrtrem M) as [q r]. destruct Hspec as [HMq Hr].
  assert (Hq : (2 ^ 52 <= q < 2 ^ 53)%Z).
  { change (2 ^ 104)%Z with (2 ^ 52 * 2 ^ 52)%Z in HMrange.
    change (2 ^ 106)%Z with (2 ^ 53 * 2 ^ 53)%Z in HMrange. nia. }
  destruct q as [|q|q]; [lia| |lia].
  assert (HV : V = IZR M * (bpow (h - 26) * bpow (h - 26))).
  { unfold V, M. rewrite mult_IZR, <- bpow_IZR by lia.
    rewrite Rmult_assoc, <- !bpow_add. f_equal. f_equal. unfold s. lia. }
  pose proof (bpow_pos (h - 26)) as HE.
  assert (Hbracket : IZR (Zpos q) * bpow (h - 26) <= sqrt V
                     < (IZR (Zpos q) + 1) * bpow (h - 26)).
  { apply sqrt_bracket; [apply IZR_le; lia|exact HE|].
    rewrite HV, HMq, plus_IZR, mult_IZR.
    assert (0 <= IZR r <= 2 * IZR (Zpos q)).
    { split; [apply IZR_le; lia|]. rewrite <- mult_IZR. apply IZR_le. lia. }
    assert (0 < bpow (h - 26) * bpow (h - 26)) by nra.
    split; nra. }
  destruct Hq as [Hqlo Hqhi].
  assert (Hqhi' : IZR (Zpos q) + 1 <= bpow 53).
  { rewrite bpow_IZR by lia. rewrite <- plus_IZR. apply IZR_le. lia. }
  apply IZR_le in Hqlo. rewrite <- (bpow_IZR 52) in Hqlo by lia.
  apply round_aux_error.
  - apply digits_ge. apply le_IZR. rewrite <- bpow_IZR by lia. exact Hqlo.
  - now rewrite plus_IZR.
  - split.
    + apply Rle_trans with (bpow 52 * bpow (h - 26)); [|nra].
      rewrite <- bpow_add. apply bpow_le. lia.
    + apply Rlt_le_trans with (bpow 53 * bpow (h - 26)); [nra|].
      rewrite <- bpow_add. apply bpow_le. lia.
Qed.

(** The quotient of a number by a positive one, both in the normal range,
    when the quotient is neither tiny nor huge. *)
Lemma div_error x y s mx ex my ey :
  Prim2SF x = S754_finite s mx ex ->
  Prim2SF y = S754_finite false my ey ->
  Zpos (digits2_pos mx) = 53%Z ->
  Zpos (digits2_pos my) = 53%Z ->
  (-1000 <= ex - ey <= 900)%Z ->
  let Q := (IZR (Zpos mx) * bpow ex) / (IZR (Zpos my) * bpow ey) in
  exists m' e',
    Prim2SF (x / y) = S754_finite s m' e' /\
    Q * (1 - u) <= IZR (Zpos m') * bpow e' <= Q * (1 + u).
Proof.
  intros Hx Hy Hdx Hdy Hexp Q.
  destruct (digits53 mx Hdx) as [[Hxlo Hxhi] _].
  destruct (digits53 my Hdy) as [[Hylo Hyhi] _].
  rewrite div_spec, Hx, Hy. unfold SF64div. cbn [SFdiv]. unfold SFdiv_core_binary.
  cbn [Zdigits2]. rewrite Hdx, Hdy, xorb_false_r.
  assert (He' : Z.min (fexp prec emax (53 + ex - (53 + ey))) (ex - ey) = (ex - ey - 53)%Z).
  { unfold fexp, emin, prec, emax. lia. }
  rewrite He'. replace (ex - ey - (ex - ey - 53))%Z with 53%Z by lia.
  rewrite Z.shiftl_mul_pow2 by lia.
  set (M := (Zpos mx * 2 ^ 53)%Z).
  pose proof (Z.div_eucl_eq M (Zpos my) ltac:(lia)) as Heq.
  pose proof (Z.mod_pos_bound M (Zpos my) ltac:(lia)) as Hrem.
  unfold Z.modulo in Hrem.
  destruct (Z.div_eucl M (Zpos my)) as [q r].
  assert (Hq : (2 ^ 52 <= q < 2 ^ 54)%Z).
  { unfold M in Heq. 
    change (2 ^ 53)%Z with 9007199254740992%Z in *.
    change (2 ^ 52)%Z with 4503599627370496%Z in *.
    change (2 ^ 54)%Z with 18014398509481984%Z in *. nia. }
  destruct q as [|q|q]; [lia| |lia].
  set (E := bpow (ex - ey - 53)).
  assert (HE : 0 < E) by apply bpow_pos.
  assert (Hy0 : 0 < IZR (Zpos my) * bpow ey).
  { pose proof (bpow_pos ey). assert (0 < IZR (Zpos my)) by (apply IZR_lt; lia). nra. }
  assert (HQ : Q * IZR (Zpos my) = IZR M * E).
  { unfold Q, M, E. rewrite mult_IZR, <- (bpow_IZR 53) by lia.
    replace (ex - ey - 53)%Z with (ex + (- ey) + (- (53)))%Z by lia.
    rewrite !bpow_add, !bpow_opp. field.
    pose proof (bpow_pos ey). pose proof (bpow_pos 53).
    assert (0 < IZR (Zpos my)) by (apply IZR_lt; lia). repeat split; lra. }
  assert (Hbracket : IZR (Zpos q) * E <= Q < IZR (Zpos q + 1) * E).
  { rewrite plus_IZR.
    assert (HM : IZR M = IZR (Zpos my) * IZR (Zpos q) + IZR r)
      by (rewrite Heq, plus_IZR, mult_IZR; reflexivity).
    assert (Hr : 0 <= IZR r < IZR (Zpos my)).
    { split; [apply IZR_le; lia|apply IZR_lt; lia]. }
    assert (Hmy : 0 < IZR (Zpos my)) by (apply IZR_lt; lia).
    rewrite HM in HQ.
    split.
    - apply Rmult_le_reg_r with (IZR (Zpos my)); [exact Hmy|]. rewrite HQ. nra.
    - apply Rmult_lt_reg_r with (IZR (Zpos my)); [exact Hmy|]. rewrite HQ. nra. }
  destruct Hq as [Hqlo Hqhi]. apply IZR_le in Hqlo. apply IZR_lt in Hqhi.
  rewrite <- (bpow_IZR 52) in Hqlo by lia. rewrite <- (bpow_IZR 54) in Hqhi by lia.
  apply round_aux_error.
  - apply digits_ge. apply le_IZR. rewrite <- bpow_IZR by lia. exact Hqlo.
  - exact Hbracket.
  - destruct Hbracket as [Hblo Hbhi]. split.
    + apply Rle_trans with (bpow 52 * E); [|nra].
      unfold E. rewrite <- bpow_add. apply bpow_le. lia.
    + apply Rlt_le_trans with (bpow 54 * E).
      * rewrite plus_IZR in Hbhi.
        assert (IZR (Zpos q) + 1 <= bpow 54).
        { rewrite bpow_IZR by lia. rewrite <- plus_IZR. apply IZR_le.
          rewrite bpow_IZR in Hqhi by lia. apply lt_IZR in Hqhi. lia. }
        nra.
      * unfold E. rewrite <- bpow_add. apply bpow_le. lia.
Qed.

End Roots.

Section Norm.
Import Stdlib.Reals.Reals Stdlib.micromega.Lra Stdlib.micromega.Psatz.
Import Exact.
Local Open Scope R_scope.

(** Bernoulli's inequality, for the accumulated roundings. *)
Lemma pow_minus k : 1 - INR k * u <= (1 - u) ^ k <= 1.
Proof.
  pose proof u_pos as Hu. pose proof u_spec as Hu1.
  induction k as [|k IH]; [cbn; lra|].
  rewrite S_INR. cbn [pow]. pose proof (pos_INR k). nra.
Qed.

Lemma pow_plus k : 1 <= (1 + u) ^ k /\ (1 + u) ^ k * (1 - INR k * u) <= 1.
Proof.
  pose proof u_pos as Hu.
  induction k as [|k [IH1 IH2]]; [cbn; lra|].
  rewrite S_INR. cbn [pow]. pose proof (pos_INR k). split; [nra|].
  assert ((1 + u) * (1 - (INR k + 1) * u) <= 1 - INR k * u) by nra.
  nra.
Qed.

Lemma INR_array k : (Z.of_nat k <= 2 ^ 33)%Z -> INR k * u <= bpow (-19).
Proof.
  intros Hk. rewrite INR_IZR_INZ. apply IZR_le in Hk.
  rewrite <- bpow_IZR in Hk by lia. unfold u.
  replace (-19)%Z with (33 + -52)%Z by lia. rewrite bpow_add.
  pose proof (bpow_pos (-52)). nra.
Qed.

Lemma bpow_m19 : bpow (-19) = / 524288.
Proof.
  change (bpow (-19)) with (bpow (Z.opp 19)). rewrite bpow_opp, (bpow_IZR 19) by lia.
  reflexivity.
Qed.

Lemma u_small : u <= / 4503599627370496.
Proof. pose proof u_spec. pose proof u_pos. apply Req_le. field_simplify_eq; lra. Qed.

(** The value of a finite number. *)
Lemma value_finite x s m e :
  Prim2SF x = S754_finite s m e ->
  value x = IZR (cond_Zopp s (Zpos m)) * bpow e.
Proof. intros Hx. unfold value. now rewrite Hx. Qed.

Lemma value_square x s m e :
  Prim2SF x = S754_finite s m e ->
  value x * value x = (IZR (Zpos m) * bpow e) * (IZR (Zpos m) * bpow e).
Proof.
  intros Hx. rewrite (value_finite x s m e Hx).
  destruct s; cbn [cond_Zopp]; [|reflexivity].
  change (Z.neg m) with (- Zpos m)%Z. rewrite opp_IZR. ring.
Qed.

Lemma value_zero x s : Prim2SF x = S754_zero s -> value x = 0.
Proof. intros Hx. unfold value. now rewrite Hx. Qed.

(** A number of a magnitude of 2^-1000 at least has a full mantissa. *)
Lemma normal_digits x s m e :
  Prim2SF x = S754_finite s m e ->
  bpow (-1000) <= IZR (Zpos m) * bpow e ->
  Zpos (digits2_pos m) = 53%Z.
Proof.
  intros Hx Hv. destruct (finite_valid x s m e Hx) as (He & Hd & Hfull).
  apply Hfull.
  pose proof (digits_bounds m) as [_ Hhi].
  assert (H : bpow (-1000) < bpow (53 + e)).
  { rewrite bpow_add. pose proof (bpow_pos e).
    assert (bpow (Zpos (digits2_pos m)) <= bpow 53) by (apply bpow_le; lia). nra. }
  apply bpow_lt_inv in H. lia.
Qed.

(** A component in the binary32 range: zero, or a full mantissa under an
    exponent from -201 to 75. *)
Lemma float32Range_cases x :
  float32Range x = true ->
  (exists s, Prim2SF x = S754_zero s) \/
  (exists s m e, Prim2SF x = S754_finite s m e /\ Zpos (digits2_pos m) = 53%Z
                 /\ (-201 <= e <= 75)%Z).
Proof.
  unfold float32Range. destruct (Prim2SF x) as [s|s| |s m e] eqn:Hx; try discriminate.
  - intros _. left. now exists s.
  - intros Hr. right. exists s, m, e. apply andb_true_iff in Hr. destruct Hr as [Hlo Hhi].
    apply Z.leb_le in Hlo, Hhi.
    destruct (finite_valid x s m e Hx) as (He & Hd & Hfull).
    assert (Zpos (digits2_pos m) = 53%Z) by (apply Hfull; lia).
    split; [reflexivity|]. split; [assumption|lia].
Qed.

Lemma square_zero x s : Prim2SF x = S754_zero s -> Prim2SF (x * x) = S754_zero false.
Proof.
  intros Hx. rewrite mul_spec, Hx. unfold SF64mul. cbn [SFmul]. now rewrite xorb_nilpotent.
Qed.

Lemma pow_half j :
  (Z.of_nat j <= 2 ^ 33)%Z ->
  / 2 <= (1 - u) ^ j <= 1 /\ 1 <= (1 + u) ^ j <= 2.
Proof.
  intros Hj. pose proof (pow_minus j) as [Hm1 Hm2]. pose proof (pow_plus j) as [Hp1 Hp2].
  pose proof (INR_array j Hj) as Hk. rewrite bpow_m19 in Hk.
  split; [split; lra|]. split; [lra|]. nra.
Qed.

Lemma sum_step acc S j x :
  sumInvariant acc S j ->
  float32Range x = true ->
  (Z.of_nat j < 2 ^ 32)%Z ->
  sumInvariant (acc + x * x)%float (S + value x * value x) (Datatypes.S j).
Proof.
  intros Hinv Hx Hj.
  pose proof u_pos as Hu. pose proof u_small as Hus.
  assert (Hj1 : (Z.of_nat (Datatypes.S j) <= 2 ^ 33)%Z) by lia.
  destruct (pow_half (Datatypes.S j) Hj1) as [[HP1 HP2] [HQ1 HQ2]].
  cbn [pow] in HP1, HP2, HQ1, HQ2.
  assert (HAj : 0 <= (1 - u) ^ j <= 1).
  { destruct (pow_half j ltac:(lia)) as [[? ?] _]. lra. }
  assert (HBj : 1 <= (1 + u) ^ j) by (destruct (pow_half j ltac:(lia)) as [_ [? ?]]; lra).
  unfold sumInvariant in *. cbn [pow] in *.
  assert (HP3 : (1 - u) * (1 - u) ^ j <= 1 - u) by nra.
  assert (HQ3 : 1 + u <= (1 + u) * (1 + u) ^ j) by nra.
  set (P := (1 - u) * (1 - u) ^ j) in *. set (Q := (1 + u) * (1 + u) ^ j) in *.
  clearbody P Q. clear HAj HBj.
  assert (HINR : INR (Datatypes.S j) = INR j + 1) by apply S_INR.
  pose proof (pos_INR j) as Hjpos.
  pose proof (bpow_pos 256) as H256. pose proof (bpow_pos (-298)) as H298.
  assert (Hshrink : forall T W, 0 <= T -> T * P <= W -> T * ((1 - u) * P) <= W * (1 - u)).
  { intros T W HT HW. assert (0 <= T * P) by nra. nra. }
  assert (Hgrow : forall T W, 0 <= T -> W <= T * Q -> W * (1 + u) <= T * ((1 + u) * Q)).
  { intros T W HT HW. assert (0 <= T * Q) by nra. nra. }
  destruct (float32Range_cases x Hx) as [[s Hzero]|(s & m & e & Hfin & Hd & He)].
  - (* a zero component *)
    rewrite (value_zero x s Hzero), Rmult_0_l, Rplus_0_r.
    pose proof (square_zero x s Hzero) as Hsq.
    destruct Hinv as [[HS Hacc]|(HSr & (ma & ea & Hacc) & Hval)].
    + left. split; [exact HS|]. rewrite add_spec, Hacc, Hsq. reflexivity.
    + right. assert (Hsame : Prim2SF (acc + x * x) = Prim2SF acc).
      { rewrite add_spec, Hacc, Hsq. reflexivity. }
      split; [rewrite HINR; nra|]. split; [exists ma, ea; now rewrite Hsame|].
      unfold value. rewrite Hsame. fold (value acc).
      assert (HS0 : 0 <= S) by lra. destruct Hval as [Hlo Hhi].
      assert (0 <= S * P) by nra. assert (0 <= S * Q) by nra.
      split.
      * apply Rle_trans with (value acc * (1 - u)); [now apply Hshrink|nra].
      * apply Rle_trans with (value acc * (1 + u)); [nra|now apply Hgrow].
  - (* a component that is not zero *)
    destruct (square_error x s m e Hfin ltac:(lia)) as (m' & e' & Hsq & Herr).
    cbv zeta in Herr. rewrite <- (value_square x s m e Hfin) in Herr.
    assert (HV : bpow (-298) <= value x * value x <= bpow 256).
    { rewrite (value_square x s m e Hfin).
      destruct (digits53 m Hd) as [_ [Hlo Hhi]].
      pose proof (bpow_pos e) as Hpe.
      assert (Helo : bpow (-201) <= bpow e) by (apply bpow_le; lia).
      assert (Hehi : bpow e <= bpow 75) by (apply bpow_le; lia).
      pose proof (bpow_pos (-201)). pose proof (bpow_pos 52).
      pose proof (bpow_pos 53). pose proof (bpow_pos 75).
      split.
      - replace (-298)%Z with ((52 + -201) + (52 + -201))%Z by lia.
        rewrite !bpow_add. apply Rmult_le_compat; nra.
      - replace 256%Z with ((53 + 75) + (53 + 75))%Z by lia.
        rewrite !bpow_add. apply Rmult_le_compat; nra. }
    set (V := value x * value x) in *. clearbody V.
    set (Vb := IZR (Zpos m') * bpow e') in *.
    assert (HV0 : 0 < V) by lra.
    assert (HVb : V * P <= Vb <= V * Q) by (split; nra).
    destruct Hinv as [[HS Hacc]|(HSr & (ma & ea & Hacc) & Hval)].
    + right. assert (Hsame : Prim2SF (acc + x * x) = S754_finite false m' e').
      { rewrite add_spec, Hacc, Hsq. reflexivity. }
      rewrite HS, Rplus_0_l.
      split; [rewrite HINR; nra|]. split; [now exists m', e'|].
      rewrite (value_finite _ _ _ _ Hsame). cbn [cond_Zopp]. fold Vb.
      assert (0 <= V * P) by nra. assert (0 <= V * Q) by nra.
      split.
      * apply Rle_trans with (Vb * (1 - u)); [apply Hshrink; lra|nra].
      * apply Rle_trans with (Vb * (1 + u)); [nra|apply Hgrow; lra].
    + right.
      rewrite (value_finite _ _ _ _ Hacc) in Hval. cbn [cond_Zopp] in Hval.
      assert (HS0 : 0 < S) by lra.
      set (Va := IZR (Zpos ma) * bpow ea) in *.
      assert (HSP : bpow (-298) * / 2 <= S * P) by nra.
      assert (HSQ : S * Q <= (INR j * bpow 256) * 2) by (assert (0 <= INR j * bpow 256) by nra; nra).
      assert (HVQ : V * Q <= bpow 256 * 2) by nra.
      assert (Hda : Zpos (digits2_pos ma) = 53%Z).
      { apply (normal_digits acc false ma ea Hacc). fold Va.
        apply Rle_trans with (bpow (-298) * / 2); [|lra].
        replace (-1000)%Z with (-298 + -702)%Z by lia. rewrite bpow_add.
        assert (bpow (-702) <= bpow (-1)) by (apply bpow_le; lia).
        change (bpow (-1)) with (bpow (Z.opp 1)) in *. rewrite bpow_opp, bpow_1 in *. nra. }
      assert (Hmax : Va + Vb < bpow 1023).
      { apply Rle_lt_trans with ((INR j + 1) * (bpow 256 * 2)); [nra|].
        rewrite <- S_INR, INR_IZR_INZ.
        apply IZR_le in Hj1. rewrite <- bpow_IZR in Hj1 by lia.
        apply Rle_lt_trans with (bpow 33 * (bpow 256 * bpow 1)); [rewrite bpow_1; nra|].
        rewrite <- !bpow_add. apply bpow_lt. lia. }
      destruct (add_error acc (x * x) ma ea m' e' Hacc Hsq Hda Hmax)
        as (m2 & e2 & Hsum & Hsumerr).
      fold Va Vb in Hsumerr.
      split; [rewrite HINR; nra|]. split; [now exists m2, e2|].
      rewrite (value_finite _ _ _ _ Hsum). cbn [cond_Zopp].
      split.
      * apply Rle_trans with ((Va + Vb) * (1 - u)); [apply Hshrink; nra|lra].
      * apply Rle_trans with ((Va + Vb) * (1 + u)); [lra|apply Hgrow; nra].
Qed.

End Norm.

Section Magnitude.
Import Stdlib.Reals.Reals Stdlib.micromega.Lra Stdlib.micromega.Psatz.
Import Exact.
Local Open Scope R_scope.

Lemma sum_fold vector : forall acc S j,
  sumInvariant acc S j ->
  Forall (fun x => float32Range x = true) vector ->
  (Z.of_nat (j + length vector) <= 2 ^ 32)%Z ->
  sumInvariant (fold_left (fun sum val => (sum + val * val)%float) vector acc)
               (S + squaredNorm vector) (j + length vector).
Proof.
  induction vector as [|x rest IH]; intros acc S j Hinv Hall Hlen.
  - cbn [fold_left squaredNorm fold_right length]. now rewrite Rplus_0_r, Nat.add_0_r.
  - cbn [fold_left squaredNorm fold_right length] in *.
    fold (squaredNorm rest). inversion Hall as [|? ? Hx Hrest]; subst.
    replace (S + (value x * value x + squaredNorm rest))
      with ((S + value x * value x) + squaredNorm rest) by ring.
    replace (j + Datatypes.S (length rest))%nat with (Datatypes.S j + length rest)%nat by lia.
    apply IH; [|exact Hrest|lia].
    apply sum_step; [exact Hinv|exact Hx|lia].
Qed.

Lemma squaredNorm_nonneg vector : 0 <= squaredNorm vector.
Proof.
  induction vector as [|x rest IH]; cbn [squaredNorm fold_right]; [lra|].
  fold (squaredNorm rest). nra.
Qed.

Lemma isZero_spec x :
  isZero x = match Prim2SF x with S754_zero _ => true | _ => false end.
Proof.
  unfold isZero. rewrite eqb_spec. change (Prim2SF zero) with (S754_zero false).
  unfold SFeqb. destruct (Prim2SF x) as [s|s| |s m e]; cbn [SFcompare]; try reflexivity.
  - now destruct s.
  - now destruct s.
Qed.

(** The squared norm is zero exactly when every component is. *)
Lemma squaredNorm_zero vector :
  Forall (fun x => float32Range x = true) vector ->
  (squaredNorm vector = 0 <-> forallb isZero vector = true).
Proof.
  induction 1 as [|x rest Hx Hrest IH]; cbn [squaredNorm fold_right forallb];
    [tauto|].
  fold (squaredNorm rest). pose proof (squaredNorm_nonneg rest) as Hpos.
  rewrite andb_true_iff, <- IH, isZero_spec.
  destruct (float32Range_cases x Hx) as [[s Hzero]|(s & m & e & Hfin & Hd & He)].
  - rewrite Hzero, (value_zero x s Hzero). split; [intros; split; [reflexivity|lra]|].
    intros [_ ?]. lra.
  - rewrite Hfin. rewrite (value_square x s m e Hfin).
    assert (0 < IZR (Zpos m) * bpow e).
    { pose proof (bpow_pos e). assert (0 < IZR (Zpos m)) by (apply IZR_lt; lia). nra. }
    split; [intros; nra|intros [? _]; discriminate].
Qed.

(** The computed magnitude: zero for the zero vector; otherwise the norm up
    to the roundings of the sum and of the root. *)
Lemma magnitude_error vector :
  Forall (fun x => float32Range x = true) vector ->
  (Z.of_nat (length vector) <= 2 ^ 32)%Z ->
  let S := squaredNorm vector in
  let n := length vector in
  (S = 0 /\ Prim2SF (magnitudeOf vector) = S754_zero false) \/
  (0 < S /\
   exists m e,
     Prim2SF (magnitudeOf vector) = S754_finite false m e /\
     Zpos (digits2_pos m) = 53%Z /\
     (-204 <= e <= 94)%Z /\
     let M := IZR (Zpos m) * bpow e in
     S * ((1 - u) * (1 - u) * (1 - u) ^ (Datatypes.S n)) <= M * M
     <= S * ((1 + u) * (1 + u) * (1 + u) ^ (Datatypes.S n))).
Proof.
  intros Hall Hlen S n.
  assert (Hstart : sumInvariant zero 0 0) by (left; split; reflexivity).
  pose proof (sum_fold vector zero 0 0 Hstart Hall Hlen) as Hinv.
  rewrite Rplus_0_l in Hinv. cbn [Nat.add] in Hinv. fold S n in Hinv.
  unfold magnitudeOf.
  set (acc := fold_left (fun sum val => (sum + val * val)%float) vector zero) in *.
  destruct Hinv as [[HS Hacc]|(HSr & (ma & ea & Hacc) & Hval)].
  - left. split; [exact HS|]. rewrite sqrt_spec, Hacc. reflexivity.
  - right. pose proof (bpow_pos (-298)) as H298. split; [lra|].
    pose proof u_pos as Hu. pose proof u_small as Hus.
    assert (Hn1 : (Z.of_nat (Datatypes.S n) <= 2 ^ 33)%Z) by (unfold n; lia).
    destruct (pow_half (Datatypes.S n) Hn1) as [[HP1 HP2] [HQ1 HQ2]].
    set (P := (1 - u) ^ Datatypes.S n) in *. set (Q := (1 + u) ^ Datatypes.S n) in *.
    rewrite (value_finite _ _ _ _ Hacc) in Hval. cbn [cond_Zopp] in Hval.
    set (Va := IZR (Zpos ma) * bpow ea) in *.
    pose proof (bpow_pos 256) as H256.
    assert (HVa : bpow (-299) <= Va <= bpow 290).
    { split.
      - apply Rle_trans with (bpow (-298) * / 2); [|nra].
        replace (-298)%Z with (-299 + 1)%Z by lia. rewrite bpow_add, bpow_1.
        pose proof (bpow_pos (-299)). lra.
      - apply Rle_trans with ((INR n * bpow 256) * 2).
        + assert (0 <= INR n * bpow 256) by (pose proof (pos_INR n); nra). nra.
        + unfold n. rewrite INR_IZR_INZ. apply IZR_le in Hlen.
          rewrite <- bpow_IZR in Hlen by lia.
          apply Rle_trans with (bpow 32 * bpow 256 * bpow 1); [rewrite bpow_1; nra|].
          rewrite <- !bpow_add. apply bpow_le. lia. }
    assert (Hda : Zpos (digits2_pos ma) = 53%Z).
    { apply (normal_digits acc false ma ea Hacc). fold Va.
      apply Rle_trans with (bpow (-299)); [apply bpow_le; lia|lra]. }
    destruct (sqrt_error acc ma ea Hacc Hda) as (m & e & Hroot & Herr).
    cbv zeta in Herr. fold Va in Herr.
    exists m, e. split; [exact Hroot|].
    set (M := IZR (Zpos m) * bpow e) in *.
    set (rt := sqrt Va) in *.
    assert (HR : rt * rt = Va) by (apply sqrt_sqrt; pose proof (bpow_pos (-299)); lra).
    assert (HR0 : 0 <= rt) by apply sqrt_pos.
    assert (HM0 : 0 <= M).
    { unfold M. pose proof (bpow_pos e). assert (0 < IZR (Zpos m)) by (apply IZR_lt; lia).
      nra. }
    assert (HMM : Va * ((1 - u) * (1 - u)) <= M * M <= Va * ((1 + u) * (1 + u))).
    { rewrite <- HR. destruct Herr as [Hlo Hhi].
      assert (0 <= rt * (1 - u)) by nra.
      split.
      - replace (rt * rt * ((1 - u) * (1 - u))) with ((rt * (1 - u)) * (rt * (1 - u))) by ring.
        apply Rmult_le_compat; lra.
      - replace (rt * rt * ((1 + u) * (1 + u))) with ((rt * (1 + u)) * (rt * (1 + u))) by ring.
        apply Rmult_le_compat; lra. }
    assert (HMrange : bpow (-302) <= M * M <= bpow 292).
    { destruct HMM as [Hlo Hhi].
      assert (Hc1 : / 4 <= (1 - u) * (1 - u)) by nra.
      assert (Hc2 : (1 + u) * (1 + u) <= 4) by nra.
      set (c1 := (1 - u) * (1 - u)) in *. set (c2 := (1 + u) * (1 + u)) in *.
      pose proof (bpow_pos (-299)). pose proof (bpow_pos 290).
      pose proof (bpow_pos (-302)).
      split.
      - apply Rle_trans with (bpow (-299) * / 4).
        + replace (-299)%Z with (-302 + 3)%Z by lia. rewrite bpow_add.
          rewrite (bpow_IZR 3) by lia. change (IZR (2 ^ 3)) with 8. lra.
        + apply Rle_trans with (Va * c1); [nra|exact Hlo].
      - apply Rle_trans with (bpow 290 * 4).
        + apply Rle_trans with (Va * c2); [exact Hhi|nra].
        + replace 292%Z with (290 + 2)%Z by lia. rewrite bpow_add.
          rewrite (bpow_IZR 2) by lia. change (IZR (2 ^ 2)) with 4. lra. }
    assert (Hroot_valid := finite_valid _ _ _ _ Hroot).
    assert (Hdm : Zpos (digits2_pos m) = 53%Z).
    { apply (normal_digits _ false m e Hroot). fold M.
      destruct (Rle_lt_dec (bpow (-1000)) M) as [|Hlt]; [assumption|exfalso].
      pose proof (bpow_pos (-1000)).
      assert (M * M < bpow (-1000) * bpow (-1000)) by nra.
      rewrite <- bpow_add in *.
      assert (bpow (-1000 + -1000) <= bpow (-302)) by (apply bpow_le; lia). lra. }
    split; [exact Hdm|].
    destruct (digits53 m Hdm) as [_ [Hmlo Hmhi]].
    split.
    { pose proof (bpow_pos e) as Hpe. split.
      - assert (H : bpow (-302) < bpow (53 + e) * bpow (53 + e)).
        { rewrite (bpow_add 53 e). pose proof (bpow_pos 53).
          assert (M < bpow 53 * bpow e) by (unfold M; nra).
          assert (0 < bpow 53 * bpow e) by nra. nra. }
        rewrite <- bpow_add in H. apply bpow_lt_inv in H. lia.
      - assert (H : bpow (52 + e) * bpow (52 + e) <= bpow 292).
        { rewrite (bpow_add 52 e). pose proof (bpow_pos 52).
          assert (bpow 52 * bpow e <= M) by (unfold M; nra).
          assert (0 < bpow 52 * bpow e) by nra. nra. }
        rewrite <- bpow_add in H. apply bpow_le_inv in H. lia. }
    cbv zeta. fold M. destruct HMM as [Hlo Hhi]. destruct Hval as [Hvlo Hvhi].
    assert (0 <= (1 - u) * (1 - u)) by nra.
    assert (0 <= (1 + u) * (1 + u)) by nra.
    split.
    + apply Rle_trans with (Va * ((1 - u) * (1 - u))); [|exact Hlo].
      replace (S * ((1 - u) * (1 - u) * P)) with ((S * P) * ((1 - u) * (1 - u))) by ring.
      apply Rmult_le_compat_r; assumption.
    + apply Rle_trans with (Va * ((1 + u) * (1 + u))); [exact Hhi|].
      replace (S * ((1 + u) * (1 + u) * Q)) with ((S * Q) * ((1 + u) * (1 + u))) by ring.
      apply Rmult_le_compat_r; assumption.
Qed.

End Magnitude.

Section Normalized.
Import Stdlib.Reals.Reals Stdlib.micromega.Lra Stdlib.micromega.Psatz.
Import Exact.
Local Open Scope R_scope.

(** One component divided by the magnitude [M]: times [M], it is the
    component up to one rounding. *)
Lemma component_error x mag m e :
  float32Range x = true ->
  Prim2SF mag = S754_finite false m e ->
  Zpos (digits2_pos m) = 53%Z ->
  (-204 <= e <= 94)%Z ->
  let M := IZR (Zpos m) * bpow e in
  let r := (x / mag)%float in
  (exists z, inUlps r = Some z /\ IZR z = value r * bpow 1074) /\
  (value x * value x) * ((1 - u) * (1 - u)) <= (value r * value r) * (M * M)
  <= (value x * value x) * ((1 + u) * (1 + u)).
Proof.
  intros Hx Hmag Hdm He M r.
  destruct (float32Range_cases x Hx) as [[s Hzero]|(s & mx & ex & Hfin & Hd & Hex)].
  - assert (Hr : Prim2SF r = S754_zero s).
    { unfold r. rewrite div_spec, Hzero, Hmag. unfold SF64div. cbn [SFdiv].
      now rewrite xorb_false_r. }
    rewrite (value_zero x s Hzero), (value_zero r s Hr).
    split; [|lra]. exists 0%Z. unfold inUlps. rewrite Hr. split; [reflexivity|lra].
  - destruct (div_error x mag s mx ex m e Hfin Hmag Hd Hdm ltac:(lia))
      as (m' & e' & Hr & Herr).
    fold r in Hr. cbv zeta in Herr. fold M in Herr.
    rewrite (value_square x s mx ex Hfin), (value_square r s m' e' Hr).
    set (X := IZR (Zpos mx) * bpow ex) in *. set (Y := IZR (Zpos m') * bpow e') in *.
    assert (HM : 0 < M).
    { unfold M. pose proof (bpow_pos e). assert (0 < IZR (Zpos m)) by (apply IZR_lt; lia).
      nra. }
    assert (HX : 0 < X).
    { unfold X. pose proof (bpow_pos ex). assert (0 < IZR (Zpos mx)) by (apply IZR_lt; lia).
      nra. }
    assert (HY : 0 < Y).
    { unfold Y. pose proof (bpow_pos e'). assert (0 < IZR (Zpos m')) by (apply IZR_lt; lia).
      nra. }
    split.
    + destruct (finite_valid r s m' e' Hr) as (He' & _ & _).
      exists (cond_Zopp s (Zpos m') * 2 ^ (e' + 1074))%Z. unfold inUlps. rewrite Hr.
      split; [reflexivity|].
      rewrite (value_finite r s m' e' Hr), mult_IZR, <- bpow_IZR by lia.
      rewrite bpow_add. ring.
    + pose proof u_pos as Hu. pose proof u_small as Hus.
      assert (HQ : X / M * M = X) by (field; lra).
      destruct Herr as [Hlo Hhi].
      assert (HYM : X * (1 - u) <= Y * M <= X * (1 + u)).
      { split.
        - replace (X * (1 - u)) with ((X / M * (1 - u)) * M) by (field; lra).
          apply Rmult_le_compat_r; lra.
        - replace (X * (1 + u)) with ((X / M * (1 + u)) * M) by (field; lra).
          apply Rmult_le_compat_r; lra. }
      destruct HYM as [Hl Hh].
      assert (0 <= X * (1 - u)) by nra.
      assert (0 <= Y * M) by nra.
      split.
      * replace (X * X * ((1 - u) * (1 - u))) with ((X * (1 - u)) * (X * (1 - u))) by ring.
        replace (Y * Y * (M * M)) with ((Y * M) * (Y * M)) by ring.
        apply Rmult_le_compat; lra.
      * replace (X * X * ((1 + u) * (1 + u))) with ((X * (1 + u)) * (X * (1 + u))) by ring.
        replace (Y * Y * (M * M)) with ((Y * M) * (Y * M)) by ring.
        apply Rmult_le_compat; lra.
Qed.

(** The exact sum of squares that [squaredNormInUlps] computes. *)
Lemma squaredNormInUlps_value vector :
  Forall (fun r => exists z, inUlps r = Some z /\ IZR z = value r * bpow 1074) vector ->
  exists s, squaredNormInUlps vector = Some s /\ IZR s = squaredNorm vector * bpow 2148.
Proof.
  induction 1 as [|r rest (z & Hz & Hval) Hrest (s & Hs & Hsum)].
  - exists 0%Z. split; [reflexivity|]. cbn. lra.
  - exists (z * z + s)%Z. cbn [squaredNormInUlps squaredNorm fold_right].
    rewrite Hz, Hs. split; [reflexivity|]. fold (squaredNorm rest).
    rewrite plus_IZR, mult_IZR, Hval, Hsum.
    replace 2148%Z with (1074 + 1074)%Z by lia. rewrite bpow_add. ring.
Qed.

Lemma normalized_sum vector mag m e :
  Forall (fun x => float32Range x = true) vector ->
  Prim2SF mag = S754_finite false m e ->
  Zpos (digits2_pos m) = 53%Z ->
  (-204 <= e <= 94)%Z ->
  let M := IZR (Zpos m) * bpow e in
  let result := map (fun val => (val / mag)%float) vector in
  Forall (fun r => exists z, inUlps r = Some z /\ IZR z = value r * bpow 1074) result /\
  squaredNorm vector * ((1 - u) * (1 - u)) <= squaredNorm result * (M * M)
  <= squaredNorm vector * ((1 + u) * (1 + u)).
Proof.
  intros Hall Hmag Hdm He M. cbv zeta.
  induction Hall as [|x rest Hx Hrest [IHf IHs]]; cbn [map squaredNorm fold_right].
  - split; [constructor|lra].
  - fold (squaredNorm rest). fold (squaredNorm (map (fun val => (val / mag)%float) rest)).
    destruct (component_error x mag m e Hx Hmag Hdm He) as [Hfin Herr].
    cbv zeta in Herr. fold M in Herr.
    split; [constructor; assumption|]. lra.
Qed.

(** The norm of a normalized vector is 1 up to the roundings: one for each
    item of the sum, one for the root, one for the division. *)
Lemma normalizeVector_norm vector :
  Forall (fun x => float32Range x = true) vector ->
  (Z.of_nat (length vector) <= 2 ^ 32)%Z ->
  forallb isZero vector = false ->
  Forall (fun r => exists z, inUlps r = Some z /\ IZR z = value r * bpow 1074)
         (normalizeVector vector) /\
  1 - / 500000 <= squaredNorm (normalizeVector vector) <= 1 + / 500000.
Proof.
  intros Hall Hlen Hnz.
  destruct (magnitude_error vector Hall Hlen) as [[HS _]|(HS & m & e & Hmag & Hdm & He & Hsq)].
  { apply (squaredNorm_zero vector Hall) in HS. congruence. }
  cbv zeta in Hsq.
  unfold normalizeVector. rewrite isZero_spec, Hmag.
  destruct (normalized_sum vector (magnitudeOf vector) m e Hall Hmag Hdm He) as [Hfin Hsum].
  cbv zeta in Hsum. split; [exact Hfin|].
  set (N := squaredNorm (map (fun val => (val / magnitudeOf vector)%float) vector)) in *.
  set (S := squaredNorm vector) in *. set (M2 := IZR (Zpos m) * bpow e * (IZR (Zpos m) * bpow e)) in *.
  set (k := Datatypes.S (length vector)) in *.
  pose proof (pow_minus k) as [HP1 HP2]. pose proof (pow_plus k) as [HQ1 HQ2].
  assert (Hk : (Z.of_nat k <= 2 ^ 33)%Z) by (unfold k; lia).
  pose proof (INR_array k Hk) as Hku. rewrite bpow_m19 in Hku.
  pose proof u_pos as Hu. pose proof u_small as Hus.
  set (P := (1 - u) ^ k) in *. set (Q := (1 + u) ^ k) in *.
  set (t := INR k * u) in *.
  assert (Ht : 0 <= t) by (unfold t; pose proof (pos_INR k); nra).
  set (c1 := (1 - u) * (1 - u)) in *. set (c2 := (1 + u) * (1 + u)) in *.
  assert (Hc1 : 1 - 2 * u <= c1 <= 1) by (unfold c1; split; nra).
  assert (Hc2 : 1 <= c2 <= 1 + 3 * u) by (unfold c2; split; nra).
  destruct Hsq as [Hlo Hhi]. destruct Hsum as [Hslo Hshi].
  assert (HN : 0 <= N) by apply squaredNorm_nonneg.
  assert (HM2 : 0 < M2).
  { assert (0 < S * (c1 * P)); [|lra].
    apply Rmult_lt_0_compat; [exact HS|]. apply Rmult_lt_0_compat; lra. }
  split.
  - (* N is at least c1 / (c2 Q), and Q (1 - t) is at most 1 *)
    assert (H1 : S * c1 <= N * (S * (c2 * Q))).
    { apply Rle_trans with (N * M2); [exact Hslo|]. apply Rmult_le_compat_l; assumption. }
    assert (H2 : c1 <= N * (c2 * Q)).
    { apply Rmult_le_reg_l with S; [exact HS|]. lra. }
    assert (H3 : c1 * (1 - t) <= N * c2).
    { apply Rle_trans with (N * (c2 * Q) * (1 - t)).
      - apply Rmult_le_compat_r; lra.
      - replace (N * (c2 * Q) * (1 - t)) with (N * c2 * (Q * (1 - t))) by ring.
        rewrite <- (Rmult_1_r (N * c2)) at 2.
        apply Rmult_le_compat_l; [nra|exact HQ2]. }
    assert (H4 : (1 - 2 * u) * (1 - t) <= N * (1 + 3 * u)).
    { apply Rle_trans with (c1 * (1 - t)); [apply Rmult_le_compat_r; lra|].
      apply Rle_trans with (N * c2); [exact H3|]. apply Rmult_le_compat_l; lra. }
    nra.
  - (* N is at most c2 / (c1 P), and P is at least 1 - t *)
    assert (H1 : N * (S * (c1 * P)) <= S * c2).
    { apply Rle_trans with (N * M2); [|exact Hshi]. apply Rmult_le_compat_l; assumption. }
    assert (H2 : N * (c1 * P) <= c2).
    { apply Rmult_le_reg_l with S; [exact HS|]. lra. }
    assert (H3 : N * ((1 - 2 * u) * (1 - t)) <= c2).
    { apply Rle_trans with (N * (c1 * P)); [|exact H2].
      apply Rmult_le_compat_l; [exact HN|].
      apply Rmult_le_compat; lra. }
    assert (H4 : (1 - 2 * u) * (1 - t) >= 1 - / 262144 - 2 * u) by nra.
    assert (H5 : N * (1 - / 262144 - 2 * u) <= 1 + 3 * u).
    { apply Rle_trans with (N * ((1 - 2 * u) * (1 - t))); [|lra].
      apply Rmult_le_compat_l; lra. }
    nra.
Qed.

End Normalized.

Lemma forallb_Forall {A} (f : A -> bool) l :
  forallb f l = true -> Forall (fun x => f x = true) l.
Proof. intros H. apply Forall_forall. now apply forallb_forall. Qed.

Section UnitNorm.
Import Stdlib.Reals.Reals Stdlib.micromega.Lra Stdlib.micromega.Psatz.
Import Exact.
Local Open Scope R_scope.

Lemma normalizeVector_within vector :
  forallb float32Range vector = true ->
  Numbers.arrayLength (length vector) ->
  forallb isZero vector = false ->
  hasUnitNormWithin 100000 (normalizeVector vector) = true.
Proof.
  intros Hrange Hlen Hnz. apply forallb_Forall in Hrange.
  unfold Numbers.arrayLength in Hlen.
  destruct (normalizeVector_norm vector Hrange ltac:(lia) Hnz) as [Hfin [Hlo Hhi]].
  destruct (squaredNormInUlps_value _ Hfin) as (s & Hs & Hval).
  unfold hasUnitNormWithin. rewrite Hs.
  set (N := squaredNorm (normalizeVector vector)) in *.
  pose proof (bpow_pos 2148) as Hpos.
  apply andb_true_iff. split; apply Z.leb_le; apply le_IZR.
  - rewrite !mult_IZR, Hval, <- bpow_IZR by lia.
    change (IZR (100000 - 1)) with 99999. change (IZR 100000) with 100000.
    apply Rle_trans with (100000 * 100000 * (1 - / 500000) * bpow 2148); [nra|].
    rewrite <- Rmult_assoc. apply Rmult_le_compat_r; [lra|]. nra.
  - rewrite !mult_IZR, Hval, <- bpow_IZR by lia.
    change (IZR (100000 + 1)) with 100001. change (IZR 100000) with 100000.
    apply Rle_trans with (100000 * 100000 * (1 + / 500000) * bpow 2148); [|nra].
    rewrite <- Rmult_assoc. apply Rmult_le_compat_r; [lra|]. nra.
Qed.

Lemma magnitude_zero vector :
  forallb float32Range vector = true ->
  Numbers.arrayLength (length vector) ->
  isZero (magnitudeOf vector) = forallb isZero vector.
Proof.
  intros Hrange Hlen. apply forallb_Forall in Hrange.
  unfold Numbers.arrayLength in Hlen.
  pose proof (squaredNorm_zero vector Hrange) as Hzero.
  rewrite isZero_spec.
  destruct (magnitude_error vector Hrange ltac:(lia))
    as [[HS Hmag]|(HS & m & e & Hmag & _)]; rewrite Hmag.
  - symmetry. now apply Hzero.
  - destruct (forallb isZero vector) eqn:Hall; [|reflexivity].
    assert (squaredNorm vector = 0) by now apply Hzero. lra.
Qed.

End UnitNorm.

(** C6. [normalizeVector] is a total function, and it divides by the computed
    magnitude only where that is not zero. For a vector of numbers in the
    binary32 range (what [Array.from] of a [Float32Array] of finite numbers
    holds) and of the length of an array, the computed magnitude is zero
    exactly when every component is zero, and then the vector is returned as
    it is; otherwise the result has Euclidean norm 1 give or take 1e-5 (the
    norm taken exactly, of the binary64 components computed).
    [generateEmbedding] applies it to the model's output unless [normalize] is
    [false]. *)
Theorem normalizeVector_rescales_to_unit_norm :
  forall vector,
    forallb float32Range vector = true ->
    Numbers.arrayLength (length vector) ->
    length (normalizeVector vector) = length vector /\
    isZero (magnitudeOf vector) = forallb isZero vector /\
    (forallb isZero vector = true -> normalizeVector vector = vector) /\
    (forallb isZero vector = false ->
     normalizeVector vector = map (fun val => (val / magnitudeOf vector)%float) vector /\
     hasUnitNormWithin 100000 (normalizeVector vector) = true) /\
    (forall attempt text normalize onModelLoad stage pipeline w1,
        isBlank text = false ->
        Observers.getEmbeddingPipeline attempt onModelLoad (fst stage)
        = (Observers.Resolved pipeline, w1) ->
        fst (Numbers.generateEmbedding attempt text
               (Numbers.mkEmbedOptions normalize onModelLoad) stage)
        = Observers.Resolved (match normalize with
                              | Some false => pipeline text
                              | _ => normalizeVector (pipeline text)
                              end)).
Proof.
  intros vector Hrange Hlen.
  pose proof (magnitude_zero vector Hrange Hlen) as Hmag.
  split; [apply normalizeVector_length|]. split; [exact Hmag|].
  split; [intros Hz; unfold normalizeVector; now rewrite Hmag, Hz|].
  split.
  - intros Hnz. split; [unfold normalizeVector; now rewrite Hmag, Hnz|].
    now apply normalizeVector_within.
  - intros attempt text normalize onModelLoad stage pipeline w1 Hblank Hload.
    unfold Numbers.generateEmbedding. rewrite Hblank.
    unfold Numbers.bind, Numbers.lift, Numbers.step.
    cbn [Numbers.eo_onModelLoad Numbers.eo_normalize fst snd]. rewrite Hload.
    unfold infer. cbn [Observers.settled fst snd].
    destruct normalize as [[|]|]; reflexivity.
Qed.

(** C6 at work: the vector the mock model gives for a text, 384 numbers, is
    normalized to norm 1 within 1e-5; [3, 4] becomes the binary64 numbers
    nearest to 0.6 and 0.8; the zero vector is returned as it is. *)
Lemma normalizeVector_rescales_witness :
  hasUnitNormWithin 100000 (normalizeVector (mockPipeline (lit "Hello"))) = true /\
  normalizeVector [ofZ 3; ofZ 4] = [0x1.3333333333333p-1; 0x1.999999999999ap-1]%float /\
  normalizeVector (zeros 384) = zeros 384.
Proof.
  split; [|split].
  - apply (normalizeVector_rescales_to_unit_norm (mockPipeline (lit "Hello"))).
    + vm_compute. reflexivity.
    + unfold Numbers.arrayLength. apply Z.ltb_lt. vm_compute. reflexivity.
    + vm_compute. reflexivity.
  - vm_compute. reflexivity.
  - apply (normalizeVector_rescales_to_unit_norm (zeros 384)).
    + vm_compute. reflexivity.
    + unfold Numbers.arrayLength. apply Z.ltb_lt. vm_compute. reflexivity.
    + vm_compute. reflexivity.
Defined.

(** Outside that range the norm is lost, though nothing is raised: squares
    that overflow give magnitude infinity and a zero result, squares that
    underflow give magnitude zero and leave the vector as it is, and a NaN or
    an infinity among the components gives NaN components. *)
Example normalizeVector_outside_the_range :
  normalizeVector [0x1p+600]%float = [zero] /\
  normalizeVector [0x1p-600]%float = [0x1p-600]%float /\
  map is_nan (normalizeVector [one; nan]) = [true; true] /\
  map is_nan (normalizeVector [one; infinity]) = [false; true] /\
  map float32Range [0x1p+600; 0x1p-600; nan; infinity; 0x1p-149; 0x1.fffffep+127]%float
  = [false; false; false; false; true; true].
Proof. vm_compute. repeat split. Qed.

(** What [hasUnitNormWithin 100000] accepts: norms from 0.99999 to 1.00001. *)
Example hasUnitNormWithin_tolerance :
  map (hasUnitNormWithin 100000)
      [ [one];
        [(ofZ 1000005 / ofZ 1000000)%float];
        [(ofZ 999995 / ofZ 1000000)%float];
        [(ofZ 100002 / ofZ 100000)%float];
        [(ofZ 99998 / ofZ 100000)%float];
        [(ofZ 3 / ofZ 5)%float; (ofZ 4 / ofZ 5)%float];
        [one; one];
        [];
        [nan] ]
  = [true; true; true; false; false; true; false; false; false].
Proof. vm_compute. reflexivity. Qed.
